(** * youtube-strategy: scoring, duration parsing, filtering and Shorts
      classification

    A shallow embedding of the pure code of the repository:

    - [services/youtubeService.ts]: [parseDuration], the popularity score
      computed inside [getVideoDetails], [analyzeShortsPerformance],
      [generateShortsSummary] and [findRisingStarChannels], in its two
      versions;
    - the constants module: [calculatePopularityScore], its weights and the
      patterns of the video addresses;
    - the utilities module: [parseDuration] (null-safe variant),
      [filterByVideoType], [formatDuration], [chunkArray], [uniqueBy],
      [escapeCsvValue], [convertToCSV], [parseVideoUrl] and [isValidApiKey];
    - [App.tsx]: the video-type filter and the TOP/BOTTOM selection of
      [handleSearch], and its branch of the Shorts management;
    - the Shorts management view: its sorted list, over the renders that
      sort the array it shares with [App].

    Numbers.  A TypeScript [number] is a binary64 value.  The counters of a
    video come out of [parseInt(_, 10)] and are modelled as integers ([Z]);
    quotients of counters (scores, rates, percentiles) are modelled as exact
    rationals ([Q]), compared with [==].  Rounding error of binary64
    arithmetic is therefore not part of this model; module [Binary64]
    evaluates the same rate formulas with primitive floats on the inputs
    used in the examples.

    Loops.  A loop whose end depends on its arguments takes a [fuel] that
    bounds the tests of its condition and returns [None] when the fuel is
    spent; the properties say for which fuel it returns. *)

From Stdlib Require Import ZArith NArith QArith Qround Qabs Lia Lqa.
From Stdlib Require Import List Bool Ascii String.
From Stdlib Require Import Permutation Sorting.Sorted.
From Stdlib Require Import Floats.
Import ListNotations.

Local Open Scope Z_scope.
Local Open Scope Q_scope.

(** ** Numbers *)

(** [a < b] on numbers, as a boolean. *)
Definition Qltb (a b : Q) : bool :=
  match a ?= b with Lt => true | _ => false end.

Definition Qleb (a b : Q) : bool := negb (Qltb b a).

(** A length or an index, as a number. *)
Definition Qnat (n : nat) : Q := inject_Z (Z.of_nat n).

(** [parseFloat(x.toFixed(2))].  [toFixed(2)] takes the integer [n] for which
    [n / 100] is closest to [|x|] (the larger [n] on a tie), prints the sign
    and the decimal expansion of [n / 100]; [parseFloat] reads that decimal
    back.  The composite is the number [n / 100] with the sign of [x]. *)
Definition toFixed2 (x : Q) : Q :=
  if Qleb 0 x
  then Qfloor (x * 100 + (1 # 2)) # 100
  else (- Qfloor (- x * 100 + (1 # 2)))%Z # 100.

(** [Math.round]: the nearest integer, a tie going up. *)
Definition Math_round (x : Q) : Z := Qfloor (x + (1 # 2)).

(** [Math.min] on two numbers. *)
Definition Math_min (a b : Q) : Q := if Qltb b a then b else a.

(** ** Completions

    A call either returns a value or throws.  No function modelled here has
    a [throw] statement, and none throws an [InvalidInput]; of the built-in
    operations they call on numbers, [toFixed] throws a [RangeError] when
    the number of digits it is given is outside 0..100. *)
Inductive errorKind : Type := InvalidInput | RangeError.

Inductive completion (A : Type) : Type :=
| Normal (a : A)
| Throw (e : errorKind).

Arguments Normal {A} a.
Arguments Throw {A} e.

(** [parseFloat(x.toFixed(fractionDigits))].  [toFixed] throws a
    [RangeError] unless [0 <= fractionDigits <= 100]; otherwise it prints
    the decimal with [fractionDigits] places that is closest to [x] (the
    larger magnitude on a tie), and [parseFloat] reads that decimal back.
    The exponent form that [toFixed] prints from the magnitude [10^21] on is
    left out: a score of counters below [2^53] stays below [10^19]. *)
Definition toFixed (x : Q) (fractionDigits : Z) : completion Q :=
  if ((fractionDigits <? 0) || (100 <? fractionDigits))%Z
  then Throw RangeError
  else
    let p := (10 ^ fractionDigits)%Z in
    Normal
      (if Qleb 0 x
       then Qfloor (x * inject_Z p + (1 # 2)) # Z.to_pos p
       else (- Qfloor (- x * inject_Z p + (1 # 2)))%Z # Z.to_pos p).

(** ** Arrays *)

Section Arrays.

Variable A : Type.

(** [Array.prototype.sort(cmp)] is a stable sort: [a] is placed after [b]
    when [cmp(a, b) > 0], and elements that compare equal keep their input
    order.  For a comparator that orders the elements consistently the
    result is determined; it is computed here by stable insertion.
    [insert cmp x l] puts [x], which preceded all of [l] in the input, in
    front of the first element it need not follow. *)
Fixpoint insert (cmp : A -> A -> Q) (x : A) (l : list A) : list A :=
  match l with
  | [] => [x]
  | y :: l' => if Qltb 0 (cmp x y) then y :: insert cmp x l' else x :: l
  end.

Definition js_sort (cmp : A -> A -> Q) (l : list A) : list A :=
  fold_right (insert cmp) [] l.

(** A relative index of [slice]: negative counts from the end, and both ends
    are clamped to the array. *)
Definition rel_index (len i : Z) : Z :=
  if (i <? 0)%Z then Z.max (len + i) 0 else Z.min i len.

(** [Array.prototype.slice(start, end)]; [None] is an omitted [end]. *)
Definition slice (start : Z) (end_ : option Z) (l : list A) : list A :=
  let len := Z.of_nat (List.length l) in
  let k := rel_index len start in
  let final := match end_ with None => len | Some e => rel_index len e end in
  firstn (Z.to_nat (Z.max (final - k) 0)) (skipn (Z.to_nat k) l).

(** Position of the first element satisfying [p]. *)
Fixpoint find_pos (p : A -> bool) (l : list A) : option nat :=
  match l with
  | [] => None
  | x :: l' => if p x then Some O else option_map S (find_pos p l')
  end.

(** [Array.prototype.findIndex]: [-1] when nothing satisfies [p]. *)
Definition findIndex (p : A -> bool) (l : list A) : Z :=
  match find_pos p l with
  | Some n => Z.of_nat n
  | None => (-1)%Z
  end.

(** The last element, if any. *)
Fixpoint last_opt (l : list A) : option A :=
  match l with
  | [] => None
  | x :: l' => match l' with [] => Some x | _ :: _ => last_opt l' end
  end.

(** [arr[i]]: [None] is [undefined]. *)
Definition at_index (l : list A) (i : Z) : option A :=
  if (i <? 0)%Z then None else nth_error l (Z.to_nat i).

End Arrays.

Arguments insert {A} cmp x l.
Arguments js_sort {A} cmp l.
Arguments slice {A} start end_ l.
Arguments find_pos {A} p l.
Arguments findIndex {A} p l.
Arguments at_index {A} l i.
Arguments last_opt {A} l.

(** A list ordered by [key], greater keys first. *)
Definition descending {A : Type} (key : A -> Q) : list A -> Prop :=
  StronglySorted (fun a b => key b <= key a).

(** ** Strings: [parseInt] and the duration pattern *)

Local Open Scope string_scope.

(** [\d] *)
Definition is_digit (c : ascii) : bool :=
  let n := nat_of_ascii c in (48 <=? n)%nat && (n <=? 57)%nat.

Definition digit_value (c : ascii) : Z := Z.of_nat (nat_of_ascii c - 48).

(** The value of the run of digits at the front of [s], continuing [acc]. *)
Fixpoint parse_digits (acc : Z) (s : string) : Z :=
  match s with
  | String c r =>
      if is_digit c then parse_digits (acc * 10 + digit_value c)%Z r else acc
  | EmptyString => acc
  end.

Definition starts_with_digit (s : string) : bool :=
  match s with String c _ => is_digit c | EmptyString => false end.

(** [parseInt(s, 10)] on a string without leading white space: an optional
    sign, then the longest run of decimal digits; [None] is [NaN].  Called
    without a radix, [parseInt] reads the same value unless the digits start
    with [0x], which a run matched by [\d+] followed by a letter marker
    never does. *)
Definition parseInt (s : string) : option Z :=
  match s with
  | String c r =>
      if is_digit c then Some (parse_digits 0 s)
      else if Ascii.eqb c "-" then
        if starts_with_digit r then Some (- parse_digits 0 r)%Z else None
      else if Ascii.eqb c "+" then
        if starts_with_digit r then Some (parse_digits 0 r) else None
      else None
  | EmptyString => None
  end.

(** [parseInt(undefined)] is [NaN]. *)
Definition parseInt_opt (s : option string) : option Z :=
  match s with Some s' => parseInt s' | None => None end.

(** [x || 0] on a number: [NaN] and [0] are falsy. *)
Definition or_zero (x : option Z) : Z :=
  match x with
  | Some n => if (n =? 0)%Z then 0%Z else n
  | None => 0%Z
  end.

(** The longest run of digits at the front of [s], and what follows. *)
Fixpoint span_digits (s : string) : string * string :=
  match s with
  | String c r =>
      if is_digit c
      then let (ds, rest) := span_digits r in (String c ds, rest)
      else (EmptyString, s)
  | EmptyString => (EmptyString, EmptyString)
  end.

(** One optional group [(\d+X)?] at the front of [s], [X] being the marker:
    the text of the whole group and of its digits when it matches, and the
    text that follows.  The group is greedy and nothing stands after the
    last group, so it matches exactly when a non-empty maximal run of digits
    is followed by the marker. *)
Definition group (marker : ascii) (s : string)
  : option (string * string) * string :=
  match span_digits s with
  | (String d ds, String c rest) =>
      if Ascii.eqb c marker
      then (Some (String d ds ++ String c "", String d ds), rest)
      else (None, s)
  | _ => (None, s)
  end.

(** The text after the leftmost occurrence of [PT]. *)
Fixpoint after_PT (s : string) : option string :=
  match s with
  | EmptyString => None
  | String c s' =>
      match s' with
      | String c' r =>
          if Ascii.eqb c "P" && Ascii.eqb c' "T" then Some r else after_PT s'
      | EmptyString => None
      end
  end.

(** The captures of the three groups of a match. *)
Record duration_match : Type := {
  hoursGroup : option (string * string);
  minutesGroup : option (string * string);
  secondsGroup : option (string * string)
}.

(** [duration.match(/PT(\d+H)?(\d+M)?(\d+S)?/)] and, with the digits as the
    captures, [/PT(?:(\d+)H)?(?:(\d+)M)?(?:(\d+)S)?/]: all three groups are
    optional, so the match is at the leftmost [PT]; [None] is [null]. *)
Definition match_duration (duration : string) : option duration_match :=
  match after_PT duration with
  | None => None
  | Some r =>
      let (h, r1) := group "H" r in
      let (m, r2) := group "M" r1 in
      let (s, _) := group "S" r2 in
      Some {| hoursGroup := h; minutesGroup := m; secondsGroup := s |}
  end.

(** [services/youtubeService.ts], [parseDuration]: the captures are the whole
    groups, marker included. *)
Definition parseDuration (duration : string) : Z :=
  match match_duration duration with
  | None => 0%Z
  | Some m =>
      let hours := or_zero (parseInt_opt (option_map fst (hoursGroup m))) in
      let minutes := or_zero (parseInt_opt (option_map fst (minutesGroup m))) in
      let seconds := or_zero (parseInt_opt (option_map fst (secondsGroup m))) in
      (hours * 3600 + minutes * 60 + seconds)%Z
  end.

(** White space of [String.prototype.trim], as far as single bytes go. *)
Definition is_space (c : ascii) : bool :=
  let n := nat_of_ascii c in
  ((9 <=? n)%nat && (n <=? 13)%nat) || (n =? 32)%nat.

Fixpoint is_blank (s : string) : bool :=
  match s with
  | EmptyString => true
  | String c r => is_space c && is_blank r
  end.

(** [x || '0'] on a capture: [undefined] and the empty string are falsy. *)
Definition or_zero_string (x : option string) : string :=
  match x with
  | Some EmptyString | None => "0"
  | Some s => s
  end.

(** The utilities module, [parseDuration]: [None] is [undefined] or [null];
    the captures are the digits, read with [parseInt(_ || '0', 10)], which
    is never [NaN] on a run of digits or on ['0'].  The [try] block encloses
    calls that do not throw. *)
Definition utils_parseDuration (duration : option string) : Z :=
  match duration with
  | None => 0%Z
  | Some d =>
      if is_blank d then 0%Z
      else
        match match_duration d with
        | None => 0%Z
        | Some m =>
            let num g :=
              match parseInt (or_zero_string (option_map snd g)) with
              | Some n => n
              | None => 0%Z
              end in
            (num (hoursGroup m) * 3600 + num (minutesGroup m) * 60
             + num (secondsGroup m))%Z
        end
  end.

(** ** Data model ([types.ts]) *)

Record VideoData : Type := {
  id : string;
  title : string;
  thumbnail : string;
  viewCount : Z;
  likeCount : Z;
  commentCount : Z;
  duration : Z;
  popularityScore : Q;
  publishedAt : option string;
  description : option string;
  channelId : option string;
  channelTitle : option string
}.

Inductive ChannelAnalysisView : Type := TOP | BOTTOM.

Inductive VideoTypeFilter : Type := ALL | SHORTS | LONG.

Inductive ShortsPerformance : Type := VIRAL | EXCELLENT | GOOD | AVERAGE | POOR.

(** [ShortsData extends VideoData]; [video] holds the inherited fields, which
    the code copies with [...video]. *)
Record ShortsData : Type := {
  video : VideoData;
  performance : ShortsPerformance;
  engagementRate : Q;
  retentionScore : option Q;
  hookEffectiveness : option Q
}.

(** The texts pushed on [recommendations], named by the condition that
    pushes them; an argument is the number interpolated in the text. *)
Inductive recommendation : Type :=
| NoShorts                              (* the batch is empty *)
| LowViralRate                          (* viralRate < 5 *)
| HighViralRate (viralRate : Q)         (* viralRate > 15 *)
| LowEngagement                         (* avgEngagement < 0.01 *)
| HighEngagement (avgEngagementPercent : Q)  (* avgEngagement > 0.05 *)
| HighPoorRate (poorRate : Q)           (* poorRate > 30 *)
| FewShorts                             (* shorts.length < 10 *)
| TopDuration (avgTopDuration : Q)      (* some Short is VIRAL or EXCELLENT *)
| StablePerformance.                    (* nothing else was pushed *)

Record ShortsSummary : Type := {
  totalShorts : nat;
  avgViews : Z;
  avgEngagement : Q;
  viralCount : nat;
  poorCount : nat;
  bestPerformer : option ShortsData;
  worstPerformer : option ShortsData;
  recommendations : list recommendation
}.

Definition ShortsPerformance_eqb (a b : ShortsPerformance) : bool :=
  match a, b with
  | VIRAL, VIRAL | EXCELLENT, EXCELLENT | GOOD, GOOD
  | AVERAGE, AVERAGE | POOR, POOR => true
  | _, _ => false
  end.

(** ** Popularity score ([getVideoDetails], constants module) *)

(** [getVideoDetails], the callback of [data.items.map]:
    [const score = viewCount > 0
       ? ((likeCount * 0.6 + commentCount * 0.4) / viewCount) * 1000 : 0]. *)
Definition score (viewCount likeCount commentCount : Z) : Q :=
  if (viewCount >? 0)%Z
  then ((inject_Z likeCount * 0.6 + inject_Z commentCount * 0.4)
        / inject_Z viewCount) * 1000
  else 0.

(** The value stored in the field:
    [popularityScore: parseFloat(score.toFixed(2))]. *)
Definition scoreField (viewCount likeCount commentCount : Z) : Q :=
  toFixed2 (score viewCount likeCount commentCount).

(** The scoring step of [getVideoDetails] as a call, in
    [services/youtubeService.ts]: the score is computed in line and stored
    as [parseFloat(score.toFixed(2))].  The body has no [throw] and no test
    of the sign of a counter; arithmetic and comparisons on numbers do not
    throw, [toFixed] can. *)
Definition computePopularityScore (viewCount likeCount commentCount : Z)
  : completion Q :=
  let score := score viewCount likeCount commentCount in
  toFixed score 2.

(** The object built for one item of the response, from its parsed counters
    and its duration text. *)
Definition getVideoDetails_item
  (id title thumbnail : string) (viewCount likeCount commentCount : Z)
  (contentDuration : string)
  (publishedAt description channelId channelTitle : option string)
  : VideoData :=
  {| id := id; title := title; thumbnail := thumbnail;
     viewCount := viewCount; likeCount := likeCount;
     commentCount := commentCount;
     duration := parseDuration contentDuration;
     popularityScore := scoreField viewCount likeCount commentCount;
     publishedAt := publishedAt; description := description;
     channelId := channelId; channelTitle := channelTitle |}.

(** The constants module. *)
Definition LIKE_WEIGHT : Q := 0.6.
Definition COMMENT_WEIGHT : Q := 0.4.
Definition SCORE_MULTIPLIER : Q := 1000.
Definition SHORTS_MAX_SECONDS : Z := 60.
Definition SHORTS_EXTENDED_MAX_SECONDS : Z := 180.

(** [calculatePopularityScore]: [if (viewCount === 0) return 0], then the
    weighted rate times the multiplier. *)
Definition calculatePopularityScore (viewCount likeCount commentCount : Z)
  : Q :=
  if (viewCount =? 0)%Z then 0
  else
    let engagementRate :=
      (inject_Z likeCount * LIKE_WEIGHT
       + inject_Z commentCount * COMMENT_WEIGHT) / inject_Z viewCount in
    engagementRate * SCORE_MULTIPLIER.

(** The scoring step of [getVideoDetails] in the later version of the
    service: [const score = calculatePopularityScore(viewCount, likeCount,
    commentCount)], stored as [parseFloat(score.toFixed(2))]. *)
Definition computePopularityScore_refactored
  (viewCount likeCount commentCount : Z) : completion Q :=
  let score := calculatePopularityScore viewCount likeCount commentCount in
  toFixed score 2.

(** ** Filtering by video type *)

(** The utilities module, [filterByVideoType]; the default of
    [shortsMaxDuration] is [SHORTS_MAX_SECONDS]. *)
Definition filterByVideoType
  (videos : list VideoData) (type : VideoTypeFilter) (shortsMaxDuration : Z)
  : list VideoData :=
  match type with
  | SHORTS =>
      filter
        (fun v => (duration v >? 0)%Z && (duration v <=? shortsMaxDuration)%Z)
        videos
  | LONG => filter (fun v => (duration v >? shortsMaxDuration)%Z) videos
  | ALL => videos
  end.

(** The version of [handleSearch] that writes the filter in place, with the
    literal 180. *)
Definition handleSearch_filter
  (videoTypeFilter : VideoTypeFilter) (videoDetails : list VideoData)
  : list VideoData :=
  match videoTypeFilter with
  | SHORTS =>
      filter (fun v => (duration v >? 0)%Z && (duration v <? 180)%Z)
        videoDetails
  | LONG => filter (fun v => (duration v >=? 180)%Z) videoDetails
  | ALL => videoDetails
  end.

(** ** TOP / BOTTOM selection of [handleSearch]

    [displayVideos] starts as [[]]; when [videoDetails] is not empty a copy is
    sorted with [(a, b) => a.popularityScore - b.popularityScore] and
    [sortedVideos.slice(-10).reverse()] or [sortedVideos.slice(0, 10)] is
    kept. *)
Definition handleSearch_displayVideos
  (channelView : ChannelAnalysisView) (videoDetails : list VideoData)
  : list VideoData :=
  if (Z.of_nat (List.length videoDetails) >? 0)%Z then
    let sortedVideos :=
      js_sort (fun a b => popularityScore a - popularityScore b) videoDetails in
    match channelView with
    | TOP => rev (slice (-10) None sortedVideos)
    | BOTTOM => slice 0 (Some 10%Z) sortedVideos
    end
  else [].

(** ** [analyzeShortsPerformance] *)

(** The filter that keeps the Shorts: [v.duration > 0 && v.duration <= 60]. *)
Definition isShort (v : VideoData) : bool :=
  (duration v >? 0)%Z && (duration v <=? 60)%Z.

(** [(likeCount + commentCount) / viewCount], or [0] without views. *)
Definition engagementRateOf (video : VideoData) : Q :=
  if (viewCount video >? 0)%Z
  then inject_Z (likeCount video + commentCount video)
       / inject_Z (viewCount video)
  else 0.

(** The callback of the first [map]: the rates of one video, the tier being
    a placeholder.  [subscriberCount] is optional: [None] is [undefined]. *)
Definition withEngagement (subscriberCount : option Z) (video : VideoData)
  : ShortsData :=
  let engagementRate := engagementRateOf video in
  let retentionScore :=
    match subscriberCount with
    | Some sc =>
        if negb (sc =? 0)%Z && (sc >? 0)%Z
        then Some (Math_min (inject_Z (viewCount video) / inject_Z sc) 1)
        else None
    | None => None
    end in
  let hookEffectiveness :=
    if (viewCount video >? 0)%Z
    then (inject_Z (likeCount video + commentCount video * 2)
          / inject_Z (viewCount video)) * 100
    else 0 in
  {| video := video;
     engagementRate := engagementRate;
     retentionScore := retentionScore;
     hookEffectiveness := Some hookEffectiveness;
     performance := AVERAGE |}.

(** The chain of comparisons on [percentile]. *)
Definition tierOfPercent (percentile : Q) : ShortsPerformance :=
  if Qltb percentile 10 then VIRAL
  else if Qltb percentile 30 then EXCELLENT
  else if Qltb percentile 60 then GOOD
  else if Qltb percentile 80 then AVERAGE
  else POOR.

(** [rank] and [percentile] of one item with respect to the sorted copy. *)
Definition rankOf (sortedByEngagement : list ShortsData) (short : ShortsData)
  : Z :=
  findIndex (fun s => String.eqb (id (video s)) (id (video short)))
    sortedByEngagement.

Definition percentileOf (sortedByEngagement : list ShortsData)
  (short : ShortsData) : Q :=
  (inject_Z (rankOf sortedByEngagement short)
   / Qnat (List.length sortedByEngagement)) * 100.

(** The callback of the second [map]: the item with its tier. *)
Definition withPerformance (sortedByEngagement : list ShortsData)
  (short : ShortsData) : ShortsData :=
  {| video := video short;
     engagementRate := engagementRate short;
     retentionScore := retentionScore short;
     hookEffectiveness := hookEffectiveness short;
     performance := tierOfPercent (percentileOf sortedByEngagement short) |}.

Definition analyzeShortsPerformance
  (videos : list VideoData) (subscriberCount : option Z) : list ShortsData :=
  let shorts := filter isShort videos in
  if (List.length shorts =? 0)%nat then []
  else
    let shortsWithEngagement := map (withEngagement subscriberCount) shorts in
    let sortedByEngagement :=
      js_sort (fun a b => engagementRate b - engagementRate a)
        shortsWithEngagement in
    map (withPerformance sortedByEngagement) shortsWithEngagement.

(** ** [generateShortsSummary] *)

Definition hasTier (t : ShortsPerformance) (s : ShortsData) : bool :=
  ShortsPerformance_eqb (performance s) t.

(** The early return on an empty batch, then the means, the counts, the
    performers taken from a copy sorted with
    [(a, b) => b.viewCount - a.viewCount], and the recommendations in the
    order of their [push]. *)
Definition generateShortsSummary (shorts : list ShortsData) : ShortsSummary :=
  if (List.length shorts =? 0)%nat then
    {| totalShorts := 0; avgViews := 0; avgEngagement := 0;
       viralCount := 0; poorCount := 0;
       bestPerformer := None; worstPerformer := None;
       recommendations := [NoShorts] |}
  else
    let n := Qnat (List.length shorts) in
    let totalViews :=
      fold_left (fun sum s => (sum + viewCount (video s))%Z) shorts 0%Z in
    let totalEngagement :=
      fold_left (fun sum s => sum + engagementRate s) shorts 0 in
    let avgViews := inject_Z totalViews / n in
    let avgEngagement := totalEngagement / n in
    let viralCount := List.length (filter (hasTier VIRAL) shorts) in
    let poorCount := List.length (filter (hasTier POOR) shorts) in
    let sortedByViews :=
      js_sort (fun a b => inject_Z (viewCount (video b) - viewCount (video a)))
        shorts in
    let bestPerformer := at_index sortedByViews 0 in
    let worstPerformer :=
      at_index sortedByViews (Z.of_nat (List.length sortedByViews) - 1) in
    let viralRate := (Qnat viralCount / n) * 100 in
    let r1 :=
      if Qltb viralRate 5 then [LowViralRate]
      else if Qltb 15 viralRate then [HighViralRate viralRate]
      else [] in
    let r2 :=
      if Qltb avgEngagement 0.01 then [LowEngagement]
      else if Qltb 0.05 avgEngagement
           then [HighEngagement (avgEngagement * 100)]
      else [] in
    let poorRate := (Qnat poorCount / n) * 100 in
    let r3 := if Qltb 30 poorRate then [HighPoorRate poorRate] else [] in
    let r4 := if (List.length shorts <? 10)%nat then [FewShorts] else [] in
    let topShorts :=
      slice 0 (Some 5%Z)
        (filter (fun s => hasTier VIRAL s || hasTier EXCELLENT s) shorts) in
    let r5 :=
      if (0 <? List.length topShorts)%nat then
        let avgTopDuration :=
          inject_Z (fold_left (fun sum s => (sum + duration (video s))%Z)
                      topShorts 0%Z)
          / Qnat (List.length topShorts) in
        [TopDuration avgTopDuration]
      else [] in
    let pushed := (r1 ++ r2 ++ r3 ++ r4 ++ r5)%list in
    let recommendations :=
      if (List.length pushed =? 0)%nat then [StablePerformance] else pushed in
    {| totalShorts := List.length shorts;
       avgViews := Math_round avgViews;
       avgEngagement := avgEngagement;
       viralCount := viralCount;
       poorCount := poorCount;
       bestPerformer := bestPerformer;
       worstPerformer := worstPerformer;
       recommendations := recommendations |}.

(** ** Notions used to state the properties *)

(** The weighted engagement ratio scaled by 1000. *)
Definition weighted_ratio_scaled (viewCount likeCount commentCount : Z) : Q :=
  ((inject_Z likeCount * 0.6 + inject_Z commentCount * 0.4)
   / inject_Z viewCount) * 1000.

(** [r] is [x] rounded to two decimal places: a whole number of hundredths at
    distance at most half a hundredth from [x]. *)
Definition rounded_to_2_places (x r : Q) : Prop :=
  (exists n : Z, r == n # 100) /\ Qabs (r - x) <= 1 # 200.

(** The tier of a percentile in [[0, 1)], by the threshold table. *)
Definition tier_of_percentile (p : Q) : ShortsPerformance :=
  if Qltb p 0.10 then VIRAL
  else if Qltb p 0.30 then EXCELLENT
  else if Qltb p 0.60 then GOOD
  else if Qltb p 0.80 then AVERAGE
  else POOR.

(** The rank of the [i]-th item in the stable descending sort of a batch
    with the given ranking keys: the number of items with a greater key plus
    the number of earlier items with an equal key. *)
Definition stable_rank_desc (keys : list Q) (i : nat) : nat :=
  let k := nth i keys 0 in
  (List.length (filter (fun k' => Qltb k k') keys)
   + List.length (filter (fun k' => Qeq_bool k' k) (firstn i keys)))%nat.

(** No two items of the batch have equal ranking keys. *)
Fixpoint distinct_keys (keys : list Q) : bool :=
  match keys with
  | [] => true
  | k :: rest =>
      forallb (fun k' => negb (Qeq_bool k k')) rest && distinct_keys rest
  end.

(** [b] is the first item of [shorts] among those with the most views. *)
Definition first_with_max_views (shorts : list ShortsData) (b : ShortsData)
  : Prop :=
  exists i,
    nth_error shorts i = Some b
    /\ (forall x, In x shorts -> (viewCount (video x) <= viewCount (video b))%Z)
    /\ (forall j x, (j < i)%nat -> nth_error shorts j = Some x ->
                    (viewCount (video x) < viewCount (video b))%Z).

(** [w] is the last item of [shorts] among those with the fewest views. *)
Definition last_with_min_views (shorts : list ShortsData) (w : ShortsData)
  : Prop :=
  exists i,
    nth_error shorts i = Some w
    /\ (forall x, In x shorts -> (viewCount (video w) <= viewCount (video x))%Z)
    /\ (forall j x, (i < j)%nat -> nth_error shorts j = Some x ->
                    (viewCount (video w) < viewCount (video x))%Z).

(** The selection as the specification words it: sort ascending by
    [popularityScore]; TOP is the last [count] elements reversed, BOTTOM the
    first [count] elements. *)
Definition selectTopOrBottom (items : list VideoData)
  (mode : ChannelAnalysisView) (count : nat) : list VideoData :=
  let sorted :=
    js_sort (fun a b => popularityScore a - popularityScore b) items in
  match mode with
  | TOP => rev (skipn (List.length sorted - count) sorted)
  | BOTTOM => firstn count sorted
  end.

(** A stable sort of the batch by [viewCount], descending. *)
Definition sortedByViewsDescending (shorts : list ShortsData)
  : list ShortsData :=
  js_sort (fun a b => inject_Z (viewCount (video b) - viewCount (video a)))
    shorts.

(** A stable sort of the batch by [viewCount], ascending. *)
Definition sortedByViewsAscending (shorts : list ShortsData)
  : list ShortsData :=
  js_sort (fun a b => inject_Z (viewCount (video a) - viewCount (video b)))
    shorts.

(** Every character of [s] is a digit. *)
Fixpoint all_digits (s : string) : bool :=
  match s with
  | EmptyString => true
  | String c r => is_digit c && all_digits r
  end.

(** The decimal digits of [n]; [fuel] bounds their number. *)
Fixpoint decimal_fuel (fuel : nat) (n : N) : string :=
  match fuel with
  | O => ""
  | S f =>
      (if (n <? 10)%N then "" else decimal_fuel f (n / 10)%N)
      ++ String (ascii_of_N (48 + n mod 10)) ""
  end.

Definition decimal (n : N) : string :=
  decimal_fuel (S (N.to_nat (N.size n))) n.

(** One component of the compact notation: absent, or digits and marker. *)
Definition component (x : option N) (marker : ascii) : string :=
  match x with
  | Some n => decimal n ++ String marker ""
  | None => ""
  end.

(** The canonical encoding of a duration with the given components. *)
Definition encodeDuration (hours minutes seconds : option N) : string :=
  "PT" ++ component hours "H" ++ component minutes "M"
  ++ component seconds "S".

Definition component_value (x : option N) : Z :=
  match x with Some n => Z.of_N n | None => 0%Z end.

(** The pattern has no match in [s]: [PT] does not occur in it. *)
Definition unparsable (s : string) : Prop :=
  forall a b, s <> a ++ "PT" ++ b.

(** The order of the tiers, best first. *)
Definition tier_index (t : ShortsPerformance) : nat :=
  match t with
  | VIRAL => 0 | EXCELLENT => 1 | GOOD => 2 | AVERAGE => 3 | POOR => 4
  end.

(** ** Example batches *)

(** A response item with the given identifier, counters and duration. *)
Definition example_video (id : string) (viewCount likeCount commentCount : Z)
  (contentDuration : string) : VideoData :=
  getVideoDetails_item id "" "" viewCount likeCount commentCount
    contentDuration None None None None.

(** The three items of the end-to-end scenario, as Shorts of 30 seconds. *)
Definition itemA : VideoData := example_video "A" 1000 100 50 "PT30S".
Definition itemB : VideoData := example_video "B" 1000 10 5 "PT30S".
Definition itemC : VideoData := example_video "C" 1000 500 200 "PT30S".
Definition scenario : list VideoData := [itemA; itemB; itemC].

(** Ten Shorts with distinct engagement rates. *)
Definition batch_of_ten : list VideoData :=
  [ example_video "v0" 1000 30 0 "PT15S";
    example_video "v1" 1000 70 0 "PT20S";
    example_video "v2" 1000 10 0 "PT25S";
    example_video "v3" 1000 90 0 "PT30S";
    example_video "v4" 1000 50 0 "PT35S";
    example_video "v5" 1000 20 0 "PT40S";
    example_video "v6" 1000 80 0 "PT45S";
    example_video "v7" 1000 40 0 "PT50S";
    example_video "v8" 1000 100 0 "PT55S";
    example_video "v9" 1000 60 0 "PT1M" ].

(** An item known by its identifier and score only. *)
Definition scored (id : string) (popularityScore : Q) : VideoData :=
  {| id := id; title := ""; thumbnail := "";
     viewCount := 0; likeCount := 0; commentCount := 0; duration := 0;
     popularityScore := popularityScore;
     publishedAt := None; description := None;
     channelId := None; channelTitle := None |}.

Definition five_scores : list VideoData :=
  [scored "a" 10; scored "b" 50; scored "c" 5; scored "d" 80; scored "e" 20].

(** A classified Short known by its identifier and view count only. *)
Definition viewed (id : string) (viewCount : Z) : ShortsData :=
  {| video :=
       {| id := id; title := ""; thumbnail := "";
          viewCount := viewCount; likeCount := 0; commentCount := 0;
          duration := 30; popularityScore := 0;
          publishedAt := None; description := None;
          channelId := None; channelTitle := None |};
     performance := AVERAGE; engagementRate := 0;
     retentionScore := None; hookEffectiveness := None |}.

(** Two items tie for the most views and two for the fewest. *)
Definition tied_views : list ShortsData :=
  [viewed "a" 5; viewed "b" 5; viewed "c" 1; viewed "d" 1].

(** ** Tier shares of a classified batch *)

(** The upper end of a tier, in percent of the batch. *)
Definition tier_limit (t : ShortsPerformance) : nat :=
  match t with
  | VIRAL => 10 | EXCELLENT => 30 | GOOD => 60 | AVERAGE => 80 | POOR => 100
  end.

(** The number of items of [l] with the tier [t] or a better one. *)
Definition count_at_least (t : ShortsPerformance) (l : list ShortsData)
  : nat :=
  List.length
    (filter (fun s => (tier_index (performance s) <=? tier_index t)%nat) l).

(** ** [handleSearch], the branch of the Shorts management *)

(** The batch is classified, an [Error] is thrown when no Short is found
    ([None]), and the classified batch is summarised. *)
Definition handleSearch_shortsManagement (videoDetails : list VideoData)
  (subscriberCount : option Z) : option (list ShortsData * ShortsSummary) :=
  let shortsData := analyzeShortsPerformance videoDetails subscriberCount in
  if (List.length shortsData =? 0)%nat then None
  else Some (shortsData, generateShortsSummary shortsData).

(** The recommendations that [generateShortsSummary] cannot push on a batch
    that [analyzeShortsPerformance] classified. *)
Definition excluded_after_classification (r : recommendation) : Prop :=
  match r with
  | NoShorts | LowViralRate | StablePerformance | HighPoorRate _ => True
  | _ => False
  end.

(** ** The list of the Shorts management view ([ShortsManagement])

    [filteredAndSortedShorts] is the value of a [useMemo]; its callback runs
    at the first render and again when [sortBy] or [filterBy] has changed.
    With the filter ['all'] ([None]) the callback sorts [shorts] itself:
    [filtered] is the array of the prop, [sort] reorders the array it is
    called on, and that array is the one the state of [App] holds and passes
    at every render.  A run therefore starts from the order the run before
    left, and the first run, with ['views'], already reorders the classified
    batch.  With a tier as filter, [filter] builds a new array and [shorts]
    stays as it is.

    [getTime] stands for [new Date(publishedAt || '').getTime()], [None]
    being [NaN]; [sort] reads a comparison that yields [NaN] as [+0].  With
    a missing date the comparison of ['date'] does not order the elements
    consistently, and the order is then the engine's choice among the
    permutations of the array; [js_sort] gives one of them.  The order
    ['performance'] is written [performance_order], [performance] being the
    field. *)
Inductive SortBy : Type := views | engagement | date | performance_order.

(** [perfOrder], the position of a tier in the order ['performance']. *)
Definition perfOrder (p : ShortsPerformance) : Z :=
  match p with
  | VIRAL => 0 | EXCELLENT => 1 | GOOD => 2 | AVERAGE => 3 | POOR => 4
  end.

(** The comparison function given to [sort], by the order chosen. *)
Definition compareShorts (getTime : option string -> option Q)
  (sortBy : SortBy) (a b : ShortsData) : Q :=
  match sortBy with
  | views => inject_Z (viewCount (video b) - viewCount (video a))
  | engagement => engagementRate b - engagementRate a
  | date =>
      match getTime (publishedAt (video b)),
            getTime (publishedAt (video a)) with
      | Some tb, Some ta => tb - ta
      | _, _ => 0
      end
  | performance_order =>
      inject_Z (perfOrder (performance a) - perfOrder (performance b))
  end.

(** One run of the callback, on the array [shorts] of the prop as the runs
    before left it: the list shown, and the content of the array of the prop
    after the run. *)
Definition filteredAndSortedShorts (getTime : option string -> option Q)
  (sortBy : SortBy) (filterBy : option ShortsPerformance)
  (shorts : list ShortsData) : list ShortsData * list ShortsData :=
  match filterBy with
  | None =>
      let sorted := js_sort (compareShorts getTime sortBy) shorts in
      (sorted, sorted)
  | Some t =>
      let filtered :=
        filter (fun s => ShortsPerformance_eqb (performance s) t) shorts in
      (js_sort (compareShorts getTime sortBy) filtered, shorts)
  end.

(** The view over its renders.  [useState] starts at ['views'] and ['all'];
    [selections] lists the later values of [sortBy] and [filterBy], one pair
    per change.  The result is the list shown after the last run and the
    content of the array of the prop. *)
Definition ShortsManagement (getTime : option string -> option Q)
  (selections : list (SortBy * option ShortsPerformance))
  (shorts : list ShortsData) : list ShortsData * list ShortsData :=
  fold_left
    (fun state selection =>
       filteredAndSortedShorts getTime (fst selection) (snd selection)
         (snd state))
    selections
    (filteredAndSortedShorts getTime views None shorts).

(** Two Shorts with the same engagement rate and different view counts. *)
Definition tied_rates : list VideoData :=
  [ example_video "a" 1000 100 0 "PT30S";
    example_video "b" 2000 200 0 "PT30S" ].

(** ** The search of the content discovery ([handleContentDiscoverySearch])

    The last step of the handler: each video gets the subscriber count of
    its channel and its ratio of views to subscribers, the videos under
    [minRatio] are dropped and the rest is sorted by ratio, greatest first.
    [channelInfoMap] is the map filled from the responses of the channels
    API; for a number [None] is [undefined] or [NaN]. *)
Record ContentDiscoveryVideo : Type := {
  discovered : VideoData;
  channelSubscriberCount : Z;
  subscriberViewRatio : Q
}.

(** The refactored service, [calculateSubscriberViewRatio]. *)
Definition calculateSubscriberViewRatio (viewCount subscriberCount : Z) : Q :=
  if (subscriberCount =? 0)%Z then 0
  else inject_Z viewCount / inject_Z subscriberCount.

(** [x || ''] on an optional text. *)
Definition or_empty (x : option string) : string :=
  match x with Some s => s | None => EmptyString end.

Definition discoveryVideos (channelInfoMap : string -> option Z)
  (minRatio : Q) (videoDetails : list VideoData)
  : list ContentDiscoveryVideo :=
  js_sort (fun a b => subscriberViewRatio b - subscriberViewRatio a)
    (filter (fun v => Qleb minRatio (subscriberViewRatio v))
       (map (fun video =>
               let subscriberCount :=
                 or_zero (channelInfoMap (or_empty (channelId video))) in
               let ratio :=
                 calculateSubscriberViewRatio (viewCount video)
                   subscriberCount in
               {| discovered := video;
                  channelSubscriberCount := subscriberCount;
                  subscriberViewRatio := ratio |})
          videoDetails)).

(** ** [handleSearch], the branch of the channel analysis

    [filterByVideoType(videoDetails, videoTypeFilter,
    VIDEO_DURATION_LIMITS.SHORTS_EXTENDED_MAX_SECONDS)], then the TOP or
    BOTTOM selection on what the filter kept. *)
Definition handleSearch_channel (videoTypeFilter : VideoTypeFilter)
  (channelView : ChannelAnalysisView) (videoDetails : list VideoData)
  : list VideoData :=
  let videoDetails :=
    filterByVideoType videoDetails videoTypeFilter
      SHORTS_EXTENDED_MAX_SECONDS in
  handleSearch_displayVideos channelView videoDetails.

(** ** Array utilities of the utilities module *)

Section ArrayUtilities.

Context {T : Type}.

(** [chunkArray], for a whole number [size]:
    [for (let i = 0; i < array.length; i += size)
    chunks.push(array.slice(i, i + size))].  The loop need not end: [fuel]
    bounds the number of tests of its condition, and [None] is a run that
    is still in the loop when the fuel is spent. *)
Fixpoint chunkArray_loop (fuel : nat) (array : list T) (size i : Z)
  (chunks : list (list T)) : option (list (list T)) :=
  match fuel with
  | O => None
  | S fuel' =>
      if (i <? Z.of_nat (List.length array))%Z
      then chunkArray_loop fuel' array size (i + size)%Z
             (chunks ++ [slice i (Some (i + size)%Z) array])
      else Some chunks
  end.

Definition chunkArray (fuel : nat) (array : list T) (size : Z)
  : option (list (list T)) :=
  chunkArray_loop fuel array size 0 [].

Context {K : Type}.

(** Equality of two key values, as [Set.prototype.has] decides it. *)
Variable K_eq_dec : forall a b : K, {a = b} + {a <> b}.

(** [uniqueBy]: the callback of [array.filter], run over the array with the
    set [seen] as it stands at each item. *)
Fixpoint uniqueBy_filter (key : T -> K) (seen : list K) (array : list T)
  : list T :=
  match array with
  | [] => []
  | item :: rest =>
      let value := key item in
      if in_dec K_eq_dec value seen
      then uniqueBy_filter key seen rest
      else item :: uniqueBy_filter key (value :: seen) rest
  end.

Definition uniqueBy (array : list T) (key : T -> K) : list T :=
  uniqueBy_filter key [] array.

End ArrayUtilities.

(** [isValidApiKey]:
    [Boolean(apiKey && apiKey.trim().length > 0 && apiKey.startsWith('AIza'))];
    the empty string is falsy, and a trimmed string has a positive length
    when some character of it is not white space. *)
Definition isValidApiKey (apiKey : string) : bool :=
  negb (String.eqb apiKey "") && negb (is_blank apiKey)
  && String.prefix "AIza" apiKey.

(** ** [findRisingStarChannels]

    The two versions of the service have the same body but for the way the
    channel identifiers are cut in batches.  The responses of the API are
    inputs: the items of the search response, and for each batch of
    identifiers the items of the channels response, [None] when the
    response is not [ok]. *)
Module RisingStar.

(** What the code reads of an item of the search response:
    [item.snippet.channelId], [item.snippet.thumbnails.default.url] and
    [item.snippet.channelTitle]. *)
Record SearchItem : Type := {
  snippet_channelId : string;
  snippet_thumbnail : string;
  snippet_channelTitle : string
}.

(** A value of [channelMap]. *)
Record ChannelData : Type := {
  data_channelId : string;
  data_videoCount : Z;
  data_thumbnail : string;
  data_title : string
}.

(** [channel.statistics]; its counters are texts, and may be missing. *)
Record ChannelStatistics : Type := {
  statistics_subscriberCount : option string;
  statistics_videoCount : option string;
  statistics_viewCount : option string
}.

(** What the code reads of an item of the channels response:
    [channel.id], [channel.statistics] and [channel.snippet?.publishedAt]. *)
Record ChannelResource : Type := {
  resource_id : string;
  statistics : option ChannelStatistics;
  snippet_publishedAt : option string
}.

(** [types.ts], [ChannelInfo]; for a number [None] is [undefined] or
    [NaN]. *)
Record ChannelInfo : Type := {
  id : string;
  title : string;
  thumbnail : string;
  subscriberCount : option Z;
  totalViewCount : option Z;
  videoCount : option Z;
  publishedAt : option string
}.

Definition MIN_SUBSCRIBERS : Z := 1000.
Definition MAX_SUBSCRIBERS : Z := 100000.
Definition MIN_VIDEO_COUNT : Z := 5.
Definition BATCH_SIZE : Z := 50.
Definition DEFAULT_MAX_RESULTS : Z := 10.

(** A [Map] with text keys, in insertion order. *)
Definition ChannelMap : Type := list (string * ChannelData).

Fixpoint Map_get (channelMap : ChannelMap) (key : string)
  : option ChannelData :=
  match channelMap with
  | [] => None
  | (k, v) :: rest => if String.eqb k key then Some v else Map_get rest key
  end.

(** [existing.videoCount += 1] on the value held under [key]. *)
Fixpoint Map_increment (channelMap : ChannelMap) (key : string) : ChannelMap :=
  match channelMap with
  | [] => []
  | (k, v) :: rest =>
      if String.eqb k key
      then (k, {| data_channelId := data_channelId v;
                  data_videoCount := (data_videoCount v + 1)%Z;
                  data_thumbnail := data_thumbnail v;
                  data_title := data_title v |}) :: rest
      else (k, v) :: Map_increment rest key
  end.

(** The loop over [data.items] that fills [channelMap]. *)
Definition collectChannels (items : list SearchItem) : ChannelMap :=
  fold_left
    (fun channelMap item =>
       let channelId := snippet_channelId item in
       match Map_get channelMap channelId with
       | Some _ => Map_increment channelMap channelId
       | None =>
           (channelMap
            ++ [(channelId,
                 {| data_channelId := channelId;
                    data_videoCount := 1;
                    data_thumbnail := snippet_thumbnail item;
                    data_title := snippet_channelTitle item |})])%list
       end)
    items [].

(** White space in front of the digits is skipped by [parseInt]. *)
Fixpoint skip_space (s : string) : string :=
  match s with
  | String c r => if is_space c then skip_space r else s
  | EmptyString => s
  end.

(** [parseInt(counter || '0', 10)], [counter] being
    [channel.statistics?.<name>]. *)
Definition parseCounter (channel : ChannelResource)
  (name : ChannelStatistics -> option string) : option Z :=
  let counter :=
    match statistics channel with
    | Some st => name st
    | None => None
    end in
  parseInt (skip_space (or_zero_string counter)).

(** Comparisons of a number that may be [NaN] with a constant. *)
Definition number_ge (x : option Z) (n : Z) : bool :=
  match x with Some v => (v >=? n)%Z | None => false end.

Definition number_lt (x : option Z) (n : Z) : bool :=
  match x with Some v => (v <? n)%Z | None => false end.

(** The body of the loop over [statsData.items]: what one channel adds to
    [channelsInfo].  The first version writes the numbers of the criteria in
    place, the refactored one names them. *)
Definition pushChannel (channelMap : ChannelMap) (channel : ChannelResource)
  : list ChannelInfo :=
  match Map_get channelMap (resource_id channel) with
  | Some channelData =>
      let subscriberCount := parseCounter channel statistics_subscriberCount in
      let videoCount := parseCounter channel statistics_videoCount in
      let totalViewCount := parseCounter channel statistics_viewCount in
      if number_ge subscriberCount MIN_SUBSCRIBERS
         && number_lt subscriberCount MAX_SUBSCRIBERS
         && number_ge videoCount MIN_VIDEO_COUNT
      then [{| id := resource_id channel;
               title := data_title channelData;
               thumbnail := data_thumbnail channelData;
               subscriberCount := subscriberCount;
               totalViewCount := totalViewCount;
               videoCount := videoCount;
               publishedAt := snippet_publishedAt channel |}]
      else []
  | None => []
  end.

(** What one batch adds: nothing when the response is not [ok]. *)
Definition processBatch (channelMap : ChannelMap)
  (statsResponse : option (list ChannelResource)) : list ChannelInfo :=
  match statsResponse with
  | Some items => flat_map (pushChannel channelMap) items
  | None => []
  end.

(** [x || d] on a number: [undefined], [NaN] and [0] are falsy. *)
Definition number_or (x : option Z) (d : Z) : Z :=
  match x with
  | Some v => if (v =? 0)%Z then d else v
  | None => d
  end.

(** [(a.videoCount || 0) / Math.max(a.subscriberCount || 1, 1)]. *)
Definition risingScore (a : ChannelInfo) : Q :=
  inject_Z (number_or (videoCount a) 0)
  / inject_Z (Z.max (number_or (subscriberCount a) 1) 1).

(** The comparator of the final sort, [scoreB - scoreA]. *)
Definition compareRising (a b : ChannelInfo) : Q :=
  risingScore b - risingScore a.

(** [services/youtubeService.ts]:
    [for (let i = 0; i < channelIds.length; i += 50)] with
    [batch = channelIds.slice(i, i + 50)]; [fuel] bounds the number of tests
    of the condition. *)
Fixpoint statsLoop (fuel : nat)
  (fetchChannels : list string -> option (list ChannelResource))
  (channelMap : ChannelMap) (channelIds : list string) (i : Z)
  (channelsInfo : list ChannelInfo) : option (list ChannelInfo) :=
  match fuel with
  | O => None
  | S fuel' =>
      if (i <? Z.of_nat (List.length channelIds))%Z
      then
        let batch := slice i (Some (i + 50)%Z) channelIds in
        statsLoop fuel' fetchChannels channelMap channelIds (i + 50)%Z
          (channelsInfo ++ processBatch channelMap (fetchChannels batch))
      else Some channelsInfo
  end.

Definition findRisingStarChannels (fuel : nat)
  (fetchChannels : list string -> option (list ChannelResource))
  (items : list SearchItem) : option (list ChannelInfo) :=
  let channelMap := collectChannels items in
  let channelIds := map fst channelMap in
  match statsLoop fuel fetchChannels channelMap channelIds 0 [] with
  | Some channelsInfo =>
      Some (slice 0 (Some 10%Z) (js_sort compareRising channelsInfo))
  | None => None
  end.

(** The refactored service: [chunkArray(channelIds, BATCH_SIZE)], then
    [for (const batch of batches)]. *)
Definition findRisingStarChannels_batched (fuel : nat)
  (fetchChannels : list string -> option (list ChannelResource))
  (items : list SearchItem) : option (list ChannelInfo) :=
  let channelMap := collectChannels items in
  let channelIds := map fst channelMap in
  match chunkArray fuel channelIds BATCH_SIZE with
  | Some batches =>
      let channelsInfo :=
        fold_left
          (fun channelsInfo batch =>
             (channelsInfo
              ++ processBatch channelMap (fetchChannels batch))%list)
          batches [] in
      Some (slice 0 (Some DEFAULT_MAX_RESULTS)
              (js_sort compareRising channelsInfo))
  | None => None
  end.

(** The ratio of the videos to the subscribers of a channel that has
    both. *)
Definition videosPerSubscriber (c : ChannelInfo) : Q :=
  match videoCount c, subscriberCount c with
  | Some v, Some s => inject_Z v / inject_Z s
  | _, _ => 0
  end.

(** The criteria of a rising star, and where its title and thumbnail come
    from: the first search item of its channel. *)
Definition risingStar (items : list SearchItem) (c : ChannelInfo) : Prop :=
  exists s v item,
    subscriberCount c = Some s /\ (1000 <= s < 100000)%Z
    /\ videoCount c = Some v /\ (5 <= v)%Z
    /\ find (fun it => String.eqb (snippet_channelId it) (id c)) items
       = Some item
    /\ title c = snippet_channelTitle item
    /\ thumbnail c = snippet_thumbnail item.

(** What [channelMap] holds after the items [processed]: under each channel
    identifier the title and the thumbnail of the first item of that
    channel, and nothing under an identifier that no item has. *)
Definition collected (channelMap : ChannelMap) (processed : list SearchItem)
  : Prop :=
  (List.length channelMap <= List.length processed)%nat
  /\ forall k,
       match Map_get channelMap k with
       | Some d =>
           exists item,
             find (fun it => String.eqb (snippet_channelId it) k) processed
             = Some item
             /\ data_title d = snippet_channelTitle item
             /\ data_thumbnail d = snippet_thumbnail item
       | None =>
           find (fun it => String.eqb (snippet_channelId it) k) processed
           = None
       end.

(** Three search items of two channels, and a response that knows both
    channels, the second with too many subscribers. *)
Definition example_items : list SearchItem :=
  [ {| snippet_channelId := "UC1"; snippet_thumbnail := "t1";
       snippet_channelTitle := "one" |};
    {| snippet_channelId := "UC2"; snippet_thumbnail := "t2";
       snippet_channelTitle := "two" |};
    {| snippet_channelId := "UC1"; snippet_thumbnail := "t3";
       snippet_channelTitle := "one again" |} ].

Definition example_response (batch : list string)
  : option (list ChannelResource) :=
  Some
    [ {| resource_id := "UC1";
         statistics :=
           Some {| statistics_subscriberCount := Some "5000";
                   statistics_videoCount := Some "40";
                   statistics_viewCount := Some "100000" |};
         snippet_publishedAt := None |};
      {| resource_id := "UC2";
         statistics :=
           Some {| statistics_subscriberCount := Some "200000";
                   statistics_videoCount := Some "300";
                   statistics_viewCount := None |};
         snippet_publishedAt := None |} ].

End RisingStar.

(** ** CSV utilities of the utilities module *)

Definition quote : ascii := ascii_of_nat 34.
Definition comma : ascii := ",".
Definition newline : ascii := ascii_of_nat 10.

(** [strValue.includes(c)] for a text [c] of one character. *)
Fixpoint includes (c : ascii) (strValue : string) : bool :=
  match strValue with
  | EmptyString => false
  | String d r => Ascii.eqb d c || includes c r
  end.

(** [strValue.replace] with the global pattern of one double quote and the
    replacement of two: every double quote is doubled. *)
Fixpoint double_quotes (strValue : string) : string :=
  match strValue with
  | EmptyString => EmptyString
  | String c r =>
      if Ascii.eqb c quote
      then String quote (String quote (double_quotes r))
      else String c (double_quotes r)
  end.

(** [escapeCsvValue], on the text [String(value)]. *)
Definition escapeCsvValue (strValue : string) : string :=
  if includes comma strValue || includes quote strValue
     || includes newline strValue
  then String quote (double_quotes strValue ++ String quote EmptyString)
  else strValue.

(** [convertToCSV]; a row gives the text of the value it holds under a
    header, [None] when that value is [null] or [undefined]
    ([row[h] ?? '']).  [Array.prototype.join] is [String.concat]. *)
Definition convertToCSV (data : list (string -> option string))
  (headers : list string) : string :=
  let headerRow := String.concat (String comma EmptyString) headers in
  let dataRows :=
    map (fun row =>
           String.concat (String comma EmptyString)
             (map (fun h =>
                     escapeCsvValue
                       (match row h with Some v => v | None => EmptyString end))
                headers))
      data in
  String.concat (String newline EmptyString) (headerRow :: dataRows).

(** A reader of CSV text: fields are separated by commas and records by
    line feeds; a field that starts with a quote runs to the next quote
    that is not doubled, and a doubled quote in it stands for one quote.
    The end of the text ends the last record. *)
Inductive csv_state : Type := AtStart | InPlain | InQuoted | AfterQuote.

Fixpoint read_csv_from (st : csv_state) (field : string) (row : list string)
  (rows : list (list string)) (text : string) : list (list string) :=
  match text with
  | EmptyString => (rows ++ [(row ++ [field])%list])%list
  | String c r =>
      match st with
      | InQuoted =>
          if Ascii.eqb c quote
          then read_csv_from AfterQuote field row rows r
          else read_csv_from InQuoted (field ++ String c EmptyString) row rows r
      | _ =>
          if Ascii.eqb c comma
          then read_csv_from AtStart EmptyString (row ++ [field])%list rows r
          else if Ascii.eqb c newline
          then read_csv_from AtStart EmptyString []
                 (rows ++ [(row ++ [field])%list])%list r
          else if Ascii.eqb c quote
          then
            match st with
            | InPlain =>
                read_csv_from InPlain (field ++ String c EmptyString) row rows r
            | _ =>
                read_csv_from InQuoted
                  (match st with
                   | AfterQuote => field ++ String c EmptyString
                   | _ => field
                   end) row rows r
            end
          else read_csv_from InPlain (field ++ String c EmptyString) row rows r
      end
  end.

Definition read_csv (text : string) : list (list string) :=
  read_csv_from AtStart EmptyString [] [] text.

(** A text without comma, quote and line feed. *)
Definition plain (s : string) : bool :=
  negb (includes comma s || includes quote s || includes newline s).

(** The table that [convertToCSV] writes: the headers, then for each row
    the texts under the headers. *)
Definition csv_table (data : list (string -> option string))
  (headers : list string) : list (list string) :=
  headers
  :: map (fun row =>
            map (fun h =>
                   match row h with Some v => v | None => EmptyString end)
              headers)
       data.
(** The text that may follow a field: nothing, a comma or a line feed. *)
Definition after_field (rest : string) : Prop :=
  match rest with
  | EmptyString => True
  | String c _ => c = comma \/ c = newline
  end.

(** The text of one record. *)
Definition csv_line (values : list string) : string :=
  String.concat (String comma EmptyString) (map escapeCsvValue values).

(** What follows a record: nothing or a line feed. *)
Definition after_line (rest : string) : Prop :=
  match rest with
  | EmptyString => True
  | String c _ => c = newline
  end.

(** A table of one row whose values hold a comma and quotes. *)
Definition example_headers : list string := ["name"; "note"].

Definition example_row (h : string) : option string :=
  if String.eqb h "name" then Some "A,B"
  else if String.eqb h "note"
       then Some ("say " ++ String quote ("hi" ++ String quote EmptyString))
       else None.

(** ** [formatDuration] *)

(** [String(n)] for an integer [n]. *)
Definition String_of_integer (n : Z) : string :=
  if (n <? 0)%Z then "-" ++ decimal (Z.to_N (- n)) else decimal (Z.to_N n).

Fixpoint repeat_char (c : ascii) (n : nat) : string :=
  match n with
  | O => EmptyString
  | S n' => String c (repeat_char c n')
  end.

(** [s.padStart(targetLength, c)] for a filler [c] of one character. *)
Definition padStart (targetLength : nat) (c : ascii) (s : string) : string :=
  repeat_char c (targetLength - String.length s) ++ s.

(** The utilities module, [formatDuration], on a whole number of seconds:
    [Math.floor] of a quotient by a positive number is [Z.div], and [%] is
    the remainder with the sign of the dividend, [Z.rem]. *)
Definition formatDuration (seconds : Z) : string :=
  let hours := (seconds / 3600)%Z in
  let minutes := (Z.rem seconds 3600 / 60)%Z in
  let secs := Z.rem seconds 60 in
  if (hours >? 0)%Z
  then String_of_integer hours ++ ":"
       ++ padStart 2 "0" (String_of_integer minutes) ++ ":"
       ++ padStart 2 "0" (String_of_integer secs)
  else String_of_integer minutes ++ ":"
       ++ padStart 2 "0" (String_of_integer secs).

(** The seconds that a clock text stands for: its fields between colons
    are numbers, each worth 60 of the next. *)
Fixpoint read_clock (total field : Z) (s : string) : Z :=
  match s with
  | EmptyString => (total * 60 + field)%Z
  | String c r =>
      if Ascii.eqb c ":"
      then read_clock (total * 60 + field)%Z 0 r
      else read_clock total (field * 10 + digit_value c)%Z r
  end.

Definition clock_seconds (s : string) : Z := read_clock 0 0 s.

(** ** [parseVideoUrl] and the patterns [VIDEO_ID] and [SHORTS_ID] *)

(** The class [[a-zA-Z0-9_-]]. *)
Definition is_id_char (c : ascii) : bool :=
  let n := nat_of_ascii c in
  ((97 <=? n)%nat && (n <=? 122)%nat)
  || ((65 <=? n)%nat && (n <=? 90)%nat)
  || is_digit c || (n =? 95)%nat || (n =? 45)%nat.

Fixpoint all_id_chars (s : string) : bool :=
  match s with
  | EmptyString => true
  | String c r => is_id_char c && all_id_chars r
  end.

(** The capture [([a-zA-Z0-9_-]{n})] at the front of [s]. *)
Fixpoint take_id (n : nat) (s : string) : option string :=
  match n with
  | O => Some EmptyString
  | S n' =>
      match s with
      | String c r =>
          if is_id_char c then option_map (String c) (take_id n' r) else None
      | EmptyString => None
      end
  end.

(** What follows the literal [lit] at the front of [s]. *)
Fixpoint strip_prefix (lit s : string) : option string :=
  match lit with
  | EmptyString => Some s
  | String a lit' =>
      match s with
      | String b s' => if Ascii.eqb a b then strip_prefix lit' s' else None
      | EmptyString => None
      end
  end.

(** The literal [lit] and then a capture of 11 characters, at the front of
    [s]. *)
Definition id_after (lit s : string) : option string :=
  match strip_prefix lit s with
  | Some r => take_id 11 r
  | None => None
  end.

(** [String.prototype.match] without the [g] flag: the pattern is tried at
    each position from the left, and the first match is returned. *)
Fixpoint first_match (at_front : string -> option string) (s : string)
  : option string :=
  match at_front s with
  | Some m => Some m
  | None =>
      match s with
      | String _ r => first_match at_front r
      | EmptyString => None
      end
  end.

(** [VIDEO_ID] at the front of [s]: the alternatives in their order. *)
Definition VIDEO_ID (s : string) : option string :=
  match id_after "youtube.com/watch?v=" s with
  | Some m => Some m
  | None => id_after "youtu.be/" s
  end.

(** [SHORTS_ID] at the front of [s]. *)
Definition SHORTS_ID (s : string) : option string := id_after "/shorts/" s.

(** The utilities module, [parseVideoUrl]; [None] is [null]. *)
Definition parseVideoUrl (url : string) : option string :=
  match first_match VIDEO_ID url with
  | Some videoMatch => Some videoMatch
  | None =>
      match first_match SHORTS_ID url with
      | Some shortsMatch => Some shortsMatch
      | None => None
      end
  end.

(** A video identifier: 11 characters of the class. *)
Definition video_id (s : string) : Prop :=
  String.length s = 11%nat /\ all_id_chars s = true.

(** ** Binary64 evaluation of the rates

    The same expressions on primitive floats, for the concrete inputs of the
    examples. *)
Module Binary64.

#[local] Set Warnings "-inexact-float".

Definition score (viewCount likeCount commentCount : float) : float :=
  if (0 <? viewCount)%float
  then ((likeCount * 0.6 + commentCount * 0.4) / viewCount * 1000)%float
  else 0%float.

Definition engagementRate (viewCount likeCount commentCount : float) : float :=
  if (0 <? viewCount)%float
  then ((likeCount + commentCount) / viewCount)%float
  else 0%float.

Definition percentile (rank length : float) : float :=
  (rank / length * 100)%float.

End Binary64.

(** * Properties *)

Local Close Scope string_scope.

(** ** Numbers *)

Lemma Qltb_lt (a b : Q) : Qltb a b = true <-> a < b.
Proof.
  unfold Qltb. rewrite Qlt_alt. destruct (a ?= b); split; congruence.
Qed.

Lemma Qltb_ge (a b : Q) : Qltb a b = false <-> b <= a.
Proof.
  split; intro H.
  - apply Qnot_lt_le. intro L. apply Qltb_lt in L. congruence.
  - destruct (Qltb a b) eqn:E; [|reflexivity].
    apply Qltb_lt in E. exfalso. apply (Qlt_not_le _ _ E H).
Qed.

Lemma Qfloor_half_near (y : Q) :
  - (1 # 2) <= inject_Z (Qfloor (y + (1 # 2))) - y <= 1 # 2.
Proof.
  pose proof (Qfloor_le (y + (1 # 2))) as Hlo.
  pose proof (Qlt_floor (y + (1 # 2))) as Hhi.
  rewrite inject_Z_plus in Hhi. change (inject_Z 1) with 1 in Hhi.
  split; lra.
Qed.

Lemma hundredths (n : Z) : n # 100 == inject_Z n * (1 # 100).
Proof. unfold Qeq, Qmult, inject_Z. simpl. lia. Qed.

Lemma toFixed2_rounds (x : Q) : rounded_to_2_places x (toFixed2 x).
Proof.
  unfold rounded_to_2_places, toFixed2.
  destruct (Qleb 0 x) eqn:E.
  - split; [eexists; reflexivity|].
    rewrite hundredths. apply Qabs_Qle_condition.
    pose proof (Qfloor_half_near (x * 100)) as H.
    split; lra.
  - split; [eexists; reflexivity|].
    rewrite hundredths, inject_Z_opp. apply Qabs_Qle_condition.
    pose proof (Qfloor_half_near (- x * 100)) as H.
    split; lra.
Qed.

(** ** Popularity score *)

Lemma score_with_views (viewCount likeCount commentCount : Z) :
  (0 < viewCount)%Z ->
  score viewCount likeCount commentCount
  = weighted_ratio_scaled viewCount likeCount commentCount.
Proof.
  intro H. unfold score, weighted_ratio_scaled.
  rewrite Z.gtb_ltb. apply Z.ltb_lt in H. now rewrite H.
Qed.

(** Without views, and also for a negative [viewCount], the stored score is
    zero. *)
Lemma scoreField_nonpositive_views (viewCount likeCount commentCount : Z) :
  (viewCount <= 0)%Z -> scoreField viewCount likeCount commentCount == 0.
Proof.
  intro H. unfold scoreField, score. rewrite Z.gtb_ltb.
  destruct (0 <? viewCount)%Z eqn:E; [apply Z.ltb_lt in E; lia|].
  reflexivity.
Qed.

(** The two versions of the formula agree on every non-negative view count;
    they differ on a negative one, where the guard [viewCount > 0] gives
    zero and the guard [viewCount === 0] lets the quotient through. *)
Lemma calculatePopularityScore_agrees (viewCount likeCount commentCount : Z) :
  (0 <= viewCount)%Z ->
  calculatePopularityScore viewCount likeCount commentCount
  = score viewCount likeCount commentCount.
Proof.
  intro H. unfold calculatePopularityScore, score.
  rewrite Z.gtb_ltb.
  destruct (viewCount =? 0)%Z eqn:E0.
  - apply Z.eqb_eq in E0. subst. reflexivity.
  - apply Z.eqb_neq in E0.
    assert (L : (0 <? viewCount)%Z = true) by (apply Z.ltb_lt; lia).
    rewrite L. reflexivity.
Qed.

(** C1: the score of an item is 0 when [viewCount] is 0, whatever the likes
    and comments, and otherwise it is
    [((likeCount * 0.6 + commentCount * 0.4) / viewCount) * 1000] rounded to
    two decimal places; the formula of the constants module computes the
    same number.  View counts are non-negative, as the data model has
    them. *)
Theorem scoreField_spec (viewCount likeCount commentCount : Z) :
  (0 <= viewCount)%Z ->
  (viewCount = 0%Z -> scoreField viewCount likeCount commentCount == 0)
  /\ (viewCount <> 0%Z ->
      rounded_to_2_places
        (weighted_ratio_scaled viewCount likeCount commentCount)
        (scoreField viewCount likeCount commentCount))
  /\ toFixed2 (calculatePopularityScore viewCount likeCount commentCount)
     = scoreField viewCount likeCount commentCount.
Proof.
  intro Hv. split; [|split].
  - intros ->. now apply scoreField_nonpositive_views.
  - intro Hne. unfold scoreField.
    rewrite score_with_views by lia.
    apply toFixed2_rounds.
  - unfold scoreField. now rewrite calculatePopularityScore_agrees.
Qed.

Lemma scoreField_spec_witness :
  (0 <= 1000)%Z
  /\ ((1000%Z = 0%Z -> scoreField 1000 100 50 == 0)
      /\ (1000%Z <> 0%Z ->
          rounded_to_2_places (weighted_ratio_scaled 1000 100 50)
            (scoreField 1000 100 50))
      /\ toFixed2 (calculatePopularityScore 1000 100 50)
         = scoreField 1000 100 50).
Proof.
  split; [lia | apply (scoreField_spec 1000 100 50); lia].
Defined.

(** With the literal [2] the call of [toFixed] is inside its range and
    returns the rounding to two places. *)
Lemma toFixed_2 (x : Q) : toFixed x 2 = Normal (toFixed2 x).
Proof. reflexivity. Qed.

(** [toFixed] throws exactly when the number of digits is outside its
    range. *)
Lemma toFixed_range (x : Q) (fractionDigits : Z) :
  toFixed x fractionDigits = Throw RangeError
  <-> (fractionDigits < 0 \/ 100 < fractionDigits)%Z.
Proof.
  unfold toFixed.
  destruct (Z.ltb_spec fractionDigits 0) as [L|L],
    (Z.ltb_spec 100 fractionDigits) as [U|U];
    cbn [orb]; split; intro H; try reflexivity; try discriminate H;
    try lia; auto.
Qed.

Lemma computePopularityScore_returns (viewCount likeCount commentCount : Z) :
  computePopularityScore viewCount likeCount commentCount
  = Normal (scoreField viewCount likeCount commentCount).
Proof. unfold computePopularityScore, scoreField. apply toFixed_2. Qed.

Lemma computePopularityScore_refactored_returns
  (viewCount likeCount commentCount : Z) :
  computePopularityScore_refactored viewCount likeCount commentCount
  = Normal (toFixed2
              (calculatePopularityScore viewCount likeCount commentCount)).
Proof. unfold computePopularityScore_refactored. apply toFixed_2. Qed.

(** On a negative [viewCount] the two versions return different numbers:
    the guard [viewCount > 0] gives zero, the guard [viewCount === 0] lets
    the quotient through. *)
Lemma computePopularityScore_negative_views :
  computePopularityScore (-1000) 100 50
  = Normal (scoreField (-1000) 100 50)
  /\ scoreField (-1000) 100 50 == 0
  /\ computePopularityScore_refactored (-1000) 100 50
     = Normal (toFixed2 (calculatePopularityScore (-1000) 100 50))
  /\ toFixed2 (calculatePopularityScore (-1000) 100 50) == - (80).
Proof. repeat split. Qed.

(** C4, as the code has it: the scoring step never fails with
    [InvalidInput].  For all integer counters, negative ones included, the
    step returns a number, in both versions of the service.  With a positive
    [viewCount] that number is the weighted ratio of the counters as given,
    scaled and rounded to two decimal places, the same in both versions: a
    negative [likeCount] or [commentCount] is neither rejected nor
    corrected. *)
Theorem computePopularityScore_total (viewCount likeCount commentCount : Z) :
  exists q q' : Q,
    computePopularityScore viewCount likeCount commentCount = Normal q
    /\ computePopularityScore_refactored viewCount likeCount commentCount
       = Normal q'
    /\ computePopularityScore viewCount likeCount commentCount
       <> Throw InvalidInput
    /\ computePopularityScore_refactored viewCount likeCount commentCount
       <> Throw InvalidInput
    /\ ((0 < viewCount)%Z ->
        q' = q
        /\ rounded_to_2_places
             (weighted_ratio_scaled viewCount likeCount commentCount) q).
Proof.
  exists (scoreField viewCount likeCount commentCount),
    (toFixed2 (calculatePopularityScore viewCount likeCount commentCount)).
  rewrite computePopularityScore_returns,
    computePopularityScore_refactored_returns.
  split; [reflexivity|]. split; [reflexivity|].
  split; [discriminate|]. split; [discriminate|].
  intro H. split.
  - rewrite calculatePopularityScore_agrees by lia. reflexivity.
  - unfold scoreField. rewrite score_with_views by exact H.
    apply toFixed2_rounds.
Qed.

(** C4 fails as stated: with a negative [likeCount] the step does not fail,
    it returns [-60], in both versions. *)
Lemma computePopularityScore_negative_input :
  (1000 < 0 \/ -100 < 0 \/ 0 < 0)%Z
  /\ computePopularityScore 1000 (-100) 0
     = Normal (scoreField 1000 (-100) 0)
  /\ scoreField 1000 (-100) 0 == - (60)
  /\ computePopularityScore 1000 (-100) 0 <> Throw InvalidInput
  /\ computePopularityScore_refactored 1000 (-100) 0
     = Normal (toFixed2 (calculatePopularityScore 1000 (-100) 0))
  /\ toFixed2 (calculatePopularityScore 1000 (-100) 0) == - (60)
  /\ computePopularityScore_refactored 1000 (-100) 0 <> Throw InvalidInput.
Proof.
  split; [lia|]. split; [reflexivity|]. split; [reflexivity|].
  split; [discriminate|]. split; [reflexivity|].
  split; [reflexivity|discriminate].
Qed.


(** ** Arrays: positions *)

Section Positions.

Context {A : Type}.

Lemma find_pos_none (p : A -> bool) (l : list A) :
  find_pos p l = None <-> forall x, In x l -> p x = false.
Proof.
  induction l as [|a l IH]; simpl.
  - split; [intros _ x []|reflexivity].
  - destruct (p a) eqn:E.
    + split; [discriminate|]. intro H. rewrite (H a) in E by now left.
      discriminate.
    + destruct (find_pos p l) eqn:F; simpl.
      * split; [discriminate|]. intro H.
        assert (N : Some n = None)
          by (apply IH; intros x Hx; apply H; now right).
        discriminate N.
      * split; [|reflexivity]. intros _ x [<-|Hx]; [exact E|].
        now apply (proj1 IH).
Qed.

Lemma find_pos_some (p : A -> bool) (l : list A) (x : A) :
  In x l -> p x = true -> exists n, find_pos p l = Some n.
Proof.
  intros Hin Hp. destruct (find_pos p l) eqn:F; [eauto|].
  rewrite find_pos_none in F. rewrite (F x Hin) in Hp. discriminate.
Qed.

Lemma find_pos_app (p : A -> bool) (l1 l2 : list A) :
  find_pos p (l1 ++ l2)
  = match find_pos p l1 with
    | Some n => Some n
    | None => option_map (fun n => (List.length l1 + n)%nat) (find_pos p l2)
    end.
Proof.
  induction l1 as [|a l1 IH]; simpl.
  - destruct (find_pos p l2); reflexivity.
  - destruct (p a); [reflexivity|]. rewrite IH.
    destruct (find_pos p l1); simpl; [reflexivity|].
    destruct (find_pos p l2); reflexivity.
Qed.

Lemma filter_length_perm (f : A -> bool) (l l' : list A) :
  Permutation l l' ->
  List.length (filter f l) = List.length (filter f l').
Proof.
  induction 1; simpl.
  - reflexivity.
  - destruct (f x); simpl; congruence.
  - destruct (f x), (f y); reflexivity.
  - congruence.
Qed.

Lemma NoDup_map_injective {B : Type} (g : A -> B) (l : list A) (x y : A) :
  NoDup (map g l) -> In x l -> In y l -> g x = g y -> x = y.
Proof.
  induction l as [|a l IH]; simpl; [intros _ []|].
  intros N Hx Hy E. inversion N as [|? ? Hnot N']; subst.
  destruct Hx as [<-|Hx], Hy as [<-|Hy].
  - reflexivity.
  - exfalso. apply Hnot. rewrite E. now apply in_map.
  - exfalso. apply Hnot. rewrite <- E. now apply in_map.
  - now apply IH.
Qed.

End Positions.

(** ** Stable sorting by a key *)

Section StableSort.

Context {A : Type}.
Variable cmp : A -> A -> Q.
Variable key : A -> Q.

(** The comparator orders by [key], greater keys first. *)
Hypothesis cmp_key : forall a b, 0 < cmp a b <-> key a < key b.

Lemma cmp_test (x y : A) : Qltb 0 (cmp x y) = Qltb (key x) (key y).
Proof.
  destruct (Qltb (key x) (key y)) eqn:E.
  - apply Qltb_lt, cmp_key. now apply Qltb_lt.
  - destruct (Qltb 0 (cmp x y)) eqn:F; [|reflexivity].
    apply Qltb_lt, cmp_key, Qltb_lt in F. congruence.
Qed.

Lemma insert_perm (x : A) (l : list A) : Permutation (insert cmp x l) (x :: l).
Proof.
  induction l as [|y l IH]; simpl; [reflexivity|].
  destruct (Qltb 0 (cmp x y)); [|reflexivity].
  rewrite IH. apply perm_swap.
Qed.

Lemma js_sort_perm (l : list A) : Permutation (js_sort cmp l) l.
Proof.
  induction l as [|x l IH]; simpl; [reflexivity|].
  rewrite insert_perm. now apply perm_skip.
Qed.

Lemma js_sort_length (l : list A) :
  List.length (js_sort cmp l) = List.length l.
Proof. apply Permutation_length, js_sort_perm. Qed.

Lemma insert_descending (x : A) (l : list A) :
  descending key l -> descending key (insert cmp x l).
Proof.
  unfold descending. induction l as [|y l IH]; simpl; intro H.
  - constructor; constructor.
  - inversion H as [|? ? Hl Hy]; subst. rewrite cmp_test.
    destruct (Qltb (key x) (key y)) eqn:E.
    + constructor; [now apply IH|].
      apply (Permutation_Forall (Permutation_sym (insert_perm x l))).
      constructor; [|exact Hy]. apply Qltb_lt in E. now apply Qlt_le_weak.
    + apply Qltb_ge in E. constructor; [exact H|].
      constructor; [exact E|].
      eapply Forall_impl; [|exact Hy]. intros b Hb. simpl in Hb.
      now apply Qle_trans with (key y).
Qed.

Lemma js_sort_descending (l : list A) : descending key (js_sort cmp l).
Proof.
  induction l as [|x l IH]; simpl; [constructor|].
  now apply insert_descending.
Qed.

(** In a sorted list the items that outrank [x] form a prefix, and [x] is
    inserted right after it. *)
Lemma descending_split (x : A) (l : list A) :
  descending key l ->
  l = filter (fun y => Qltb (key x) (key y)) l
      ++ filter (fun y => negb (Qltb (key x) (key y))) l.
Proof.
  unfold descending. induction l as [|y l IH]; simpl; intro H; [reflexivity|].
  inversion H as [|? ? Hl Hy]; subst.
  destruct (Qltb (key x) (key y)) eqn:E; simpl.
  - f_equal. now apply IH.
  - apply Qltb_ge in E.
    assert (F : forall P, (forall b, key b <= key x -> P b = false) ->
                          filter P l = []).
    { intros P HP. clear IH H Hl. induction l as [|b l IHl]; [reflexivity|].
      inversion Hy; subst. simpl. rewrite HP, IHl; auto.
      now apply Qle_trans with (key y). }
    rewrite (F (fun y => Qltb (key x) (key y)))
      by (intros; now apply Qltb_ge).
    simpl. f_equal.
    clear IH H Hl F. induction l as [|b l IHl]; [reflexivity|].
    inversion Hy; subst. simpl.
    assert (G : Qltb (key x) (key b) = false)
      by (apply Qltb_ge; now apply Qle_trans with (key y)).
    rewrite G. simpl. f_equal. now apply IHl.
Qed.

Lemma insert_split (x : A) (l : list A) :
  descending key l ->
  insert cmp x l
  = filter (fun y => Qltb (key x) (key y)) l
    ++ x :: filter (fun y => negb (Qltb (key x) (key y))) l.
Proof.
  unfold descending. induction l as [|y l IH]; simpl; intro H; [reflexivity|].
  inversion H as [|? ? Hl Hy]; subst. rewrite cmp_test.
  destruct (Qltb (key x) (key y)) eqn:E; simpl.
  - f_equal. now apply IH.
  - pose proof (descending_split x (y :: l) H) as S. simpl in S. rewrite E in S.
    simpl in S.
    destruct (filter (fun y0 => Qltb (key x) (key y0)) l) as [|z zs] eqn:F.
    + simpl in *. congruence.
    + exfalso.
      assert (Hz : In z (filter (fun y0 => Qltb (key x) (key y0)) l))
        by (rewrite F; now left).
      apply filter_In in Hz. destruct Hz as [Hz Kz].
      apply Qltb_lt in Kz. apply Qltb_ge in E.
      rewrite Forall_forall in Hy. specialize (Hy z Hz). simpl in Hy.
      apply (Qlt_irrefl (key x)).
      eapply Qlt_le_trans; [exact Kz|]. now apply Qle_trans with (key y).
Qed.

End StableSort.

(** ** The rank of an item in the sorted copy *)

Lemma filter_map_length {B C : Type} (g : B -> C) (f : C -> bool)
  (l : list B) :
  List.length (filter f (map g l))
  = List.length (filter (fun y => f (g y)) l).
Proof.
  induction l as [|b l IH]; simpl; [reflexivity|].
  destruct (f (g b)); simpl; congruence.
Qed.

Lemma nth_map_default {B : Type} (g : B -> Q) (l : list B) (i : nat) (x : B) :
  nth_error l i = Some x -> nth i (map g l) 0 = g x.
Proof.
  revert i. induction l as [|b l IH]; intros [|i] H; simpl in *;
    try discriminate.
  - now injection H as ->.
  - now apply IH.
Qed.

Lemma Qltb_irrefl (a : Q) : Qltb a a = false.
Proof. apply Qltb_ge, Qle_refl. Qed.

Section StableRank.

Context {A : Type}.
Variable cmp : A -> A -> Q.
Variable key : A -> Q.
Variable ident : A -> string.

Hypothesis cmp_key : forall a b, 0 < cmp a b <-> key a < key b.

Lemma stable_rank_head (x : A) (l : list A) :
  stable_rank_desc (map key (x :: l)) 0
  = List.length (filter (fun y => Qltb (key x) (key y)) l).
Proof.
  unfold stable_rank_desc. simpl. rewrite Qltb_irrefl.
  rewrite filter_map_length. apply Nat.add_0_r.
Qed.

Lemma stable_rank_tail (a x : A) (l : list A) (i : nat) :
  nth_error l i = Some x ->
  stable_rank_desc (map key (a :: l)) (S i)
  = ((if Qltb (key a) (key x) then 0 else 1)
     + stable_rank_desc (map key l) i)%nat.
Proof.
  intro H. unfold stable_rank_desc. simpl.
  rewrite (nth_map_default key l i x H).
  destruct (Qltb (key a) (key x)) eqn:E.
  - assert (L : Qltb (key x) (key a) = false)
      by (apply Qltb_ge, Qlt_le_weak; now apply Qltb_lt).
    assert (N : Qeq_bool (key a) (key x) = false).
    { destruct (Qeq_bool (key a) (key x)) eqn:F; [|reflexivity].
      apply Qeq_bool_eq in F. apply Qltb_lt in E. rewrite F in E.
      now apply Qlt_irrefl in E. }
    rewrite L, N. reflexivity.
  - apply Qltb_ge in E. destruct (Qltb (key x) (key a)) eqn:L.
    + assert (N : Qeq_bool (key a) (key x) = false).
      { destruct (Qeq_bool (key a) (key x)) eqn:F; [|reflexivity].
        apply Qeq_bool_eq in F. apply Qltb_lt in L. rewrite F in L.
        now apply Qlt_irrefl in L. }
      rewrite N. simpl. reflexivity.
    + apply Qltb_ge in L.
      assert (N : Qeq_bool (key a) (key x) = true)
        by (apply Qeq_bool_iff; now apply Qle_antisym).
      rewrite N. simpl. lia.
Qed.

(** The position at which [findIndex] finds the [i]-th item of the input, by
    its identifier, in the sorted copy is its stable rank. *)
Lemma find_pos_js_sort (l : list A) :
  NoDup (map ident l) ->
  forall i x, nth_error l i = Some x ->
    find_pos (fun s => String.eqb (ident s) (ident x)) (js_sort cmp l)
    = Some (stable_rank_desc (map key l) i).
Proof.
  induction l as [|a l IH]; intros N i x Hx.
  - destruct i; discriminate.
  - inversion N as [|? ? Hnot N']; subst.
    simpl js_sort.
    rewrite (insert_split cmp key cmp_key a (js_sort cmp l))
      by apply (js_sort_descending cmp key cmp_key).
    pose proof (js_sort_perm cmp l) as P.
    pose proof (descending_split key a (js_sort cmp l)
                  (js_sort_descending cmp key cmp_key l)) as S.
    set (pre := filter (fun y => Qltb (key a) (key y)) (js_sort cmp l)) in *.
    set (suf := filter (fun y => negb (Qltb (key a) (key y))) (js_sort cmp l))
      in *.
    assert (pre_in : forall y, In y pre ->
                       In y l /\ Qltb (key a) (key y) = true).
    { intros y Hy. apply filter_In in Hy. destruct Hy as [Hy K].
      split; [|exact K]. now apply (Permutation_in _ P). }
    rewrite find_pos_app.
    destruct i as [|i]; simpl in Hx.
    + injection Hx as <-.
      assert (F : find_pos (fun s => String.eqb (ident s) (ident a)) pre
                  = None).
      { apply find_pos_none. intros y Hy. apply pre_in in Hy.
        apply String.eqb_neq. intro E. apply Hnot. rewrite <- E.
        apply in_map. tauto. }
      rewrite stable_rank_head, F. simpl. rewrite String.eqb_refl. simpl.
      f_equal. rewrite Nat.add_0_r.
      unfold pre. now apply filter_length_perm.
    + pose proof (IH N' i x Hx) as R.
      rewrite stable_rank_tail with (x := x) by exact Hx.
      assert (Hin : In x l) by (eapply nth_error_In; exact Hx).
      assert (Hax : String.eqb (ident a) (ident x) = false).
      { apply String.eqb_neq. intro E. apply Hnot. rewrite E.
        now apply in_map. }
      rewrite S, find_pos_app in R.
      destruct (Qltb (key a) (key x)) eqn:E.
      * assert (Hpre : In x pre).
        { apply filter_In. split; [|exact E].
          now apply (Permutation_in _ (Permutation_sym P)). }
        destruct (find_pos_some (fun s => String.eqb (ident s) (ident x))
                    pre x Hpre (String.eqb_refl _)) as [n Hn].
        rewrite Hn in *. simpl. exact R.
      * assert (F : find_pos (fun s => String.eqb (ident s) (ident x)) pre
                    = None).
        { apply find_pos_none. intros y Hy. apply pre_in in Hy.
          destruct Hy as [Hy K].
          destruct (String.eqb (ident y) (ident x)) eqn:G; [|reflexivity].
          apply String.eqb_eq in G.
          assert (y = x) by (eapply NoDup_map_injective; eauto).
          subst. congruence. }
        rewrite F in *. simpl. rewrite Hax.
        destruct (find_pos (fun s => String.eqb (ident s) (ident x)) suf)
          as [m|]; simpl in *; [|discriminate].
        injection R as <-. f_equal. lia.
Qed.

End StableRank.

(** ** Percentiles and tiers *)

Lemma percent_lt (r n : nat) (t : Z) :
  (0 < n)%nat ->
  (inject_Z (Z.of_nat r) / Qnat n) * 100 < inject_Z t
  <-> (100 * Z.of_nat r < t * Z.of_nat n)%Z.
Proof.
  intro Hn. unfold Qnat.
  assert (Hq : 0 < inject_Z (Z.of_nat n)).
  { change 0 with (inject_Z 0). rewrite <- Zlt_Qlt. lia. }
  rewrite Zlt_Qlt, !inject_Z_mult.
  change (inject_Z 100) with 100.
  set (q := inject_Z (Z.of_nat n)) in *.
  set (x := inject_Z (Z.of_nat r)).
  set (y := inject_Z t).
  assert (E : x / q * 100 == 100 * x / q) by (field; lra).
  rewrite E.
  split; intro H.
  - apply (Qmult_lt_r _ _ q Hq) in H.
    assert (F : 100 * x / q * q == 100 * x) by (field; lra).
    rewrite F in H. exact H.
  - apply Qlt_shift_div_r; assumption.
Qed.

Lemma tier_scale (p : Q) : tierOfPercent (p * 100) = tier_of_percentile p.
Proof.
  unfold tierOfPercent, tier_of_percentile.
  assert (S : forall t t' : Q, t == t' * 100 ->
                Qltb (p * 100) t = Qltb p t').
  { intros t t' E. destruct (Qltb p t') eqn:F.
    - apply Qltb_lt in F. apply Qltb_lt. lra.
    - apply Qltb_ge in F. apply Qltb_ge. lra. }
  rewrite (S 10 0.10), (S 30 0.30), (S 60 0.60), (S 80 0.80);
    reflexivity.
Qed.

Lemma tierOfPercent_viral (p : Q) :
  tierOfPercent p = VIRAL <-> p < 10.
Proof.
  unfold tierOfPercent. destruct (Qltb p 10) eqn:E.
  - apply Qltb_lt in E. tauto.
  - apply Qltb_ge in E. split.
    + destruct (Qltb p 30), (Qltb p 60), (Qltb p 80); discriminate.
    + intro L. exfalso. apply (Qlt_not_le _ _ L E).
Qed.

Lemma distinct_keys_nth (keys : list Q) :
  distinct_keys keys = true ->
  forall i j a b, i <> j ->
    nth_error keys i = Some a -> nth_error keys j = Some b -> ~ a == b.
Proof.
  induction keys as [|k keys IH]; simpl; intros D i j a b Hij Hi Hj.
  - destruct i; discriminate.
  - apply andb_prop in D. destruct D as [D1 D2].
    rewrite forallb_forall in D1.
    destruct i as [|i], j as [|j]; simpl in *.
    + congruence.
    + injection Hi as <-. apply nth_error_In in Hj.
      specialize (D1 b Hj). apply negb_true_iff in D1.
      now apply Qeq_bool_neq.
    + injection Hj as <-. apply nth_error_In in Hi.
      specialize (D1 a Hi). apply negb_true_iff in D1.
      intro E. apply (Qeq_bool_neq _ _ D1). now symmetry.
    + apply (IH D2 i j); auto.
Qed.

Lemma count_same_id {A : Type} (ident : A -> string) (l : list A) (x : A) :
  NoDup (map ident l) -> In x l ->
  List.length (filter (fun y => String.eqb (ident y) (ident x)) l) = 1%nat.
Proof.
  induction l as [|a l IH]; simpl; intros N H; [contradiction|].
  inversion N as [|? ? Hnot N']; subst.
  destruct H as [<-|H].
  - rewrite String.eqb_refl. simpl. f_equal.
    assert (F : filter (fun y => String.eqb (ident y) (ident a)) l = []).
    { clear IH N N'. induction l as [|b l IHl]; [reflexivity|]. simpl.
      destruct (String.eqb (ident b) (ident a)) eqn:E.
      - apply String.eqb_eq in E. exfalso. apply Hnot. left. exact E.
      - apply IHl. intro K. apply Hnot. now right. }
    now rewrite F.
  - assert (E : String.eqb (ident a) (ident x) = false).
    { apply String.eqb_neq. intro E. apply Hnot. rewrite E. now apply in_map. }
    rewrite E. now apply IH.
Qed.

(** ** [analyzeShortsPerformance] *)

Lemma engagement_cmp_key (a b : ShortsData) :
  0 < engagementRate b - engagementRate a
  <-> engagementRate a < engagementRate b.
Proof. split; intro; lra. Qed.

Lemma analyzeShortsPerformance_unfold (videos : list VideoData)
  (subscriberCount : option Z) :
  filter isShort videos <> [] ->
  analyzeShortsPerformance videos subscriberCount
  = map (withPerformance
           (js_sort (fun a b => engagementRate b - engagementRate a)
              (map (withEngagement subscriberCount) (filter isShort videos))))
      (map (withEngagement subscriberCount) (filter isShort videos)).
Proof.
  intro H. unfold analyzeShortsPerformance.
  destruct (filter isShort videos); [congruence|reflexivity].
Qed.

Lemma analyzeShortsPerformance_no_shorts (videos : list VideoData)
  (subscriberCount : option Z) :
  filter isShort videos = [] ->
  analyzeShortsPerformance videos subscriberCount = [].
Proof. intro H. unfold analyzeShortsPerformance. now rewrite H. Qed.

Lemma withEngagement_ids (subscriberCount : option Z) (l : list VideoData) :
  map (fun s => id (video s)) (map (withEngagement subscriberCount) l)
  = map id l.
Proof. rewrite map_map. reflexivity. Qed.

Lemma withEngagement_keys (subscriberCount : option Z) (l : list VideoData) :
  map engagementRate (map (withEngagement subscriberCount) l)
  = map engagementRateOf l.
Proof. rewrite map_map. reflexivity. Qed.

(** The item found at position 0 of the sorted copy is VIRAL, whatever the
    size of the batch. *)
Lemma withPerformance_first (s0 x : ShortsData) (rest : list ShortsData) :
  String.eqb (id (video s0)) (id (video x)) = true ->
  performance (withPerformance (s0 :: rest) x) = VIRAL.
Proof.
  intro E. unfold withPerformance. simpl performance.
  apply tierOfPercent_viral.
  unfold percentileOf, rankOf, findIndex. simpl find_pos. rewrite E.
  change 10 with (inject_Z 10).
  apply percent_lt; simpl List.length; lia.
Qed.

(** In a batch of ten, an item found at a later position is not VIRAL. *)
Lemma withPerformance_later (s0 x : ShortsData) (rest : list ShortsData) :
  List.length (s0 :: rest) = 10%nat ->
  In x (s0 :: rest) ->
  String.eqb (id (video s0)) (id (video x)) = false ->
  performance (withPerformance (s0 :: rest) x) <> VIRAL.
Proof.
  intros L Hin E V. unfold withPerformance in V. simpl performance in V.
  apply tierOfPercent_viral in V.
  unfold percentileOf, rankOf, findIndex in V. simpl find_pos in V.
  rewrite E in V.
  destruct Hin as [->|Hin]; [now rewrite String.eqb_refl in E|].
  destruct (find_pos_some
              (fun s => String.eqb (id (video s)) (id (video x))) rest x Hin
              (String.eqb_refl _)) as [m Hm].
  rewrite Hm in V. simpl option_map in V. rewrite L in V.
  change 10 with (inject_Z 10) in V.
  apply percent_lt in V; lia.
Qed.

(** C10: whenever the classification returns a non-empty list, some item of
    it has the tier VIRAL: the item at the head of the sorted copy is found
    at position 0 and its percentile is 0. *)
Theorem analyzeShortsPerformance_has_viral (videos : list VideoData)
  (subscriberCount : option Z) :
  analyzeShortsPerformance videos subscriberCount <> [] ->
  exists s, In s (analyzeShortsPerformance videos subscriberCount)
            /\ performance s = VIRAL.
Proof.
  intro Hne.
  destruct (filter isShort videos) as [|v0 vs] eqn:F.
  - now rewrite analyzeShortsPerformance_no_shorts in Hne.
  - rewrite analyzeShortsPerformance_unfold by (rewrite F; discriminate).
    rewrite F.
    set (swe := map (withEngagement subscriberCount) (v0 :: vs)).
    set (cmp := fun a b : ShortsData => engagementRate b - engagementRate a).
    pose proof (js_sort_perm cmp swe) as P.
    destruct (js_sort cmp swe) as [|s0 rest] eqn:S.
    + apply Permutation_length in P. discriminate P.
    + exists (withPerformance (s0 :: rest) s0). split.
      * apply in_map. apply (Permutation_in _ P). now left.
      * apply withPerformance_first, String.eqb_refl.
Qed.

Lemma hasTier_viral (s : ShortsData) :
  hasTier VIRAL s = true <-> performance s = VIRAL.
Proof. unfold hasTier. destruct (performance s); simpl; split; congruence. Qed.

(** In a batch of ten with distinct identifiers, the VIRAL items are those
    carrying the identifier of the head of the sorted copy. *)
Lemma viral_in_ten (s0 x : ShortsData) (rest : list ShortsData) :
  List.length (s0 :: rest) = 10%nat ->
  In x (s0 :: rest) ->
  hasTier VIRAL (withPerformance (s0 :: rest) x)
  = String.eqb (id (video x)) (id (video s0)).
Proof.
  intros L Hin. rewrite String.eqb_sym.
  destruct (String.eqb (id (video s0)) (id (video x))) eqn:E.
  - apply hasTier_viral. now apply withPerformance_first.
  - destruct (hasTier VIRAL (withPerformance (s0 :: rest) x)) eqn:H;
      [|reflexivity].
    apply hasTier_viral in H. exfalso.
    now apply (withPerformance_later s0 x rest L Hin E).
Qed.

(** C2: for a non-empty batch of Shorts with distinct identifiers, the tier
    of every item is the tier of its percentile, its rank in the stable
    descending sort by the ranking key divided by the batch size, under the
    thresholds 0.10, 0.30, 0.60 and 0.80; a batch of one is VIRAL; a batch
    of ten with distinct keys has exactly one VIRAL item, whose key exceeds
    all others. *)
Theorem analyzeShortsPerformance_tiers (videos : list VideoData)
  (subscriberCount : option Z) :
  filter isShort videos <> [] ->
  NoDup (map id (filter isShort videos)) ->
  (forall i v, nth_error (filter isShort videos) i = Some v ->
     exists s,
       nth_error (analyzeShortsPerformance videos subscriberCount) i = Some s
       /\ video s = v
       /\ engagementRate s = engagementRateOf v
       /\ performance s
          = tier_of_percentile
              (Qnat (stable_rank_desc
                       (map engagementRateOf (filter isShort videos)) i)
               / Qnat (List.length (filter isShort videos))))
  /\ (List.length (filter isShort videos) = 1%nat ->
      forall s, In s (analyzeShortsPerformance videos subscriberCount) ->
                performance s = VIRAL)
  /\ (List.length (filter isShort videos) = 10%nat ->
      distinct_keys (map engagementRateOf (filter isShort videos)) = true ->
      List.length
        (filter (hasTier VIRAL)
           (analyzeShortsPerformance videos subscriberCount)) = 1%nat
      /\ forall top,
           In top (analyzeShortsPerformance videos subscriberCount) ->
           performance top = VIRAL ->
           forall s,
             In s (analyzeShortsPerformance videos subscriberCount) ->
             s <> top -> engagementRate s < engagementRate top).
Proof.
  intros Hne N.
  rewrite analyzeShortsPerformance_unfold by exact Hne.
  set (shorts := filter isShort videos) in *.
  set (swe := map (withEngagement subscriberCount) shorts).
  set (cmp := fun a b : ShortsData => engagementRate b - engagementRate a).
  assert (Nswe : NoDup (map (fun s => id (video s)) swe))
    by (unfold swe; now rewrite withEngagement_ids).
  assert (Lswe : List.length swe = List.length shorts)
    by (unfold swe; apply length_map).
  pose proof (js_sort_perm cmp swe) as P.
  pose proof (js_sort_descending cmp engagementRate engagement_cmp_key swe)
    as D.
  split; [|split].
  - intros i v Hv.
    assert (Hx : nth_error swe i = Some (withEngagement subscriberCount v))
      by (unfold swe; now apply map_nth_error).
    exists (withPerformance (js_sort cmp swe)
              (withEngagement subscriberCount v)).
    split; [now apply map_nth_error|].
    split; [reflexivity|]. split; [reflexivity|].
    pose proof (find_pos_js_sort cmp engagementRate (fun s => id (video s))
                  engagement_cmp_key swe Nswe i _ Hx) as R.
    cbv beta in R.
    unfold withPerformance. simpl performance.
    unfold percentileOf, rankOf, findIndex. rewrite R.
    rewrite (js_sort_length cmp swe), Lswe.
    unfold swe. rewrite withEngagement_keys.
    apply tier_scale.
  - intros L1 s Hs.
    destruct shorts as [|v [|v' vs]] eqn:Eshorts; try discriminate L1.
    simpl in Hs. destruct Hs as [<-|[]].
    apply withPerformance_first, String.eqb_refl.
  - intros L10 K.
    destruct (js_sort cmp swe) as [|s0 rest] eqn:S.
    { apply Permutation_length in P. rewrite Lswe, L10 in P. discriminate P. }
    assert (Ls : List.length (s0 :: rest) = 10%nat).
    { apply Permutation_length in P. now rewrite P, Lswe. }
    assert (Hs0 : In s0 swe) by (apply (Permutation_in _ P); now left).
    assert (sorted_in : forall y, In y swe -> In y (s0 :: rest)).
    { intros y Hy. now apply (Permutation_in _ (Permutation_sym P)). }
    split.
    + rewrite filter_map_length.
      rewrite (filter_ext_in
                 (fun y => hasTier VIRAL (withPerformance (s0 :: rest) y))
                 (fun y => String.eqb (id (video y)) (id (video s0)))).
      * now apply (count_same_id (fun s => id (video s))).
      * intros y Hy. apply viral_in_ten; auto.
    + intros top Htop Vtop s Hs Hneq.
      apply in_map_iff in Htop. destruct Htop as [x [<- Hx]].
      apply in_map_iff in Hs. destruct Hs as [y [<- Hy]].
      assert (Ex : x = s0).
      { apply hasTier_viral in Vtop.
        rewrite viral_in_ten in Vtop by auto.
        apply String.eqb_eq in Vtop.
        now apply (NoDup_map_injective (fun s => id (video s)) swe x s0). }
      subst x.
      assert (Hys : y <> s0) by (intro; subst; now apply Hneq).
      simpl engagementRate.
      assert (Le : engagementRate y <= engagementRate s0).
      { unfold descending in D. inversion D as [|? ? _ F]; subst.
        destruct (sorted_in y Hy) as [->|Hr]; [contradiction|].
        rewrite Forall_forall in F. now apply F. }
      destruct (In_nth_error _ _ Hy) as [j Hj].
      destruct (In_nth_error _ _ Hs0) as [i0 Hi0].
      assert (Hij : j <> i0) by (intro; subst; congruence).
      unfold swe in K. rewrite <- withEngagement_keys with
        (subscriberCount := subscriberCount) in K.
      pose proof (distinct_keys_nth _ K j i0 _ _ Hij
                    (map_nth_error engagementRate j _ Hj)
                    (map_nth_error engagementRate i0 _ Hi0)) as Hd.
      apply Qle_lteq in Le. destruct Le as [Lt|Eq]; [exact Lt|contradiction].
Qed.

Lemma analyzeShortsPerformance_has_viral_witness :
  analyzeShortsPerformance scenario None <> []
  /\ exists s, In s (analyzeShortsPerformance scenario None)
               /\ performance s = VIRAL.
Proof.
  split.
  - vm_compute. discriminate.
  - apply (analyzeShortsPerformance_has_viral scenario None).
    vm_compute. discriminate.
Defined.

Lemma batch_of_ten_ids : NoDup (map id (filter isShort batch_of_ten)).
Proof.
  vm_compute. repeat constructor; simpl; intuition discriminate.
Qed.

Lemma analyzeShortsPerformance_tiers_witness :
  filter isShort batch_of_ten <> []
  /\ NoDup (map id (filter isShort batch_of_ten))
  /\ (forall i v, nth_error (filter isShort batch_of_ten) i = Some v ->
        exists s,
          nth_error (analyzeShortsPerformance batch_of_ten None) i = Some s
          /\ video s = v
          /\ engagementRate s = engagementRateOf v
          /\ performance s
             = tier_of_percentile
                 (Qnat (stable_rank_desc
                          (map engagementRateOf (filter isShort batch_of_ten))
                          i)
                  / Qnat (List.length (filter isShort batch_of_ten))))
  /\ List.length (filter isShort batch_of_ten) = 10%nat
  /\ distinct_keys (map engagementRateOf (filter isShort batch_of_ten)) = true
  /\ List.length
       (filter (hasTier VIRAL) (analyzeShortsPerformance batch_of_ten None))
     = 1%nat.
Proof.
  assert (Hne : filter isShort batch_of_ten <> [])
    by (vm_compute; discriminate).
  assert (L : List.length (filter isShort batch_of_ten) = 10%nat)
    by (vm_compute; reflexivity).
  assert (K : distinct_keys (map engagementRateOf (filter isShort batch_of_ten))
              = true) by (vm_compute; reflexivity).
  pose proof (analyzeShortsPerformance_tiers batch_of_ten None Hne
                batch_of_ten_ids) as [T [_ V]].
  split; [exact Hne|]. split; [exact batch_of_ten_ids|].
  split; [exact T|]. split; [exact L|]. split; [exact K|].
  exact (proj1 (V L K)).
Defined.

(** [findIndex] looks an item up by its identifier, so two items sharing an
    identifier share the position of the first of them in the sorted copy;
    with distinct identifiers the second of two items is GOOD. *)
Lemma shared_identifier_shares_rank :
  map performance
    (analyzeShortsPerformance
       [example_video "x" 1000 90 0 "PT10S";
        example_video "x" 1000 10 0 "PT10S"] None)
  = [VIRAL; VIRAL]
  /\ map performance
       (analyzeShortsPerformance
          [example_video "x" 1000 90 0 "PT10S";
           example_video "y" 1000 10 0 "PT10S"] None)
     = [VIRAL; GOOD].
Proof. split; vm_compute; reflexivity. Qed.

(** In binary64, the percentiles that fall on a threshold in a batch of ten
    are the thresholds themselves, as in exact arithmetic. *)
Lemma ten_boundaries_binary64 :
  Binary64.percentile 1 10 = 10%float
  /\ Binary64.percentile 3 10 = 30%float
  /\ Binary64.percentile 6 10 = 60%float
  /\ Binary64.percentile 8 10 = 80%float.
Proof. repeat split; vm_compute; reflexivity. Qed.

(** ** The end-to-end scenario *)

(** The binary64 evaluation of the three scores is exact: the values are
    the integers 80, 8 and 380, which [toFixed(2)] and [parseFloat] leave
    unchanged. *)
Lemma scenario_scores_binary64 :
  Binary64.score 1000 100 50 = 80%float
  /\ Binary64.score 1000 10 5 = 8%float
  /\ Binary64.score 1000 500 200 = 380%float.
Proof. repeat split; vm_compute; reflexivity. Qed.

(** In binary64 the engagement rates are ordered C > A > B, and the
    percentiles of ranks 1 and 2 of 3 fall in [30, 60) and [60, 80). *)
Lemma scenario_ranking_binary64 :
  PrimFloat.ltb (Binary64.engagementRate 1000 100 50)
    (Binary64.engagementRate 1000 500 200) = true
  /\ PrimFloat.ltb (Binary64.engagementRate 1000 10 5)
       (Binary64.engagementRate 1000 100 50) = true
  /\ PrimFloat.ltb (Binary64.percentile 0 3) 10 = true
  /\ PrimFloat.ltb (Binary64.percentile 1 3) 30 = false
  /\ PrimFloat.ltb (Binary64.percentile 1 3) 60 = true
  /\ PrimFloat.ltb (Binary64.percentile 2 3) 60 = false
  /\ PrimFloat.ltb (Binary64.percentile 2 3) 80 = true.
Proof. repeat split; vm_compute; reflexivity. Qed.

(** C3, as the code has it: for A(1000, 100, 50), B(1000, 10, 5) and
    C(1000, 500, 200) the scores are 80, 8 and 380; classified as a batch of
    Shorts, C is VIRAL, A is GOOD and B is AVERAGE, the lowest tier of the
    three. *)
Theorem scenario_scores_and_tiers (subscriberCount : option Z) :
  popularityScore itemA == 80
  /\ popularityScore itemB == 8
  /\ popularityScore itemC == 380
  /\ map (fun s => (id (video s), performance s))
       (analyzeShortsPerformance scenario subscriberCount)
     = [("A"%string, GOOD); ("B"%string, AVERAGE); ("C"%string, VIRAL)]
  /\ (forall b s,
        In b (analyzeShortsPerformance scenario subscriberCount) ->
        In s (analyzeShortsPerformance scenario subscriberCount) ->
        id (video b) = "B"%string ->
        (tier_index (performance s) <= tier_index (performance b))%nat).
Proof.
  assert (T : map (fun s => (id (video s), performance s))
                (analyzeShortsPerformance scenario subscriberCount)
              = [("A"%string, GOOD); ("B"%string, AVERAGE);
                 ("C"%string, VIRAL)])
    by (vm_compute; reflexivity).
  split; [reflexivity|]. split; [reflexivity|]. split; [reflexivity|].
  split; [exact T|].
  intros b s Hb Hs Eb.
  assert (P : forall x, In x (analyzeShortsPerformance scenario subscriberCount)
              -> In (id (video x), performance x)
                   [("A"%string, GOOD); ("B"%string, AVERAGE);
                    ("C"%string, VIRAL)]).
  { intros x Hx. rewrite <- T.
    apply (in_map (fun s => (id (video s), performance s))), Hx. }
  pose proof (P b Hb) as Pb. pose proof (P s Hs) as Ps.
  rewrite Eb in Pb. simpl in Pb, Ps.
  destruct Pb as [Pb|[Pb|[Pb|[]]]]; try discriminate Pb.
  injection Pb as <-.
  destruct Ps as [Ps|[Ps|[Ps|[]]]]; injection Ps as _ <-; simpl; lia.
Qed.

(** C3 fails as stated: the scores of A and B are 80 and 8, not 86 and
    8.6. *)
Lemma scenario_scores_not_as_claimed :
  popularityScore itemA == 80
  /\ popularityScore itemB == 8
  /\ ~ popularityScore itemA == 86
  /\ ~ popularityScore itemB == 8.6.
Proof.
  split; [reflexivity|]. split; [reflexivity|].
  split; intro H; vm_compute in H; discriminate H.
Qed.

(** ** Filtering by video type *)

Lemma keepShort_iff (thresholdSeconds : Z) (v : VideoData) :
  (duration v >? 0)%Z && (duration v <=? thresholdSeconds)%Z = true
  <-> (0 < duration v <= thresholdSeconds)%Z.
Proof. rewrite andb_true_iff, Z.gtb_ltb, Z.ltb_lt, Z.leb_le. tauto. Qed.

Lemma keepLong_iff (thresholdSeconds : Z) (v : VideoData) :
  (duration v >? thresholdSeconds)%Z = true
  <-> (thresholdSeconds < duration v)%Z.
Proof. now rewrite Z.gtb_ltb, Z.ltb_lt. Qed.

(** C5: SHORTS keeps exactly the items with
    [0 < duration <= thresholdSeconds], LONG exactly those with
    [duration > thresholdSeconds], in input order, and ALL returns the
    input; an item at the threshold is kept by SHORTS and dropped by LONG,
    an item of duration 0 is in neither. *)
Theorem filterByVideoType_spec (videos : list VideoData)
  (thresholdSeconds : Z) :
  (exists keep,
      (forall v, keep v = true <-> (0 < duration v <= thresholdSeconds)%Z)
      /\ filterByVideoType videos SHORTS thresholdSeconds = filter keep videos)
  /\ (exists keep,
         (forall v, keep v = true <-> (thresholdSeconds < duration v)%Z)
         /\ filterByVideoType videos LONG thresholdSeconds
            = filter keep videos)
  /\ filterByVideoType videos ALL thresholdSeconds = videos
  /\ (forall v,
         In v (filterByVideoType videos SHORTS thresholdSeconds)
         <-> In v videos /\ (0 < duration v <= thresholdSeconds)%Z)
  /\ (forall v,
         In v (filterByVideoType videos LONG thresholdSeconds)
         <-> In v videos /\ (thresholdSeconds < duration v)%Z)
  /\ (forall v,
         In v videos -> duration v = thresholdSeconds ->
         (0 < thresholdSeconds)%Z ->
         In v (filterByVideoType videos SHORTS thresholdSeconds)
         /\ ~ In v (filterByVideoType videos LONG thresholdSeconds))
  /\ (forall v,
         duration v = 0%Z -> (0 <= thresholdSeconds)%Z ->
         ~ In v (filterByVideoType videos SHORTS thresholdSeconds)
         /\ ~ In v (filterByVideoType videos LONG thresholdSeconds)).
Proof.
  assert (S : forall v,
             In v (filterByVideoType videos SHORTS thresholdSeconds)
             <-> In v videos /\ (0 < duration v <= thresholdSeconds)%Z).
  { intro v. unfold filterByVideoType. rewrite filter_In, keepShort_iff.
    tauto. }
  assert (L : forall v,
             In v (filterByVideoType videos LONG thresholdSeconds)
             <-> In v videos /\ (thresholdSeconds < duration v)%Z).
  { intro v. unfold filterByVideoType. rewrite filter_In, keepLong_iff.
    tauto. }
  split; [|split; [|split; [|split; [|split; [|split]]]]].
  - eexists. split; [|reflexivity]. intro v. apply keepShort_iff.
  - eexists. split; [|reflexivity]. intro v. apply keepLong_iff.
  - reflexivity.
  - exact S.
  - exact L.
  - intros v Hin Hd Hpos. rewrite S, L. split; [split; [assumption|lia]|].
    intros [_ H]. lia.
  - intros v Hd Hpos. rewrite S, L. split; intros [_ H]; lia.
Qed.

(** The three-item example of the specification at the threshold 60. *)
Lemma filterByVideoType_example :
  let d30 := example_video "d30" 0 0 0 "PT30S" in
  let d200 := example_video "d200" 0 0 0 "PT3M20S" in
  let d0 := example_video "d0" 0 0 0 "" in
  filterByVideoType [d30; d200; d0] SHORTS 60 = [d30]
  /\ filterByVideoType [d30; d200; d0] LONG 60 = [d200].
Proof. split; reflexivity. Qed.

(** The filter written in place in the earlier [handleSearch] keeps, on
    whole seconds, what [filterByVideoType] keeps at the threshold 179: an
    item of exactly 180 seconds is LONG there, while the call
    [filterByVideoType(_, _, 180)] of the later [handleSearch] counts it as
    a Short. *)
Lemma handleSearch_filter_threshold (videoTypeFilter : VideoTypeFilter)
  (videoDetails : list VideoData) :
  handleSearch_filter videoTypeFilter videoDetails
  = filterByVideoType videoDetails videoTypeFilter 179.
Proof.
  destruct videoTypeFilter; simpl; [reflexivity| |];
    apply filter_ext; intro v.
  - f_equal.
    destruct (Z.ltb_spec (duration v) 180), (Z.leb_spec (duration v) 179);
      try reflexivity; lia.
  - rewrite Z.geb_leb, Z.gtb_ltb.
    destruct (Z.leb_spec 180 (duration v)), (Z.ltb_spec 179 (duration v));
      try reflexivity; lia.
Qed.

(** ** TOP / BOTTOM selection *)

Lemma slice_last {A : Type} (l : list A) (k : nat) :
  (0 < k)%nat ->
  slice (- Z.of_nat k) None l = skipn (List.length l - k) l.
Proof.
  intro Hk. unfold slice, rel_index.
  assert (E : (- Z.of_nat k <? 0)%Z = true) by (apply Z.ltb_lt; lia).
  rewrite E.
  replace (Z.to_nat (Z.max (Z.of_nat (List.length l) + - Z.of_nat k) 0))
    with (List.length l - k)%nat by lia.
  apply firstn_all2. rewrite length_skipn. lia.
Qed.

Lemma slice_first {A : Type} (l : list A) (k : nat) :
  slice 0 (Some (Z.of_nat k)) l = firstn k l.
Proof.
  unfold slice, rel_index. change (0 <? 0)%Z with false. cbv iota.
  assert (E : (Z.of_nat k <? 0)%Z = false) by (apply Z.ltb_ge; lia).
  rewrite E.
  replace (Z.min 0 (Z.of_nat (List.length l))) with 0%Z by lia.
  change (Z.to_nat 0) with 0%nat. simpl skipn.
  destruct (Nat.le_gt_cases k (List.length l)) as [H|H].
  - f_equal. lia.
  - rewrite (firstn_all2 l (n := k)) by lia. apply firstn_all2. lia.
Qed.

Lemma score_cmp_key (a b : VideoData) :
  0 < popularityScore a - popularityScore b
  <-> - popularityScore a < - popularityScore b.
Proof. split; intro; lra. Qed.

Lemma StronglySorted_weaken {A : Type} (R R' : A -> A -> Prop) (l : list A) :
  (forall a b, R a b -> R' a b) -> StronglySorted R l -> StronglySorted R' l.
Proof.
  intros W. induction 1 as [|a l Hl IH Ha]; constructor; [exact IH|].
  eapply Forall_impl; [|exact Ha]. intros b. apply W.
Qed.

Lemma sortedVideos_ascending (videoDetails : list VideoData) :
  StronglySorted (fun a b => popularityScore a <= popularityScore b)
    (js_sort (fun a b => popularityScore a - popularityScore b) videoDetails).
Proof.
  pose proof (js_sort_descending
                (fun a b => popularityScore a - popularityScore b)
                (fun a => - popularityScore a) score_cmp_key videoDetails)
    as D.
  unfold descending in D.
  eapply StronglySorted_weaken; [|exact D]. intros a b H. simpl in H. lra.
Qed.

(** [handleSearch] is the selection of the specification with the count
    fixed at 10. *)
Lemma handleSearch_displayVideos_ten (channelView : ChannelAnalysisView)
  (videoDetails : list VideoData) :
  handleSearch_displayVideos channelView videoDetails
  = selectTopOrBottom videoDetails channelView 10.
Proof.
  unfold handleSearch_displayVideos, selectTopOrBottom.
  destruct videoDetails as [|v vs].
  - destruct channelView; reflexivity.
  - assert (E : (Z.of_nat (List.length (v :: vs)) >? 0)%Z = true)
      by (rewrite Z.gtb_ltb; apply Z.ltb_lt; simpl List.length; lia).
    rewrite E. destruct channelView.
    + f_equal. apply (slice_last _ 10). lia.
    + apply (slice_first _ 10).
Qed.

(** C6, as the code has it: [handleSearch] sorts a copy ascending by
    [popularityScore] and, with the count fixed at 10, returns the last 10
    elements reversed in TOP mode and the first 10 in BOTTOM mode; a batch
    of at most 10 items is returned whole, sorted (reversed for TOP).  On
    the scores [10, 50, 5, 80, 20] TOP gives [80, 50, 20, 10, 5] and BOTTOM
    gives [5, 10, 20, 50, 80]. *)
Theorem handleSearch_displayVideos_spec (channelView : ChannelAnalysisView)
  (videoDetails : list VideoData) :
  handleSearch_displayVideos channelView videoDetails
  = selectTopOrBottom videoDetails channelView 10
  /\ Permutation
       (js_sort (fun a b => popularityScore a - popularityScore b)
          videoDetails) videoDetails
  /\ StronglySorted (fun a b => popularityScore a <= popularityScore b)
       (js_sort (fun a b => popularityScore a - popularityScore b)
          videoDetails)
  /\ ((List.length videoDetails <= 10)%nat ->
      handleSearch_displayVideos TOP videoDetails
      = rev (js_sort (fun a b => popularityScore a - popularityScore b)
               videoDetails)
      /\ handleSearch_displayVideos BOTTOM videoDetails
         = js_sort (fun a b => popularityScore a - popularityScore b)
             videoDetails)
  /\ map popularityScore (handleSearch_displayVideos TOP five_scores)
     = [80; 50; 20; 10; 5]
  /\ map popularityScore (handleSearch_displayVideos BOTTOM five_scores)
     = [5; 10; 20; 50; 80].
Proof.
  split; [apply handleSearch_displayVideos_ten|].
  split; [apply (js_sort_perm _ videoDetails)|].
  split; [apply sortedVideos_ascending|].
  split; [|split; reflexivity].
  intro L. rewrite !handleSearch_displayVideos_ten. unfold selectTopOrBottom.
  pose proof (js_sort_length
                (fun a b => popularityScore a - popularityScore b)
                videoDetails) as E.
  split.
  - f_equal. replace (_ - 10)%nat with 0%nat by lia. reflexivity.
  - apply firstn_all2. lia.
Qed.

(** C6 fails as stated: the code takes no count, and on five items it
    returns all five, not the three and two of the example. *)
Lemma handleSearch_displayVideos_not_three :
  map popularityScore (handleSearch_displayVideos TOP five_scores)
  = [80; 50; 20; 10; 5]
  /\ map popularityScore (handleSearch_displayVideos TOP five_scores)
     <> [80; 50; 20]
  /\ map popularityScore (handleSearch_displayVideos BOTTOM five_scores)
     = [5; 10; 20; 50; 80]
  /\ map popularityScore (handleSearch_displayVideos BOTTOM five_scores)
     <> [5; 10].
Proof.
  split; [reflexivity|]. split; [vm_compute; discriminate|].
  split; [reflexivity|vm_compute; discriminate].
Qed.

(** The example of the specification holds for the selection it words, at
    the counts 3 and 2. *)
Lemma selectTopOrBottom_example :
  map popularityScore (selectTopOrBottom five_scores TOP 3) = [80; 50; 20]
  /\ map popularityScore (selectTopOrBottom five_scores BOTTOM 2) = [5; 10].
Proof. split; reflexivity. Qed.

(** ** First and last element of a sorted copy *)

Lemma at_index_0 {A : Type} (l : list A) : at_index l 0 = hd_error l.
Proof. destruct l; reflexivity. Qed.

Lemma last_opt_cons {A : Type} (x y : A) (l : list A) :
  last_opt (x :: y :: l) = last_opt (y :: l).
Proof. reflexivity. Qed.

Lemma at_index_last {A : Type} (l : list A) :
  at_index l (Z.of_nat (List.length l) - 1) = last_opt l.
Proof.
  unfold at_index. induction l as [|x l IH]; [reflexivity|].
  destruct l as [|y l]; [reflexivity|].
  rewrite last_opt_cons, <- IH.
  assert (E : forall m : list A,
             m <> [] -> (Z.of_nat (List.length m) - 1 <? 0)%Z = false).
  { intros m Hm. apply Z.ltb_ge. destruct m; [congruence|].
    simpl List.length. lia. }
  rewrite !E by discriminate.
  replace (Z.to_nat (Z.of_nat (List.length (x :: y :: l)) - 1))
    with (S (Z.to_nat (Z.of_nat (List.length (y :: l)) - 1)))
    by (simpl List.length; lia).
  reflexivity.
Qed.

Lemma last_opt_in {A : Type} (l : list A) (w : A) :
  last_opt l = Some w -> In w l.
Proof.
  induction l as [|x l IH]; [discriminate|].
  destruct l as [|y l].
  - simpl. intro H. injection H as ->. now left.
  - rewrite last_opt_cons. intro H. right. now apply IH.
Qed.

Section Extremes.

Context {A : Type}.
Variable cmp : A -> A -> Q.
Variable key : A -> Q.

Hypothesis cmp_key : forall a b, 0 < cmp a b <-> key a < key b.

(** The head of the sorted copy is the first of the items with the greatest
    key. *)
Lemma js_sort_head (l : list A) :
  l <> [] ->
  exists b i,
    hd_error (js_sort cmp l) = Some b
    /\ nth_error l i = Some b
    /\ (forall x, In x l -> key x <= key b)
    /\ (forall j x, (j < i)%nat -> nth_error l j = Some x -> key x < key b).
Proof.
  induction l as [|a l IH]; [congruence|]. intros _.
  destruct l as [|a' l'].
  - exists a, 0%nat. simpl. repeat split.
    + intros x [<-|[]]. apply Qle_refl.
    + intros j x Hj. lia.
  - destruct (IH ltac:(discriminate)) as [b [i [Hd [Hi [Hmax Hfirst]]]]].
    simpl js_sort in *.
    destruct (insert cmp a' (js_sort cmp l')) as [|s0 rest]; [discriminate|].
    simpl in Hd. injection Hd as ->.
    simpl insert. rewrite (cmp_test cmp key cmp_key).
    destruct (Qltb (key a) (key b)) eqn:E.
    + apply Qltb_lt in E. exists b, (S i). simpl. repeat split; auto.
      * intros x [<-|Hx]; [now apply Qlt_le_weak|now apply Hmax].
      * intros [|j] x Hj Hx; simpl in Hx.
        -- now injection Hx as <-.
        -- apply (Hfirst j); [lia|exact Hx].
    + apply Qltb_ge in E. exists a, 0%nat. simpl. repeat split.
      * intros x [<-|Hx]; [apply Qle_refl|].
        apply Qle_trans with (key b); [now apply Hmax|exact E].
      * intros j x Hj. lia.
Qed.

Lemma insert_last (a w : A) (l : list A) :
  descending key l -> last_opt l = Some w ->
  last_opt (insert cmp a l) = Some (if Qltb (key a) (key w) then a else w).
Proof.
  unfold descending. induction l as [|y l IH]; [discriminate|].
  intros D L. inversion D as [|? ? Dl Fy]; subst.
  simpl insert. rewrite (cmp_test cmp key cmp_key).
  destruct l as [|z l].
  - simpl in L. injection L as <-. simpl.
    destruct (Qltb (key a) (key y)); reflexivity.
  - rewrite last_opt_cons in L.
    destruct (Qltb (key a) (key y)) eqn:E.
    + specialize (IH Dl L).
      destruct (insert cmp a (z :: l)) as [|u us] eqn:I.
      * simpl in I. destruct (Qltb 0 (cmp a z)); discriminate I.
      * rewrite last_opt_cons. exact IH.
    + rewrite !last_opt_cons, L. f_equal.
      assert (G : Qltb (key a) (key w) = false).
      { apply Qltb_ge. apply Qltb_ge in E.
        apply Qle_trans with (key y); [|exact E].
        rewrite Forall_forall in Fy. apply Fy. now apply last_opt_in. }
      now rewrite G.
Qed.

(** The last element of the sorted copy is the last of the items with the
    least key. *)
Lemma js_sort_last (l : list A) :
  l <> [] ->
  exists w i,
    last_opt (js_sort cmp l) = Some w
    /\ nth_error l i = Some w
    /\ (forall x, In x l -> key w <= key x)
    /\ (forall j x, (i < j)%nat -> nth_error l j = Some x -> key w < key x).
Proof.
  induction l as [|a l IH]; [congruence|]. intros _.
  destruct l as [|a' l'].
  - exists a, 0%nat. simpl. repeat split.
    + intros x [<-|[]]. apply Qle_refl.
    + intros [|[|j]] x Hj Hx; simpl in Hx; try discriminate; lia.
  - destruct (IH ltac:(discriminate)) as [w [i [Hl [Hi [Hmin Hlast]]]]].
    change (js_sort cmp (a :: a' :: l'))
      with (insert cmp a (js_sort cmp (a' :: l'))).
    rewrite (insert_last a w (js_sort cmp (a' :: l'))
               (js_sort_descending cmp key cmp_key (a' :: l')) Hl).
    destruct (Qltb (key a) (key w)) eqn:E.
    + apply Qltb_lt in E. exists a, 0%nat. repeat split.
      * intros x [<-|Hx]; [apply Qle_refl|].
        apply Qlt_le_weak, Qlt_le_trans with (key w); [exact E|].
        now apply Hmin.
      * intros [|j] x Hj Hx; [lia|]. simpl in Hx.
        apply Qlt_le_trans with (key w); [exact E|].
        apply Hmin. eapply nth_error_In; exact Hx.
    + apply Qltb_ge in E. exists w, (S i). repeat split; auto.
      * intros x [<-|Hx]; [exact E|now apply Hmin].
      * intros [|j] x Hj Hx; [lia|]. simpl in Hx.
        apply (Hlast j); [lia|exact Hx].
Qed.

End Extremes.

(** ** [generateShortsSummary] *)

Lemma views_cmp_key (a b : ShortsData) :
  0 < inject_Z (viewCount (video b) - viewCount (video a))
  <-> inject_Z (viewCount (video a)) < inject_Z (viewCount (video b)).
Proof.
  change 0 with (inject_Z 0). rewrite <- !Zlt_Qlt. lia.
Qed.

Lemma generateShortsSummary_performers (shorts : list ShortsData) :
  shorts <> [] ->
  bestPerformer (generateShortsSummary shorts)
  = hd_error (sortedByViewsDescending shorts)
  /\ worstPerformer (generateShortsSummary shorts)
     = last_opt (sortedByViewsDescending shorts).
Proof.
  intro H. unfold generateShortsSummary.
  destruct shorts as [|s ss]; [congruence|].
  change (List.length (s :: ss) =? 0)%nat with false. cbv iota zeta.
  cbn [bestPerformer worstPerformer].
  fold (sortedByViewsDescending (s :: ss)).
  split; [apply at_index_0|apply at_index_last].
Qed.

(** C8, as the code has it: for a non-empty batch the best performer is the
    first item with the greatest [viewCount] and the worst performer is the
    last item with the least [viewCount]; they are the first and the last
    element of one stable sort by [viewCount], descending. *)
Theorem generateShortsSummary_best_worst (shorts : list ShortsData) :
  shorts <> [] ->
  exists b w,
    bestPerformer (generateShortsSummary shorts) = Some b
    /\ worstPerformer (generateShortsSummary shorts) = Some w
    /\ first_with_max_views shorts b
    /\ last_with_min_views shorts w
    /\ hd_error (sortedByViewsDescending shorts) = Some b
    /\ last_opt (sortedByViewsDescending shorts) = Some w.
Proof.
  intro H.
  destruct (generateShortsSummary_performers shorts H) as [Eb Ew].
  destruct (js_sort_head _ _ views_cmp_key shorts H)
    as [b [i [Hb [Hi [Hmax Hfirst]]]]].
  destruct (js_sort_last _ _ views_cmp_key shorts H)
    as [w [j [Hw [Hj [Hmin Hlast]]]]].
  fold (sortedByViewsDescending shorts) in Hb, Hw.
  exists b, w. rewrite Eb, Ew.
  split; [exact Hb|]. split; [exact Hw|].
  split; [|split; [|split; assumption]].
  - exists i. split; [exact Hi|]. split.
    + intros x Hx. rewrite Zle_Qle. now apply Hmax.
    + intros k x Hk Hx. rewrite Zlt_Qlt. now apply (Hfirst k).
  - exists j. split; [exact Hj|]. split.
    + intros x Hx. rewrite Zle_Qle. now apply Hmin.
    + intros k x Hk Hx. rewrite Zlt_Qlt. now apply (Hlast k).
Qed.

Lemma generateShortsSummary_best_worst_witness :
  tied_views <> []
  /\ exists b w,
       bestPerformer (generateShortsSummary tied_views) = Some b
       /\ worstPerformer (generateShortsSummary tied_views) = Some w
       /\ first_with_max_views tied_views b
       /\ last_with_min_views tied_views w
       /\ hd_error (sortedByViewsDescending tied_views) = Some b
       /\ last_opt (sortedByViewsDescending tied_views) = Some w.
Proof.
  split.
  - discriminate.
  - apply (generateShortsSummary_best_worst tied_views). discriminate.
Defined.

(** C8 fails as stated: when views tie, the first and last elements of a
    stable ascending sort are not the code's performers.  On the batch with
    ties the code's best performer is [a] and its worst is [d]; the
    ascending sort ends with [b], the last of the most viewed, and starts
    with [c], the first of the least viewed. *)
Lemma ascending_sort_breaks_ties_differently :
  option_map (fun s => id (video s))
    (bestPerformer (generateShortsSummary tied_views)) = Some "a"%string
  /\ option_map (fun s => id (video s))
       (worstPerformer (generateShortsSummary tied_views)) = Some "d"%string
  /\ map (fun s => id (video s)) (sortedByViewsAscending tied_views)
     = ["c"; "d"; "a"; "b"]%string
  /\ bestPerformer (generateShortsSummary tied_views)
     <> last_opt (sortedByViewsAscending tied_views)
  /\ worstPerformer (generateShortsSummary tied_views)
     <> hd_error (sortedByViewsAscending tied_views).
Proof.
  split; [vm_compute; reflexivity|]. split; [vm_compute; reflexivity|].
  split; [vm_compute; reflexivity|].
  split; intro H;
    apply (f_equal (option_map (fun s => id (video s)))) in H;
    vm_compute in H; discriminate H.
Qed.

(** C9: the summary of an empty batch has no Shorts, zero counts and zero
    means, no best and no worst performer, and the one default
    recommendation. *)
Theorem generateShortsSummary_empty :
  totalShorts (generateShortsSummary []) = 0%nat
  /\ viralCount (generateShortsSummary []) = 0%nat
  /\ poorCount (generateShortsSummary []) = 0%nat
  /\ avgViews (generateShortsSummary []) = 0%Z
  /\ avgEngagement (generateShortsSummary []) == 0
  /\ bestPerformer (generateShortsSummary []) = None
  /\ worstPerformer (generateShortsSummary []) = None
  /\ recommendations (generateShortsSummary []) = [NoShorts]
  /\ recommendations (generateShortsSummary []) <> [].
Proof.
  unfold generateShortsSummary. simpl.
  repeat split; try reflexivity. discriminate.
Qed.

(** The summary of every batch carries at least one recommendation. *)
Lemma generateShortsSummary_recommends (shorts : list ShortsData) :
  recommendations (generateShortsSummary shorts) <> [].
Proof.
  unfold generateShortsSummary.
  destruct (List.length shorts =? 0)%nat; [discriminate|].
  cbv zeta. cbn [recommendations].
  match goal with
  | |- (if (List.length ?p =? 0)%nat then _ else _) <> [] =>
      destruct p eqn:E; [discriminate|]
  end.
  simpl. discriminate.
Qed.

(** ** Duration parsing *)

Local Open Scope string_scope.

Lemma append_assoc (a b c : string) : (a ++ b) ++ c = a ++ (b ++ c).
Proof. induction a as [|x a IH]; simpl; [reflexivity|now rewrite IH]. Qed.

Lemma append_empty_r (a : string) : a ++ "" = a.
Proof. induction a as [|x a IH]; simpl; [reflexivity|now rewrite IH]. Qed.

Lemma append_nonempty (a r : string) (c : ascii) :
  a ++ String c r <> EmptyString.
Proof. destruct a; discriminate. Qed.

Lemma digit_char (d : N) :
  (d < 10)%N ->
  is_digit (ascii_of_N (48 + d)) = true
  /\ digit_value (ascii_of_N (48 + d)) = Z.of_N d.
Proof.
  intro H.
  assert (C : (d = 0 \/ d = 1 \/ d = 2 \/ d = 3 \/ d = 4 \/ d = 5 \/ d = 6
               \/ d = 7 \/ d = 8 \/ d = 9)%N) by lia.
  repeat (destruct C as [->|C]; [split; reflexivity|]).
  subst. split; reflexivity.
Qed.

Lemma all_digits_app (a b : string) :
  all_digits (a ++ b) = all_digits a && all_digits b.
Proof.
  induction a as [|x a IH]; simpl; [reflexivity|].
  now rewrite IH, andb_assoc.
Qed.

Lemma decimal_fuel_S (fuel : nat) (n : N) :
  decimal_fuel (S fuel) n
  = (if (n <? 10)%N then EmptyString else decimal_fuel fuel (n / 10)%N)
    ++ String (ascii_of_N (48 + n mod 10)) EmptyString.
Proof. reflexivity. Qed.

Lemma decimal_fuel_digits (fuel : nat) (n : N) :
  all_digits (decimal_fuel fuel n) = true.
Proof.
  revert n. induction fuel as [|f IH]; intro n; [reflexivity|].
  rewrite decimal_fuel_S, all_digits_app. cbn [all_digits].
  destruct (digit_char (n mod 10)) as [D _];
    [apply N.mod_upper_bound; discriminate|].
  rewrite D. destruct (n <? 10)%N; [reflexivity|]. now rewrite IH.
Qed.

Lemma decimal_nonempty (n : N) :
  exists d ds, decimal n = String d ds /\ is_digit d = true.
Proof.
  pose proof (decimal_fuel_digits (S (N.to_nat (N.size n))) n) as D.
  fold (decimal n) in D.
  destruct (decimal n) as [|d ds] eqn:E.
  - unfold decimal in E. rewrite decimal_fuel_S in E.
    now apply append_nonempty in E.
  - simpl in D. apply andb_prop in D. exists d, ds. tauto.
Qed.

(** Reading the digits of [n] gives [n] back. *)
Lemma parse_decimal_fuel (fuel : nat) (n : N) (rest : string) :
  (n < 2 ^ N.of_nat fuel)%N ->
  parse_digits 0 (decimal_fuel (S fuel) n ++ rest)
  = parse_digits (Z.of_N n) rest.
Proof.
  revert n rest. induction fuel as [|f IH]; intros n rest H.
  - assert (n = 0%N) by (simpl in H; lia). subst. reflexivity.
  - rewrite (decimal_fuel_S (S f)).
    destruct (digit_char (n mod 10)) as [D V];
      [apply N.mod_upper_bound; discriminate|].
    rewrite append_assoc.
    change (String (ascii_of_N (48 + n mod 10)) EmptyString ++ rest)
      with (String (ascii_of_N (48 + n mod 10)) rest).
    destruct (n <? 10)%N eqn:E.
    + apply N.ltb_lt in E. cbn [append parse_digits]. rewrite D, V.
      rewrite N.mod_small by exact E. reflexivity.
    + apply N.ltb_ge in E. rewrite IH.
      * cbn [parse_digits]. rewrite D, V. f_equal.
        pose proof (N.div_mod n 10 ltac:(discriminate)). lia.
      * apply N.Div0.div_lt_upper_bound.
        rewrite Nat2N.inj_succ, N.pow_succ_r' in H. lia.
Qed.

Lemma parse_decimal (n : N) (rest : string) :
  parse_digits 0 (decimal n ++ rest) = parse_digits (Z.of_N n) rest.
Proof.
  apply parse_decimal_fuel. rewrite N2Nat.id. apply N.size_gt.
Qed.

Lemma span_digits_app (ds rest : string) (c : ascii) :
  all_digits ds = true -> is_digit c = false ->
  span_digits (ds ++ String c rest) = (ds, String c rest).
Proof.
  intros D C. induction ds as [|d ds IH]; simpl in *.
  - now rewrite C.
  - apply andb_prop in D. destruct D as [D1 D2]. rewrite D1, IH by exact D2.
    reflexivity.
Qed.

Lemma group_hit (marker : ascii) (n : N) (rest : string) :
  is_digit marker = false ->
  group marker (decimal n ++ String marker rest)
  = (Some (decimal n ++ String marker "", decimal n), rest).
Proof.
  intro M. unfold group.
  rewrite span_digits_app
    by (try exact M; apply decimal_fuel_digits).
  destruct (decimal_nonempty n) as [d [ds [E _]]]. rewrite E.
  now rewrite Ascii.eqb_refl.
Qed.

Lemma group_miss (marker c : ascii) (n : N) (rest : string) :
  is_digit c = false -> Ascii.eqb c marker = false ->
  group marker (decimal n ++ String c rest)
  = (None, decimal n ++ String c rest).
Proof.
  intros C M. unfold group.
  rewrite span_digits_app by (try exact C; apply decimal_fuel_digits).
  destruct (decimal_nonempty n) as [d [ds [E _]]]. rewrite E.
  now rewrite M.
Qed.

Lemma parseInt_component (n : N) (marker : ascii) :
  is_digit marker = false ->
  or_zero (parseInt (decimal n ++ String marker "")) = Z.of_N n.
Proof.
  intro M. destruct (decimal_nonempty n) as [d [ds [E D]]].
  assert (P : parseInt (decimal n ++ String marker EmptyString)
              = Some (parse_digits 0
                        (decimal n ++ String marker EmptyString))).
  { rewrite E. cbn [append]. unfold parseInt. now rewrite D. }
  rewrite P, parse_decimal. cbn [parse_digits]. rewrite M.
  unfold or_zero. destruct (Z.eqb_spec (Z.of_N n) 0); congruence.
Qed.

Lemma after_PT_prefix (rest : string) : after_PT ("PT" ++ rest) = Some rest.
Proof. reflexivity. Qed.

Lemma after_PT_cons (c c' : ascii) (r : string) :
  after_PT (String c (String c' r))
  = if Ascii.eqb c "P" && Ascii.eqb c' "T" then Some r
    else after_PT (String c' r).
Proof. reflexivity. Qed.

Lemma component_some (n : N) (marker : ascii) (rest : string) :
  component (Some n) marker ++ rest = decimal n ++ String marker rest.
Proof. unfold component. now rewrite append_assoc. Qed.

Lemma component_none (marker : ascii) (rest : string) :
  component None marker ++ rest = rest.
Proof. reflexivity. Qed.

Lemma group_empty (marker : ascii) :
  group marker EmptyString = (None, EmptyString).
Proof. reflexivity. Qed.

(** The canonical encoding of any subset of the components parses to
    [hours * 3600 + minutes * 60 + seconds], an absent component counting
    as 0. *)
Lemma parseDuration_encode (hours minutes seconds : option N) :
  parseDuration (encodeDuration hours minutes seconds)
  = (component_value hours * 3600 + component_value minutes * 60
     + component_value seconds)%Z.
Proof.
  unfold encodeDuration, parseDuration, match_duration.
  rewrite after_PT_prefix.
  rewrite <- (append_empty_r (component seconds "S")).
  destruct hours as [h|], minutes as [m|], seconds as [s|];
    rewrite ?component_some, ?component_none;
    repeat (first [ rewrite group_hit by reflexivity
                  | rewrite group_miss by reflexivity
                  | rewrite group_empty ]; cbv beta iota);
    cbn [hoursGroup minutesGroup secondsGroup option_map fst parseInt_opt
         component_value];
    rewrite ?parseInt_component by reflexivity;
    cbn [or_zero]; lia.
Qed.

Lemma after_PT_occurs (s r : string) :
  after_PT s = Some r -> exists a, s = a ++ "PT" ++ r.
Proof.
  induction s as [|c s IH]; [discriminate|].
  destruct s as [|c' r']; [discriminate|].
  rewrite after_PT_cons.
  destruct (Ascii.eqb c "P" && Ascii.eqb c' "T") eqn:E.
  - intro H. injection H as <-. apply andb_prop in E. destruct E as [E1 E2].
    apply Ascii.eqb_eq in E1, E2. subst. now exists EmptyString.
  - intro H. destruct (IH H) as [a Ha]. exists (String c a).
    simpl. now rewrite Ha.
Qed.

Lemma parseDuration_unparsable (s : string) :
  unparsable s -> parseDuration s = 0%Z.
Proof.
  intro U. unfold parseDuration, match_duration.
  destruct (after_PT s) as [r|] eqn:E; [|reflexivity].
  destruct (after_PT_occurs s r E) as [a Ha]. now apply U in Ha.
Qed.

Lemma blank_no_PT (s : string) : is_blank s = true -> after_PT s = None.
Proof.
  induction s as [|c s IH]; [reflexivity|].
  cbn [is_blank]. intro B. apply andb_prop in B. destruct B as [Bc Bs].
  destruct s as [|c' r]; [reflexivity|].
  rewrite after_PT_cons.
  assert (E : Ascii.eqb c "P" = false).
  { destruct (Ascii.eqb_spec c "P") as [->|]; [discriminate Bc|reflexivity]. }
  rewrite E. now apply IH.
Qed.

Lemma span_digits_all (s : string) :
  all_digits (fst (span_digits s)) = true.
Proof.
  induction s as [|c s IH]; [reflexivity|]. cbn [span_digits].
  destruct (is_digit c) eqn:D; [|reflexivity].
  destruct (span_digits s) as [ds rest]. cbn [fst all_digits] in *.
  now rewrite D, IH.
Qed.

Lemma parse_digits_stop (ds rest : string) (c : ascii) (acc : Z) :
  all_digits ds = true -> is_digit c = false ->
  parse_digits acc (ds ++ String c rest) = parse_digits acc ds.
Proof.
  intros D C. revert acc. induction ds as [|d ds IH]; intro acc;
    cbn [append parse_digits].
  - now rewrite C.
  - cbn [all_digits] in D. apply andb_prop in D. destruct D as [D1 D2].
    rewrite D1. now apply IH.
Qed.

(** A capture read as a whole group, marker included, or as its digits, is
    the same number. *)
Lemma group_values (marker : ascii) (s r : string)
  (g : option (string * string)) :
  is_digit marker = false ->
  group marker s = (g, r) ->
  or_zero (parseInt_opt (option_map fst g))
  = match parseInt (or_zero_string (option_map snd g)) with
    | Some n => n
    | None => 0%Z
    end.
Proof.
  intros M G. unfold group in G.
  pose proof (span_digits_all s) as A.
  destruct (span_digits s) as [ds rest]. cbn [fst] in A.
  destruct ds as [|d ds]; [injection G as <- _; reflexivity|].
  destruct rest as [|c rest]; [injection G as <- _; reflexivity|].
  destruct (Ascii.eqb c marker) eqn:E; [|injection G as <- _; reflexivity].
  apply Ascii.eqb_eq in E. subst c. injection G as <- _.
  cbn [option_map fst snd parseInt_opt or_zero_string].
  pose proof A as A'. cbn [all_digits] in A'. apply andb_prop in A'.
  destruct A' as [D _].
  assert (P1 : parseInt (String d (ds ++ String marker EmptyString))
               = Some (parse_digits 0 (String d ds))).
  { rewrite <- (parse_digits_stop (String d ds) EmptyString marker 0 A M).
    cbn [append]. unfold parseInt. now rewrite D. }
  cbn [append].
  assert (P2 : parseInt (String d ds) = Some (parse_digits 0 (String d ds))).
  { unfold parseInt. now rewrite D. }
  rewrite P1, P2. unfold or_zero.
  destruct (Z.eqb_spec (parse_digits 0 (String d ds)) 0); congruence.
Qed.

(** The two versions of [parseDuration] agree on every string. *)
Lemma utils_parseDuration_agrees (s : string) :
  utils_parseDuration (Some s) = parseDuration s.
Proof.
  unfold utils_parseDuration, parseDuration, match_duration.
  destruct (is_blank s) eqn:B.
  - now rewrite blank_no_PT.
  - destruct (after_PT s) as [r|]; [|reflexivity].
    destruct (group "H" r) as [h r1] eqn:G1.
    destruct (group "M" r1) as [m r2] eqn:G2.
    destruct (group "S" r2) as [sec r3] eqn:G3.
    cbn [hoursGroup minutesGroup secondsGroup].
    rewrite (group_values "H" r r1 h eq_refl G1).
    rewrite (group_values "M" r1 r2 m eq_refl G2).
    rewrite (group_values "S" r2 r3 sec eq_refl G3).
    reflexivity.
Qed.

(** C7: the canonical encoding of any components parses to
    [hours * 3600 + minutes * 60 + seconds] with an absent component
    counting as 0; a string the pattern does not match parses to 0, and so
    does an absent one for the null-safe version, which otherwise agrees
    with the service's; [PT1H30M45S] gives 5445, [PT5M] gives 300, and the
    empty string and a string without the marker give 0. *)
Theorem parseDuration_spec :
  (forall hours minutes seconds : option N,
      parseDuration (encodeDuration hours minutes seconds)
      = (component_value hours * 3600 + component_value minutes * 60
         + component_value seconds)%Z)
  /\ (forall s, unparsable s -> parseDuration s = 0%Z)
  /\ (forall s, utils_parseDuration (Some s) = parseDuration s)
  /\ utils_parseDuration None = 0%Z
  /\ encodeDuration (Some 1%N) (Some 30%N) (Some 45%N) = "PT1H30M45S"
  /\ parseDuration "PT1H30M45S" = 5445%Z
  /\ encodeDuration None (Some 5%N) None = "PT5M"
  /\ parseDuration "PT5M" = 300%Z
  /\ parseDuration EmptyString = 0%Z
  /\ parseDuration "garbage" = 0%Z.
Proof.
  split; [exact parseDuration_encode|].
  split; [exact parseDuration_unparsable|].
  split; [exact utils_parseDuration_agrees|].
  repeat split; reflexivity.
Qed.

(** The pattern is not anchored: text around a match is ignored. *)
Lemma parseDuration_unanchored : parseDuration "xxPT9Hyy" = 32400%Z.
Proof. reflexivity. Qed.

(** * Further properties of the code *)

Local Close Scope string_scope.

(** ** Ranks and tier shares *)

Section Ranks.

Context {A : Type}.
Variable ident : A -> string.

(** [findIndex] by identifier stops at or before the position of the item
    itself. *)
Lemma find_pos_le (l : list A) (i : nat) (x : A) :
  nth_error l i = Some x ->
  exists r, find_pos (fun s => String.eqb (ident s) (ident x)) l = Some r
            /\ (r <= i)%nat.
Proof.
  revert i. induction l as [|a l IH]; intros [|i] H; simpl in H;
    try discriminate.
  - injection H as ->. exists 0%nat. simpl. rewrite String.eqb_refl.
    split; [reflexivity|lia].
  - simpl. destruct (String.eqb (ident a) (ident x)).
    + exists 0%nat. split; [reflexivity|lia].
    + destruct (IH i H) as [r [E L]]. exists (S r). rewrite E.
      split; [reflexivity|lia].
Qed.

(** With distinct identifiers it stops at the item itself. *)
Lemma find_pos_nodup (l : list A) (i : nat) (x : A) :
  NoDup (map ident l) -> nth_error l i = Some x ->
  find_pos (fun s => String.eqb (ident s) (ident x)) l = Some i.
Proof.
  revert i. induction l as [|a l IH]; intros [|i] N H; simpl in H;
    try discriminate.
  - injection H as ->. simpl. now rewrite String.eqb_refl.
  - inversion N as [|? ? Hnot N']; subst. simpl.
    assert (E : String.eqb (ident a) (ident x) = false).
    { apply String.eqb_neq. intro E. apply Hnot. rewrite E.
      apply in_map. eapply nth_error_In; exact H. }
    rewrite E, (IH i N' H). reflexivity.
Qed.

End Ranks.

(** Items whose rank is at most their position: at least the first [t]
    positions are below [t]. *)
Lemma count_below_ge {A : Type} (f : A -> Z) (t : Z) (l : list A) (k : Z) :
  (forall i x, nth_error l i = Some x -> (f x <= Z.of_nat i + k)%Z) ->
  (Z.min (Z.of_nat (List.length l)) (t - k)
   <= Z.of_nat (List.length (filter (fun x => (f x <? t)%Z) l)))%Z.
Proof.
  revert k. induction l as [|a l IH]; intros k H.
  - simpl. lia.
  - assert (Ha : (f a <= k)%Z) by (apply (H 0%nat a); reflexivity).
    assert (Hl : forall i x, nth_error l i = Some x ->
                   (f x <= Z.of_nat i + (k + 1))%Z).
    { intros i x Hx. specialize (H (S i) x Hx). lia. }
    specialize (IH (k + 1)%Z Hl). cbn [filter].
    destruct (Z.ltb_spec (f a) t); cbn [List.length]; lia.
Qed.

Lemma count_below_eq {A : Type} (f : A -> Z) (t : Z) (l : list A) (k : Z) :
  (forall i x, nth_error l i = Some x -> (f x = Z.of_nat i + k)%Z) ->
  Z.of_nat (List.length (filter (fun x => (f x <? t)%Z) l))
  = Z.max 0 (Z.min (Z.of_nat (List.length l)) (t - k)).
Proof.
  revert k. induction l as [|a l IH]; intros k H.
  - simpl. lia.
  - assert (Ha : (f a = k)%Z) by (apply (H 0%nat a); reflexivity).
    assert (Hl : forall i x, nth_error l i = Some x ->
                   (f x = Z.of_nat i + (k + 1))%Z).
    { intros i x Hx. specialize (H (S i) x Hx). lia. }
    specialize (IH (k + 1)%Z Hl). cbn [filter].
    destruct (Z.ltb_spec (f a) t); cbn [List.length]; lia.
Qed.

(** The comparison of a percentile with a whole threshold, on integers. *)
Lemma percent_ltb (r : Z) (n : nat) (t : Z) :
  (0 < n)%nat ->
  Qltb ((inject_Z r / Qnat n) * 100) (inject_Z t)
  = (100 * r <? t * Z.of_nat n)%Z.
Proof.
  intro Hn. unfold Qnat.
  assert (Hq : 0 < inject_Z (Z.of_nat n)).
  { change 0 with (inject_Z 0). rewrite <- Zlt_Qlt. lia. }
  assert (E : inject_Z r / inject_Z (Z.of_nat n) * 100
              == inject_Z (100 * r) / inject_Z (Z.of_nat n)).
  { rewrite inject_Z_mult. change (inject_Z 100) with 100. field. lra. }
  assert (F : inject_Z (t * Z.of_nat n)
              == inject_Z t * inject_Z (Z.of_nat n))
    by (rewrite inject_Z_mult; reflexivity).
  destruct (Z.ltb_spec (100 * r) (t * Z.of_nat n)) as [L|L].
  - apply Qltb_lt. rewrite E. apply Qlt_shift_div_r; [exact Hq|].
    rewrite <- F. now rewrite <- Zlt_Qlt.
  - apply Qltb_ge. rewrite E. apply Qle_shift_div_l; [exact Hq|].
    rewrite <- F. now rewrite <- Zle_Qle.
Qed.

Lemma tier_index_limit (t : ShortsPerformance) (p : Q) :
  t <> POOR ->
  (tier_index (tierOfPercent p) <=? tier_index t)%nat
  = Qltb p (inject_Z (Z.of_nat (tier_limit t))).
Proof.
  intro Ht. unfold tierOfPercent.
  destruct (Qltb p 10) eqn:E10; destruct (Qltb p 30) eqn:E30;
    destruct (Qltb p 60) eqn:E60; destruct (Qltb p 80) eqn:E80;
    try apply Qltb_lt in E10; try apply Qltb_lt in E30;
    try apply Qltb_lt in E60; try apply Qltb_lt in E80;
    try apply Qltb_ge in E10; try apply Qltb_ge in E30;
    try apply Qltb_ge in E60; try apply Qltb_ge in E80;
    try (exfalso; lra);
    destruct t; try congruence; simpl;
    symmetry; first [ apply Qltb_lt | apply Qltb_ge ];
    change (inject_Z 10) with 10; change (inject_Z 30) with 30;
    change (inject_Z 60) with 60; change (inject_Z 80) with 80; lra.
Qed.

(** Whether an item gets the tier [t] or a better one is a bound on its
    rank in the sorted copy. *)
Lemma withPerformance_rank (sorted : list ShortsData) (t : ShortsPerformance)
  (x : ShortsData) :
  sorted <> [] -> t <> POOR ->
  (tier_index (performance (withPerformance sorted x)) <=? tier_index t)%nat
  = (100 * rankOf sorted x
     <? Z.of_nat (tier_limit t) * Z.of_nat (List.length sorted))%Z.
Proof.
  intros Hne Ht. unfold withPerformance. cbn [performance].
  rewrite tier_index_limit by exact Ht.
  unfold percentileOf. apply percent_ltb.
  destruct sorted; [congruence|simpl; lia].
Qed.

Lemma tier_index_max (t : ShortsPerformance) : (tier_index t <= 4)%nat.
Proof. destruct t; simpl; lia. Qed.

Lemma count_at_least_poor (l : list ShortsData) :
  count_at_least POOR l = List.length l.
Proof.
  unfold count_at_least. induction l as [|a l IH]; [reflexivity|].
  cbn [filter]. 
  assert (E : (tier_index (performance a) <=? tier_index POOR)%nat = true)
    by (apply Nat.leb_le, tier_index_max).
  rewrite E. cbn [List.length]. f_equal. exact IH.
Qed.

Lemma rankOf_position (sorted : list ShortsData) (i : nat) (x : ShortsData) :
  nth_error sorted i = Some x ->
  (0 <= rankOf sorted x <= Z.of_nat i)%Z.
Proof.
  intro H. unfold rankOf, findIndex.
  destruct (find_pos_le (fun s => id (video s)) sorted i x H) as [r [E L]].
  rewrite E. lia.
Qed.

Lemma rankOf_position_nodup (sorted : list ShortsData) (i : nat)
  (x : ShortsData) :
  NoDup (map (fun s => id (video s)) sorted) ->
  nth_error sorted i = Some x ->
  rankOf sorted x = Z.of_nat i.
Proof.
  intros N H. unfold rankOf, findIndex.
  now rewrite (find_pos_nodup (fun s => id (video s)) sorted i x N H).
Qed.

(** The count of the items with tier [t] or better, taken on the sorted
    copy. *)
Lemma count_at_least_sorted (videos : list VideoData)
  (subscriberCount : option Z) (t : ShortsPerformance) :
  filter isShort videos <> [] -> t <> POOR ->
  let sorted :=
    js_sort (fun a b => engagementRate b - engagementRate a)
      (map (withEngagement subscriberCount) (filter isShort videos)) in
  count_at_least t (analyzeShortsPerformance videos subscriberCount)
  = List.length
      (filter (fun x => (rankOf sorted x
                         <? (Z.of_nat (tier_limit t)
                             * Z.of_nat (List.length sorted) + 99) / 100)%Z)
         sorted)
  /\ List.length sorted
     = List.length (analyzeShortsPerformance videos subscriberCount)
  /\ Permutation sorted
       (map (withEngagement subscriberCount) (filter isShort videos)).
Proof.
  intros Hne Ht sorted.
  rewrite analyzeShortsPerformance_unfold by exact Hne.
  fold sorted.
  set (swe := map (withEngagement subscriberCount) (filter isShort videos))
    in *.
  pose proof (js_sort_perm (fun a b => engagementRate b - engagementRate a)
                swe) as P.
  fold sorted in P.
  assert (Hs : sorted <> []).
  { intro E. rewrite E in P. apply Permutation_nil in P.
    unfold swe in P. apply map_eq_nil in P. contradiction. }
  split; [|split].
  - unfold count_at_least. rewrite filter_map_length.
    rewrite (filter_length_perm _ swe sorted (Permutation_sym P)).
    f_equal. apply filter_ext. intro x.
    rewrite withPerformance_rank by assumption.
    destruct (Z.ltb_spec (100 * rankOf sorted x)
                (Z.of_nat (tier_limit t) * Z.of_nat (List.length sorted)));
      symmetry; [apply Z.ltb_lt|apply Z.ltb_ge];
      Z.to_euclidean_division_equations; lia.
  - rewrite length_map. now apply Permutation_length.
  - exact P.
Qed.

Lemma rankOf_le_position (sorted : list ShortsData) :
  forall i x, nth_error sorted i = Some x ->
    (rankOf sorted x <= Z.of_nat i + 0)%Z.
Proof.
  intros i x H. pose proof (rankOf_position sorted i x H). lia.
Qed.

Lemma count_at_least_ge (videos : list VideoData)
  (subscriberCount : option Z) (t : ShortsPerformance) :
  (tier_limit t
   * List.length (analyzeShortsPerformance videos subscriberCount)
   <= 100 * count_at_least t
              (analyzeShortsPerformance videos subscriberCount))%nat.
Proof.
  destruct (filter isShort videos) as [|v vs] eqn:F.
  - rewrite analyzeShortsPerformance_no_shorts by exact F. simpl. lia.
  - assert (Hne : filter isShort videos <> [])
      by (rewrite F; discriminate).
    clear F.
    assert (Hp : t = POOR \/ t <> POOR)
      by (destruct t; (now left) || (right; discriminate)).
    destruct Hp as [->|Ht].
    + rewrite count_at_least_poor. simpl tier_limit. lia.
    + destruct (count_at_least_sorted videos subscriberCount t Hne Ht)
        as [C [L _]].
      rewrite C, <- L. clear C L.
      match goal with
      | |- context [filter (fun x => (rankOf ?s x <? ?c)%Z) ?s] =>
          pose proof (count_below_ge (rankOf s) c s 0
                        (rankOf_le_position s)) as G
      end.
      assert (Hl : (tier_limit t <= 100)%nat) by (destruct t; simpl; lia).
      revert G. Z.to_euclidean_division_equations. nia.
Qed.

(** X1: at least [tier_limit t] percent of the classified Shorts get the
    tier [t] or a better one, whatever the identifiers. *)
Theorem analyzeShortsPerformance_tier_share (videos : list VideoData)
  (subscriberCount : option Z) (t : ShortsPerformance) :
  (tier_limit t
   * List.length (analyzeShortsPerformance videos subscriberCount)
   <= 100 * count_at_least t
              (analyzeShortsPerformance videos subscriberCount))%nat.
Proof. apply count_at_least_ge. Qed.

Lemma sorted_ids_nodup (videos : list VideoData) (subscriberCount : option Z)
  (sorted : list ShortsData) :
  NoDup (map id (filter isShort videos)) ->
  Permutation sorted
    (map (withEngagement subscriberCount) (filter isShort videos)) ->
  NoDup (map (fun s => id (video s)) sorted).
Proof.
  intros N P.
  apply (Permutation_NoDup
           (l := map (fun s => id (video s))
                   (map (withEngagement subscriberCount)
                      (filter isShort videos)))).
  - apply Permutation_map, Permutation_sym, P.
  - now rewrite withEngagement_ids.
Qed.

Lemma rankOf_eq_position (sorted : list ShortsData) :
  NoDup (map (fun s => id (video s)) sorted) ->
  forall i x, nth_error sorted i = Some x ->
    (rankOf sorted x = Z.of_nat i + 0)%Z.
Proof.
  intros N i x H. rewrite (rankOf_position_nodup sorted i x N H). lia.
Qed.

(** X2: with distinct identifiers the number of Shorts with the tier [t] or
    a better one is [tier_limit t] percent of the batch, rounded up. *)
Theorem analyzeShortsPerformance_tier_counts (videos : list VideoData)
  (subscriberCount : option Z) (t : ShortsPerformance) :
  NoDup (map id (filter isShort videos)) ->
  (tier_limit t
   * List.length (analyzeShortsPerformance videos subscriberCount)
   <= 100 * count_at_least t
              (analyzeShortsPerformance videos subscriberCount)
   < tier_limit t
     * List.length (analyzeShortsPerformance videos subscriberCount)
     + 100)%nat.
Proof.
  intro N.
  destruct (filter isShort videos) as [|v vs] eqn:F.
  - rewrite analyzeShortsPerformance_no_shorts by exact F. simpl. lia.
  - assert (Hne : filter isShort videos <> [])
      by (rewrite F; discriminate).
    rewrite <- F in N. clear F.
    assert (Hp : t = POOR \/ t <> POOR)
      by (destruct t; (now left) || (right; discriminate)).
    destruct Hp as [->|Ht].
    + rewrite count_at_least_poor. simpl tier_limit. lia.
    + destruct (count_at_least_sorted videos subscriberCount t Hne Ht)
        as [C [L P]].
      rewrite C, <- L. clear C L.
      pose proof (sorted_ids_nodup videos subscriberCount _ N P) as Ns.
      match goal with
      | |- context [filter (fun x => (rankOf ?s x <? ?c)%Z) ?s] =>
          pose proof (count_below_eq (rankOf s) c s 0
                        (rankOf_eq_position s Ns)) as G
      end.
      assert (Hl : (tier_limit t <= 100)%nat) by (destruct t; simpl; lia).
      revert G. Z.to_euclidean_division_equations. nia.
Qed.

Lemma analyzeShortsPerformance_tier_counts_witness :
  NoDup (map id (filter isShort batch_of_ten))
  /\ (tier_limit VIRAL
      * List.length (analyzeShortsPerformance batch_of_ten None)
      <= 100 * count_at_least VIRAL
                 (analyzeShortsPerformance batch_of_ten None)
      < tier_limit VIRAL
        * List.length (analyzeShortsPerformance batch_of_ten None)
        + 100)%nat.
Proof.
  split; [exact batch_of_ten_ids|].
  apply (analyzeShortsPerformance_tier_counts batch_of_ten None VIRAL).
  exact batch_of_ten_ids.
Defined.

Lemma StronglySorted_nth_error {A : Type} (R : A -> A -> Prop) (l : list A) :
  StronglySorted R l ->
  forall i j a b, (i < j)%nat ->
    nth_error l i = Some a -> nth_error l j = Some b -> R a b.
Proof.
  induction 1 as [|x l Hl IH Hx]; intros i j a b Hij Ha Hb.
  - destruct i; discriminate.
  - destruct j as [|j]; [lia|]. simpl in Hb. destruct i as [|i].
    + simpl in Ha. injection Ha as <-.
      rewrite Forall_forall in Hx. apply Hx. eapply nth_error_In; exact Hb.
    + simpl in Ha. apply (IH i j); [lia|assumption|assumption].
Qed.

(** X3: with distinct identifiers, a Short with a strictly greater
    engagement rate never gets a worse tier. *)
Theorem analyzeShortsPerformance_tier_order (videos : list VideoData)
  (subscriberCount : option Z) (s t : ShortsData) :
  NoDup (map id (filter isShort videos)) ->
  In s (analyzeShortsPerformance videos subscriberCount) ->
  In t (analyzeShortsPerformance videos subscriberCount) ->
  engagementRate t < engagementRate s ->
  (tier_index (performance s) <= tier_index (performance t))%nat.
Proof.
  intros N Hs Ht Hlt.
  destruct (filter isShort videos) as [|v vs] eqn:F.
  { rewrite analyzeShortsPerformance_no_shorts in Hs by exact F.
    contradiction. }
  assert (Hne : filter isShort videos <> []) by (rewrite F; discriminate).
  rewrite <- F in N. clear F.
  rewrite analyzeShortsPerformance_unfold in Hs, Ht by exact Hne.
  set (swe := map (withEngagement subscriberCount) (filter isShort videos))
    in *.
  set (cmp := fun a b : ShortsData => engagementRate b - engagementRate a)
    in *.
  pose proof (js_sort_perm cmp swe) as P.
  pose proof (js_sort_descending cmp engagementRate engagement_cmp_key swe)
    as D.
  pose proof (sorted_ids_nodup videos subscriberCount _ N P) as Ns.
  set (sorted := js_sort cmp swe) in *.
  apply in_map_iff in Hs. destruct Hs as [x [<- Hx]].
  apply in_map_iff in Ht. destruct Ht as [y [<- Hy]].
  cbn [withPerformance engagementRate] in Hlt.
  apply (Permutation_in _ (Permutation_sym P)) in Hx, Hy.
  destruct (In_nth_error _ _ Hx) as [i Hi].
  destruct (In_nth_error _ _ Hy) as [j Hj].
  assert (Hij : (i <= j)%nat).
  { destruct (Nat.le_gt_cases i j) as [L|L]; [exact L|]. exfalso.
    pose proof (StronglySorted_nth_error _ _ D j i y x L Hj Hi) as K.
    simpl in K. apply (Qlt_irrefl (engagementRate x)).
    now apply Qle_lt_trans with (engagementRate y). }
  assert (Hs : sorted <> []) by (intro E; rewrite E in Hx; contradiction).
  assert (Hp : performance (withPerformance sorted y) = POOR
               \/ performance (withPerformance sorted y) <> POOR)
    by (destruct (performance (withPerformance sorted y));
        (now left) || (right; discriminate)).
  destruct Hp as [E|Hn]; [rewrite E; apply tier_index_max|].
  apply Nat.leb_le. rewrite withPerformance_rank by assumption.
  pose proof (Nat.leb_refl
                (tier_index (performance (withPerformance sorted y)))) as R.
  rewrite withPerformance_rank in R by assumption.
  apply Z.ltb_lt in R. apply Z.ltb_lt.
  rewrite (rankOf_position_nodup sorted i x Ns Hi).
  rewrite (rankOf_position_nodup sorted j y Ns Hj) in R. lia.
Qed.

Lemma analyzeShortsPerformance_tier_order_witness :
  let out := analyzeShortsPerformance scenario None in
  let s := nth 2 out (viewed EmptyString 0) in
  let t := nth 1 out (viewed EmptyString 0) in
  NoDup (map id (filter isShort scenario))
  /\ In s out /\ In t out
  /\ engagementRate t < engagementRate s
  /\ (tier_index (performance s) <= tier_index (performance t))%nat.
Proof.
  intros out s t.
  assert (N : NoDup (map id (filter isShort scenario))).
  { vm_compute. repeat constructor; simpl; intuition discriminate. }
  assert (Hs : In s out) by (apply nth_In; vm_compute; lia).
  assert (Ht : In t out) by (apply nth_In; vm_compute; lia).
  assert (L : engagementRate t < engagementRate s)
    by (vm_compute; reflexivity).
  split; [exact N|]. split; [exact Hs|]. split; [exact Ht|].
  split; [exact L|].
  exact (analyzeShortsPerformance_tier_order scenario None s t N Hs Ht L).
Defined.

Lemma analyzeShortsPerformance_videos (videos : list VideoData)
  (subscriberCount : option Z) :
  map video (analyzeShortsPerformance videos subscriberCount)
  = filter isShort videos.
Proof.
  unfold analyzeShortsPerformance.
  destruct (filter isShort videos) as [|v vs]; [reflexivity|].
  change (List.length (v :: vs) =? 0)%nat with false. cbv iota zeta.
  rewrite !map_map. cbn [withPerformance video].
  rewrite <- (map_id (v :: vs)) at 2. apply map_ext. reflexivity.
Qed.

(** ** The summary of a classified batch *)

Lemma filter_negb_length {A : Type} (f : A -> bool) (l : list A) :
  (List.length (filter f l) + List.length (filter (fun x => negb (f x)) l)
   = List.length l)%nat.
Proof.
  induction l as [|a l IH]; [reflexivity|]. simpl.
  destruct (f a); simpl; lia.
Qed.

Lemma viral_count_at_least (l : list ShortsData) :
  List.length (filter (hasTier VIRAL) l) = count_at_least VIRAL l.
Proof.
  unfold count_at_least. f_equal. apply filter_ext. intro s.
  unfold hasTier. destruct (performance s); reflexivity.
Qed.

Lemma poor_count_at_least (l : list ShortsData) :
  (List.length (filter (hasTier POOR) l) + count_at_least AVERAGE l
   = List.length l)%nat.
Proof.
  unfold count_at_least.
  rewrite <- (filter_negb_length
                (fun s => (tier_index (performance s)
                           <=? tier_index AVERAGE)%nat) l).
  rewrite Nat.add_comm. f_equal. f_equal. apply filter_ext. intro s.
  unfold hasTier. destruct (performance s); reflexivity.
Qed.

Lemma rate_ge (c n : nat) (t : Z) :
  (0 < n)%nat -> (t * Z.of_nat n <= 100 * Z.of_nat c)%Z ->
  inject_Z t <= (Qnat c / Qnat n) * 100.
Proof.
  intros Hn H. unfold Qnat.
  assert (Hq : 0 < inject_Z (Z.of_nat n)).
  { change 0 with (inject_Z 0). rewrite <- Zlt_Qlt. lia. }
  assert (E : inject_Z (Z.of_nat c) / inject_Z (Z.of_nat n) * 100
              == inject_Z (100 * Z.of_nat c) / inject_Z (Z.of_nat n)).
  { rewrite inject_Z_mult. change (inject_Z 100) with 100. field. lra. }
  rewrite E. apply Qle_shift_div_l; [exact Hq|].
  rewrite <- inject_Z_mult. now rewrite <- Zle_Qle.
Qed.

Lemma rate_le (c n : nat) (t : Z) :
  (0 < n)%nat -> (100 * Z.of_nat c <= t * Z.of_nat n)%Z ->
  (Qnat c / Qnat n) * 100 <= inject_Z t.
Proof.
  intros Hn H. unfold Qnat.
  assert (Hq : 0 < inject_Z (Z.of_nat n)).
  { change 0 with (inject_Z 0). rewrite <- Zlt_Qlt. lia. }
  assert (E : inject_Z (Z.of_nat c) / inject_Z (Z.of_nat n) * 100
              == inject_Z (100 * Z.of_nat c) / inject_Z (Z.of_nat n)).
  { rewrite inject_Z_mult. change (inject_Z 100) with 100. field. lra. }
  rewrite E. apply Qle_shift_div_r; [exact Hq|].
  rewrite <- inject_Z_mult. now rewrite <- Zle_Qle.
Qed.


Lemma filter_length_le {A : Type} (f g : A -> bool) (l : list A) :
  (forall x, f x = true -> g x = true) ->
  (List.length (filter f l) <= List.length (filter g l))%nat.
Proof.
  intro H. induction l as [|a l IH]; [apply Nat.le_refl|]. simpl.
  destruct (f a) eqn:E.
  - rewrite (H a E). simpl. lia.
  - destruct (g a); simpl; lia.
Qed.

Lemma generateShortsSummary_counts (shorts : list ShortsData) :
  shorts <> [] ->
  totalShorts (generateShortsSummary shorts) = List.length shorts
  /\ viralCount (generateShortsSummary shorts)
     = List.length (filter (hasTier VIRAL) shorts)
  /\ poorCount (generateShortsSummary shorts)
     = List.length (filter (hasTier POOR) shorts).
Proof.
  intro H. unfold generateShortsSummary.
  destruct shorts as [|s ss]; [congruence|].
  change (List.length (s :: ss) =? 0)%nat with false. cbv iota zeta.
  cbn [totalShorts viralCount poorCount]. repeat split.
Qed.

(** The recommendations on a batch in which at least a tenth is VIRAL and
    at most a fifth is POOR. *)
Lemma generateShortsSummary_classified (shorts : list ShortsData) :
  shorts <> [] ->
  (List.length shorts
   <= 10 * List.length (filter (hasTier VIRAL) shorts))%nat ->
  (5 * List.length (filter (hasTier POOR) shorts) <= List.length shorts)%nat ->
  (exists others d,
      recommendations (generateShortsSummary shorts)
      = (others ++ [TopDuration d])%list)
  /\ Forall (fun r => ~ excluded_after_classification r)
       (recommendations (generateShortsSummary shorts)).
Proof.
  intros Hne Hv Hp. unfold generateShortsSummary.
  destruct shorts as [|s ss] eqn:Es; [congruence|].
  rewrite <- Es in *.
  assert (Hn : (0 < List.length shorts)%nat) by (rewrite Es; simpl; lia).
  replace (List.length shorts =? 0)%nat with false
    by (symmetry; apply Nat.eqb_neq; lia).
  cbv iota zeta. cbn [recommendations].
  set (vc := List.length (filter (hasTier VIRAL) shorts)) in *.
  set (pc := List.length (filter (hasTier POOR) shorts)) in *.
  assert (H1 : Qltb (Qnat vc / Qnat (List.length shorts) * 100) 5 = false).
  { apply Qltb_ge.
    apply Qle_trans with (inject_Z 10); [discriminate|].
    apply rate_ge; [exact Hn|]. lia. }
  assert (H3 : Qltb 30 (Qnat pc / Qnat (List.length shorts) * 100) = false).
  { apply Qltb_ge.
    apply Qle_trans with (inject_Z 20); [|discriminate].
    apply rate_le; [exact Hn|]. lia. }
  rewrite H1, H3.
  set (top := slice 0 (Some 5%Z)
                (filter (fun s => hasTier VIRAL s || hasTier EXCELLENT s)
                   shorts)).
  assert (H5 : (0 <? List.length top)%nat = true).
  { apply Nat.ltb_lt. unfold top. change 5%Z with (Z.of_nat 5).
    rewrite slice_first, length_firstn.
    pose proof (filter_length_le (hasTier VIRAL)
                  (fun s => hasTier VIRAL s || hasTier EXCELLENT s) shorts
                  (fun x E => eq_trans (f_equal (fun b => b || _) E)
                                eq_refl)) as L.
    fold vc in L. lia. }
  rewrite H5.
  destruct (Qltb 15 (Qnat vc / Qnat (List.length shorts) * 100));
    match goal with
    | |- context [if Qltb ?a 0.01 then _ else _] =>
        destruct (Qltb a 0.01); [|destruct (Qltb 0.05 a)]
    end;
    destruct (List.length shorts <? 10)%nat; cbn [app List.length Nat.eqb];
    (split;
     [ eexists; eexists;
       first [ exact (eq_refl : _ = [] ++ [_])%list
             | exact (eq_refl : _ = [_] ++ [_])%list
             | exact (eq_refl : _ = [_; _] ++ [_])%list
             | exact (eq_refl : _ = [_; _; _] ++ [_])%list ]
     | repeat constructor; simpl; tauto ]).
Qed.

(** X4: in the Shorts management the summary of the classified batch counts
    at least a tenth of the Shorts as VIRAL and at most a fifth as POOR; its
    recommendations end with the duration of the top Shorts and never hold
    the texts for an empty batch, a low viral rate, a high rate of poor
    Shorts or a stable performance. *)
Theorem handleSearch_shortsManagement_summary (videoDetails : list VideoData)
  (subscriberCount : option Z) :
  match handleSearch_shortsManagement videoDetails subscriberCount with
  | None => filter isShort videoDetails = []
  | Some (shortsData, summary) =>
      map video shortsData = filter isShort videoDetails
      /\ totalShorts summary = List.length (filter isShort videoDetails)
      /\ (1 <= viralCount summary)%nat
      /\ (totalShorts summary <= 10 * viralCount summary)%nat
      /\ (5 * poorCount summary <= totalShorts summary)%nat
      /\ (exists others d,
             recommendations summary = (others ++ [TopDuration d])%list)
      /\ Forall (fun r => ~ excluded_after_classification r)
           (recommendations summary)
  end.
Proof.
  unfold handleSearch_shortsManagement. cbv zeta.
  pose proof (analyzeShortsPerformance_videos videoDetails subscriberCount)
    as V.
  pose proof (count_at_least_ge videoDetails subscriberCount VIRAL) as Cv.
  pose proof (count_at_least_ge videoDetails subscriberCount AVERAGE) as Ca.
  set (out := analyzeShortsPerformance videoDetails subscriberCount) in *.
  pose proof (poor_count_at_least out) as Cp.
  rewrite <- viral_count_at_least in Cv. simpl tier_limit in *.
  destruct out as [|s ss] eqn:E.
  - simpl. now rewrite <- V.
  - rewrite <- E in *.
    assert (Hne : out <> []) by (rewrite E; discriminate).
    assert (Hn : (0 < List.length out)%nat) by (rewrite E; simpl; lia).
    replace (List.length out =? 0)%nat with false
      by (symmetry; apply Nat.eqb_neq; lia).
    destruct (generateShortsSummary_counts out Hne) as [T [Vc Pc]].
    rewrite T, Vc, Pc.
    split; [exact V|].
    split; [rewrite <- V; symmetry; apply length_map|].
    split; [lia|]. split; [lia|]. split; [lia|].
    apply generateShortsSummary_classified; [exact Hne|lia|lia].
Qed.

Lemma totalViews_bounds (l : list ShortsData) (lo hi acc : Z) :
  (forall x, In x l -> (lo <= viewCount (video x) <= hi)%Z) ->
  (acc + Z.of_nat (List.length l) * lo
   <= fold_left (fun sum s => (sum + viewCount (video s))%Z) l acc
   <= acc + Z.of_nat (List.length l) * hi)%Z.
Proof.
  revert acc. induction l as [|a l IH]; intros acc H.
  - simpl. lia.
  - cbn [fold_left].
    assert (Ha : (lo <= viewCount (video a) <= hi)%Z) by (apply H; now left).
    assert (Hl : forall x, In x l -> (lo <= viewCount (video x) <= hi)%Z)
      by (intros x Hx; apply H; now right).
    specialize (IH (acc + viewCount (video a))%Z Hl).
    cbn [List.length]. lia.
Qed.

Lemma Math_round_between (x : Q) (lo hi : Z) :
  inject_Z lo <= x -> x <= inject_Z hi -> (lo <= Math_round x <= hi)%Z.
Proof.
  intros L H. unfold Math_round. split.
  - rewrite <- (Qfloor_Z lo). apply Qfloor_resp_le. lra.
  - pose proof (Qfloor_le (x + (1 # 2))) as F.
    assert (G : inject_Z (Qfloor (x + (1 # 2))) < inject_Z (hi + 1)).
    { rewrite inject_Z_plus. change (inject_Z 1) with 1. lra. }
    rewrite <- Zlt_Qlt in G. lia.
Qed.

(** X5: the rounded mean of the views lies between the views of the worst
    and of the best performer. *)
Theorem generateShortsSummary_avgViews_between (shorts : list ShortsData) :
  shorts <> [] ->
  exists b w,
    bestPerformer (generateShortsSummary shorts) = Some b
    /\ worstPerformer (generateShortsSummary shorts) = Some w
    /\ (viewCount (video w) <= avgViews (generateShortsSummary shorts)
        <= viewCount (video b))%Z.
Proof.
  intro H.
  destruct (generateShortsSummary_performers shorts H) as [Eb Ew].
  destruct (js_sort_head _ _ views_cmp_key shorts H)
    as [b [i [Hb [_ [Hmax _]]]]].
  destruct (js_sort_last _ _ views_cmp_key shorts H)
    as [w [j [Hw [_ [Hmin _]]]]].
  fold (sortedByViewsDescending shorts) in Hb, Hw.
  exists b, w. rewrite Eb, Ew.
  split; [exact Hb|]. split; [exact Hw|].
  assert (B : forall x, In x shorts ->
                (viewCount (video w) <= viewCount (video x)
                 <= viewCount (video b))%Z).
  { intros x Hx. rewrite !Zle_Qle. split; [now apply Hmin|now apply Hmax]. }
  pose proof (totalViews_bounds shorts _ _ 0%Z B) as T.
  unfold generateShortsSummary.
  destruct shorts as [|s ss] eqn:Es; [congruence|].
  rewrite <- Es in *.
  assert (Hn : (0 < List.length shorts)%nat) by (rewrite Es; simpl; lia).
  replace (List.length shorts =? 0)%nat with false
    by (symmetry; apply Nat.eqb_neq; lia).
  cbv iota zeta. cbn [avgViews].
  set (total := fold_left (fun sum s => (sum + viewCount (video s))%Z)
                  shorts 0%Z) in *.
  assert (Hq : 0 < Qnat (List.length shorts)).
  { unfold Qnat. change 0 with (inject_Z 0). rewrite <- Zlt_Qlt. lia. }
  apply Math_round_between.
  - apply Qle_shift_div_l; [exact Hq|]. unfold Qnat.
    rewrite <- inject_Z_mult, <- Zle_Qle. lia.
  - apply Qle_shift_div_r; [exact Hq|]. unfold Qnat.
    rewrite <- inject_Z_mult, <- Zle_Qle. lia.
Qed.

Lemma generateShortsSummary_avgViews_between_witness :
  tied_views <> []
  /\ exists b w,
       bestPerformer (generateShortsSummary tied_views) = Some b
       /\ worstPerformer (generateShortsSummary tied_views) = Some w
       /\ (viewCount (video w) <= avgViews (generateShortsSummary tied_views)
           <= viewCount (video b))%Z.
Proof.
  split.
  - discriminate.
  - apply (generateShortsSummary_avgViews_between tied_views). discriminate.
Defined.

(** ** Monotonicity and range of the score *)

Lemma hundredths_le (a b : Z) : (a <= b)%Z -> a # 100 <= b # 100.
Proof. intro H. unfold Qle. simpl. lia. Qed.

Lemma toFixed2_monotone (x y : Q) : x <= y -> toFixed2 x <= toFixed2 y.
Proof.
  intro H. unfold toFixed2, Qleb.
  destruct (Qltb x 0) eqn:Ex; destruct (Qltb y 0) eqn:Ey; cbn [negb].
  - apply hundredths_le.
    assert (F : (Qfloor (- y * 100 + (1 # 2))
                 <= Qfloor (- x * 100 + (1 # 2)))%Z)
      by (apply Qfloor_resp_le; lra).
    lia.
  - apply Qltb_lt in Ex. apply Qltb_ge in Ey. apply hundredths_le.
    assert (F : (Qfloor 0 <= Qfloor (- x * 100 + (1 # 2)))%Z)
      by (apply Qfloor_resp_le; lra).
    assert (G : (Qfloor 0 <= Qfloor (y * 100 + (1 # 2)))%Z)
      by (apply Qfloor_resp_le; lra).
    change (Qfloor 0) with 0%Z in *. lia.
  - apply Qltb_ge in Ex. apply Qltb_lt in Ey. exfalso. lra.
  - apply hundredths_le. apply Qfloor_resp_le. lra.
Qed.

Lemma score_monotone (viewCount likeCount commentCount likeCount'
  commentCount' : Z) :
  (likeCount <= likeCount')%Z -> (commentCount <= commentCount')%Z ->
  score viewCount likeCount commentCount
  <= score viewCount likeCount' commentCount'.
Proof.
  intros Hl Hc. unfold score.
  destruct (Z.gtb_spec viewCount 0) as [Hv|Hv]; [|apply Qle_refl].
  assert (Q : 0 < inject_Z viewCount)
    by (change 0 with (inject_Z 0); now rewrite <- Zlt_Qlt).
  rewrite Zle_Qle in Hl, Hc.
  apply Qmult_le_compat_r; [|discriminate].
  apply Qmult_le_compat_r; [lra|].
  apply Qlt_le_weak, Qinv_lt_0_compat, Q.
Qed.

(** X6: more likes or more comments on the same views never lower the
    stored popularity score. *)
Theorem scoreField_monotone (viewCount likeCount commentCount likeCount'
  commentCount' : Z) :
  (likeCount <= likeCount')%Z -> (commentCount <= commentCount')%Z ->
  scoreField viewCount likeCount commentCount
  <= scoreField viewCount likeCount' commentCount'.
Proof.
  intros Hl Hc. unfold scoreField.
  apply toFixed2_monotone, score_monotone; assumption.
Qed.

Lemma scoreField_monotone_witness :
  (100 <= 500)%Z /\ (50 <= 200)%Z
  /\ scoreField 1000 100 50 <= scoreField 1000 500 200.
Proof.
  split; [lia|]. split; [lia|].
  apply (scoreField_monotone 1000 100 50 500 200); lia.
Defined.

(** X7: when neither the likes nor the comments exceed the views, the score
    lies between 0 and 1000, the range the constants module documents. *)
Theorem calculatePopularityScore_range (viewCount likeCount commentCount : Z) :
  (0 <= likeCount <= viewCount)%Z -> (0 <= commentCount <= viewCount)%Z ->
  0 <= calculatePopularityScore viewCount likeCount commentCount <= 1000
  /\ 0 <= scoreField viewCount likeCount commentCount <= 1000.
Proof.
  intros Hl Hc.
  assert (S : 0 <= score viewCount likeCount commentCount <= 1000).
  { unfold score. destruct (Z.gtb_spec viewCount 0) as [Hv|Hv];
      [|split; discriminate].
    assert (Q : 0 < inject_Z viewCount)
      by (change 0 with (inject_Z 0); now rewrite <- Zlt_Qlt).
    destruct Hl as [Hl0 Hl1], Hc as [Hc0 Hc1].
    rewrite Zle_Qle in Hl0, Hl1, Hc0, Hc1. change (inject_Z 0) with 0 in *.
    set (l := inject_Z likeCount) in *. set (c := inject_Z commentCount) in *.
    set (v := inject_Z viewCount) in *.
    assert (D : 0 <= (l * 0.6 + c * 0.4) / v <= 1).
    { split.
      - apply Qle_shift_div_l; [exact Q|]. lra.
      - apply Qle_shift_div_r; [exact Q|]. lra. }
    lra. }
  split.
  - unfold calculatePopularityScore.
    destruct (Z.eqb_spec viewCount 0) as [Hv|Hv]; [split; discriminate|].
    cbv zeta. unfold LIKE_WEIGHT, COMMENT_WEIGHT, SCORE_MULTIPLIER.
    unfold score in S.
    destruct (Z.gtb_spec viewCount 0) as [Hp|Hp]; [exact S|lia].
  - unfold scoreField. split.
    + apply Qle_trans with (toFixed2 0); [discriminate|].
      apply toFixed2_monotone, S.
    + apply Qle_trans with (toFixed2 1000); [|discriminate].
      apply toFixed2_monotone, S.
Qed.

Lemma calculatePopularityScore_range_witness :
  (0 <= 500 <= 1000)%Z /\ (0 <= 200 <= 1000)%Z
  /\ 0 <= calculatePopularityScore 1000 500 200 <= 1000
  /\ 0 <= scoreField 1000 500 200 <= 1000.
Proof.
  split; [lia|]. split; [lia|].
  apply (calculatePopularityScore_range 1000 500 200); lia.
Defined.

(** ** The Shorts management view *)

Lemma insert_map {A B : Type} (f : A -> B) (cmp : A -> A -> Q)
  (cmp' : B -> B -> Q) (x : A) (l : list A) :
  (forall a b, cmp' (f a) (f b) = cmp a b) ->
  insert cmp' (f x) (map f l) = map f (insert cmp x l).
Proof.
  intro H. induction l as [|y l IH]; [reflexivity|]. simpl.
  rewrite H. destruct (Qltb 0 (cmp x y)); simpl; [now rewrite IH|reflexivity].
Qed.

Lemma js_sort_map {A B : Type} (f : A -> B) (cmp : A -> A -> Q)
  (cmp' : B -> B -> Q) (l : list A) :
  (forall a b, cmp' (f a) (f b) = cmp a b) ->
  js_sort cmp' (map f l) = map f (js_sort cmp l).
Proof.
  intro H. induction l as [|x l IH]; [reflexivity|].
  simpl. rewrite IH. now apply insert_map.
Qed.

(** A list sorted by a key, greater keys first, is determined by its
    elements when equal keys mean equal elements. *)
Lemma descending_unique {A : Type} (key : A -> Q) (l1 l2 : list A) :
  descending key l1 -> descending key l2 -> Permutation l1 l2 ->
  (forall x y, In x l1 -> In y l1 -> key x == key y -> x = y) ->
  l1 = l2.
Proof.
  revert l2. induction l1 as [|a l1 IH]; intros l2 D1 D2 P K.
  - apply Permutation_nil in P. now subst.
  - destruct l2 as [|b l2].
    { apply Permutation_sym, Permutation_nil in P. discriminate P. }
    unfold descending in *.
    inversion D1 as [|? ? S1 F1]; subst.
    inversion D2 as [|? ? S2 F2]; subst.
    rewrite Forall_forall in F1, F2.
    assert (Ia : In a (b :: l2))
      by (apply (Permutation_in _ P); now left).
    assert (Ib : In b (a :: l1))
      by (apply (Permutation_in _ (Permutation_sym P)); now left).
    assert (Hab : key a <= key b).
    { destruct Ia as [<-|I]; [apply Qle_refl|now apply F2]. }
    assert (Hba : key b <= key a).
    { destruct Ib as [<-|I]; [apply Qle_refl|now apply F1]. }
    assert (E : a = b).
    { apply K; [now left|exact Ib|now apply Qle_antisym]. }
    subst b. f_equal. apply IH.
    + exact S1.
    + exact S2.
    + now apply Permutation_cons_inv in P.
    + intros x y Hx Hy. apply K; now right.
Qed.

(** Sorting does not depend on the order the array had before, as long as no
    two of its elements share a key. *)
Lemma js_sort_permutation {A : Type} (cmp : A -> A -> Q) (key : A -> Q)
  (l l' : list A) :
  (forall a b, 0 < cmp a b <-> key a < key b) ->
  Permutation l' l ->
  (forall x y, In x l -> In y l -> key x == key y -> x = y) ->
  js_sort cmp l' = js_sort cmp l.
Proof.
  intros C P K.
  assert (P' : Permutation (js_sort cmp l') l)
    by (apply Permutation_trans with l'; [apply js_sort_perm|exact P]).
  apply (descending_unique key).
  - apply (js_sort_descending cmp key C).
  - apply (js_sort_descending cmp key C).
  - apply Permutation_trans with l; [exact P'|].
    apply Permutation_sym, js_sort_perm.
  - intros x y Hx Hy. apply K; apply (Permutation_in _ P'); assumption.
Qed.

(** With distinct engagement rates in the batch, two classified Shorts with
    equal rates are the same item. *)
Lemma classified_rates_distinct (videos : list VideoData)
  (subscriberCount : option Z) (x y : ShortsData) :
  distinct_keys (map engagementRateOf (filter isShort videos)) = true ->
  In x (analyzeShortsPerformance videos subscriberCount) ->
  In y (analyzeShortsPerformance videos subscriberCount) ->
  engagementRate x == engagementRate y -> x = y.
Proof.
  intros D Hx Hy E.
  destruct (filter isShort videos) as [|v0 vs] eqn:F.
  { rewrite analyzeShortsPerformance_no_shorts in Hx by exact F.
    destruct Hx. }
  assert (Hne : filter isShort videos <> []) by (rewrite F; discriminate).
  rewrite <- F in D. clear F.
  rewrite analyzeShortsPerformance_unfold in Hx, Hy by exact Hne.
  apply in_map_iff in Hx. destruct Hx as [x0 [<- Hx]].
  apply in_map_iff in Hx. destruct Hx as [v [<- Hv]].
  apply in_map_iff in Hy. destruct Hy as [y0 [<- Hy]].
  apply in_map_iff in Hy. destruct Hy as [w [<- Hw]].
  apply In_nth_error in Hv. destruct Hv as [i Hi].
  apply In_nth_error in Hw. destruct Hw as [j Hj].
  destruct (Nat.eq_dec i j) as [->|Hij]; [congruence|].
  exfalso.
  apply (distinct_keys_nth _ D i j _ _ Hij
           (map_nth_error engagementRateOf _ _ Hi)
           (map_nth_error engagementRateOf _ _ Hj)).
  exact E.
Qed.

(** The list sorted by engagement, from the classified batch in any order:
    the item at position [k] has the tier of the percentile of [k]. *)
Lemma engagement_order_tiers (getTime : option string -> option Q)
  (videos : list VideoData) (subscriberCount : option Z)
  (shorts : list ShortsData) (k : nat) (s : ShortsData) :
  NoDup (map id (filter isShort videos)) ->
  distinct_keys (map engagementRateOf (filter isShort videos)) = true ->
  Permutation shorts (analyzeShortsPerformance videos subscriberCount) ->
  nth_error
    (fst (filteredAndSortedShorts getTime engagement None shorts)) k
  = Some s ->
  performance s
  = tierOfPercent
      ((Qnat k
        / Qnat (List.length
                  (analyzeShortsPerformance videos subscriberCount)))
       * 100).
Proof.
  intros N D Pm H.
  cbn [filteredAndSortedShorts fst] in H.
  set (cmp := fun a b : ShortsData => engagementRate b - engagementRate a)
    in *.
  change (compareShorts getTime engagement) with cmp in H.
  rewrite (js_sort_permutation cmp engagementRate
             (analyzeShortsPerformance videos subscriberCount) shorts
             engagement_cmp_key Pm
             (fun x y Hx Hy =>
                classified_rates_distinct videos subscriberCount x y D Hx Hy))
    in H.
  clear Pm shorts D.
  destruct (filter isShort videos) as [|v vs] eqn:F.
  { rewrite analyzeShortsPerformance_no_shorts in H by exact F.
    destruct k; discriminate H. }
  assert (Hne : filter isShort videos <> []) by (rewrite F; discriminate).
  rewrite <- F in N. clear F.
  rewrite analyzeShortsPerformance_unfold in * by exact Hne.
  set (swe := map (withEngagement subscriberCount) (filter isShort videos))
    in *.
  fold cmp in H. fold cmp.
  pose proof (js_sort_perm cmp swe) as P.
  pose proof (sorted_ids_nodup videos subscriberCount _ N P) as Ns.
  set (sorted := js_sort cmp swe) in *.
  rewrite (js_sort_map (withPerformance sorted) cmp cmp swe) in H
    by reflexivity.
  fold sorted in H.
  destruct (nth_error sorted k) as [x|] eqn:Hx.
  - rewrite (map_nth_error _ _ _ Hx) in H. injection H as <-.
    cbn [withPerformance performance]. unfold percentileOf.
    rewrite (rankOf_position_nodup sorted k x Ns Hx).
    rewrite length_map.
    now rewrite (Permutation_length P).
  - apply nth_error_None in Hx.
    assert (K : nth_error (map (withPerformance sorted) sorted) k = None)
      by (apply nth_error_None; now rewrite length_map).
    rewrite K in H. discriminate H.
Qed.

(** A run of the callback reorders the array of the prop and neither adds
    nor drops an item. *)
Lemma filteredAndSortedShorts_array (getTime : option string -> option Q)
  (sortBy : SortBy) (filterBy : option ShortsPerformance)
  (shorts : list ShortsData) :
  Permutation (snd (filteredAndSortedShorts getTime sortBy filterBy shorts))
    shorts.
Proof.
  destruct filterBy; cbn [filteredAndSortedShorts snd];
    [reflexivity|apply js_sort_perm].
Qed.

Lemma ShortsManagement_array (getTime : option string -> option Q)
  (selections : list (SortBy * option ShortsPerformance))
  (shorts : list ShortsData) :
  Permutation (snd (ShortsManagement getTime selections shorts)) shorts.
Proof.
  unfold ShortsManagement.
  generalize (filteredAndSortedShorts_array getTime views None shorts).
  generalize (filteredAndSortedShorts getTime views None shorts).
  induction selections as [|selection selections IH]; intros state P;
    [exact P|].
  cbn [fold_left]. apply IH.
  apply Permutation_trans with (snd state);
    [apply filteredAndSortedShorts_array|exact P].
Qed.

(** The list shown after a change is the run of the callback on the array
    as the renders before left it. *)
Lemma ShortsManagement_last (getTime : option string -> option Q)
  (selections : list (SortBy * option ShortsPerformance))
  (sortBy : SortBy) (filterBy : option ShortsPerformance)
  (shorts : list ShortsData) :
  ShortsManagement getTime (selections ++ [(sortBy, filterBy)]) shorts
  = filteredAndSortedShorts getTime sortBy filterBy
      (snd (ShortsManagement getTime selections shorts)).
Proof. unfold ShortsManagement. rewrite fold_left_app. reflexivity. Qed.

(** X8: in the management view the runs of the callback only reorder the
    array of the classified batch, whatever orders and filters are chosen.
    When the identifiers and the engagement rates of the Shorts are
    distinct, the list shown for the order by engagement with the filter
    ['all'] has the tiers in order, whatever order the array had before and
    so after any earlier choices, the first sort by views included: the item
    at position [k] of [n] has the tier of the percentile [k / n * 100]. *)
Theorem filteredAndSortedShorts_engagement_tiers
  (getTime : option string -> option Q) (videos : list VideoData)
  (subscriberCount : option Z) :
  NoDup (map id (filter isShort videos)) ->
  distinct_keys (map engagementRateOf (filter isShort videos)) = true ->
  let batch := analyzeShortsPerformance videos subscriberCount in
  let tier_at (k : nat) :=
    tierOfPercent ((Qnat k / Qnat (List.length batch)) * 100) in
  (forall selections,
      Permutation (snd (ShortsManagement getTime selections batch)) batch)
  /\ (forall shorts k s,
         Permutation shorts batch ->
         nth_error
           (fst (filteredAndSortedShorts getTime engagement None shorts)) k
         = Some s ->
         performance s = tier_at k)
  /\ (forall selections k s,
         nth_error
           (fst (ShortsManagement getTime
                   (selections ++ [(engagement, None)]) batch)) k
         = Some s ->
         performance s = tier_at k).
Proof.
  intros N D batch tier_at. split; [|split].
  - intro selections. apply ShortsManagement_array.
  - intros shorts k s P H.
    exact (engagement_order_tiers getTime videos subscriberCount shorts k s
             N D P H).
  - intros selections k s H. rewrite ShortsManagement_last in H.
    exact (engagement_order_tiers getTime videos subscriberCount _ k s
             N D (ShortsManagement_array getTime selections batch) H).
Qed.

Lemma filteredAndSortedShorts_engagement_tiers_witness :
  NoDup (map id (filter isShort batch_of_ten))
  /\ distinct_keys (map engagementRateOf (filter isShort batch_of_ten)) = true
  /\ (let batch := analyzeShortsPerformance batch_of_ten None in
      let tier_at (k : nat) :=
        tierOfPercent ((Qnat k / Qnat (List.length batch)) * 100) in
      (forall selections,
          Permutation
            (snd (ShortsManagement (fun _ => None) selections batch)) batch)
      /\ (forall shorts k s,
             Permutation shorts batch ->
             nth_error
               (fst (filteredAndSortedShorts (fun _ => None) engagement None
                       shorts)) k
             = Some s ->
             performance s = tier_at k)
      /\ (forall selections k s,
             nth_error
               (fst (ShortsManagement (fun _ => None)
                       (selections ++ [(engagement, None)]) batch)) k
             = Some s ->
             performance s = tier_at k)).
Proof.
  assert (D : distinct_keys
                (map engagementRateOf (filter isShort batch_of_ten)) = true)
    by (vm_compute; reflexivity).
  split; [exact batch_of_ten_ids|]. split; [exact D|].
  exact (filteredAndSortedShorts_engagement_tiers (fun _ => None)
           batch_of_ten None batch_of_ten_ids D).
Defined.

(** The ten Shorts of the example after the first render and the choices of
    the order by date, of the tier POOR as filter and of the order by
    engagement with all tiers: the tiers are listed in order. *)
Lemma ShortsManagement_example :
  map performance
    (fst (ShortsManagement (fun _ => None)
            [(date, None); (date, Some POOR); (engagement, Some POOR);
             (engagement, None)]
            (analyzeShortsPerformance batch_of_ten None)))
  = [VIRAL; EXCELLENT; EXCELLENT; GOOD; GOOD; GOOD; AVERAGE; AVERAGE;
     POOR; POOR].
Proof. vm_compute. reflexivity. Qed.

(** The rates have to be distinct.  Two Shorts with equal rates are
    classified in the order of the batch, [a] before [b]; the first render
    sorts the array by views and puts [b] first, and the sort by engagement,
    which moves no item past one with an equal rate, then lists GOOD before
    VIRAL.  Sorted as it was classified, the array would list VIRAL
    first. *)
Lemma ShortsManagement_tied_rates :
  let batch := analyzeShortsPerformance tied_rates None in
  let shown (l : list ShortsData) :=
    map (fun s => (id (video s), performance s)) l in
  shown batch = [("a"%string, VIRAL); ("b"%string, GOOD)]
  /\ shown (fst (ShortsManagement (fun _ => None) [] batch))
     = [("b"%string, GOOD); ("a"%string, VIRAL)]
  /\ shown (fst (ShortsManagement (fun _ => None) [(engagement, None)] batch))
     = [("b"%string, GOOD); ("a"%string, VIRAL)]
  /\ shown (fst (filteredAndSortedShorts (fun _ => None) engagement None
                   batch))
     = [("a"%string, VIRAL); ("b"%string, GOOD)]
  /\ tierOfPercent ((Qnat 0 / Qnat (List.length batch)) * 100) = VIRAL.
Proof. vm_compute. repeat split. Qed.

(** ** Tiers and what they depend on *)

Lemma find_pos_map {A B : Type} (f : A -> B) (p : B -> bool) (l : list A) :
  find_pos p (map f l) = find_pos (fun a => p (f a)) l.
Proof.
  induction l as [|a l IH]; [reflexivity|]. simpl.
  destruct (p (f a)); [reflexivity|now rewrite IH].
Qed.

Lemma filter_idempotent {A : Type} (f : A -> bool) (l : list A) :
  filter f (filter f l) = filter f l.
Proof.
  induction l as [|a l IH]; [reflexivity|]. simpl.
  destruct (f a) eqn:E; [|exact IH]. simpl. now rewrite E, IH.
Qed.

(** The tiers of a batch of Shorts, read off the videos sorted by rate. *)
Lemma analyzeShortsPerformance_tiers_of (shorts : list VideoData)
  (subscriberCount : option Z) :
  filter isShort shorts = shorts ->
  map performance (analyzeShortsPerformance shorts subscriberCount)
  = map (fun v =>
           tierOfPercent
             ((inject_Z
                 (findIndex (fun u => String.eqb (id u) (id v))
                    (js_sort
                       (fun a b => engagementRateOf b - engagementRateOf a)
                       shorts))
               / Qnat (List.length shorts)) * 100))
      shorts.
Proof.
  intro F. unfold analyzeShortsPerformance. rewrite F.
  destruct shorts as [|v vs] eqn:E; [reflexivity|]. rewrite <- E in *.
  replace (List.length shorts =? 0)%nat with false
    by (rewrite E; reflexivity).
  cbv zeta. rewrite !map_map. apply map_ext. intro x.
  cbn [withPerformance performance]. unfold percentileOf, rankOf, findIndex.
  rewrite (js_sort_map (withEngagement subscriberCount)
                (fun a b => engagementRateOf b - engagementRateOf a)
                (fun a b => engagementRate b - engagementRate a) shorts)
    by reflexivity.
  rewrite find_pos_map. cbn [withEngagement video].
  rewrite length_map.
  rewrite (js_sort_length (fun a b => engagementRateOf b - engagementRateOf a)).
  reflexivity.
Qed.

(** X9: the tiers depend on the Shorts of the batch only: neither the other
    videos of the batch nor the subscriber count of the channel changes the
    Shorts that are listed, their engagement rates or their tiers. *)
Theorem analyzeShortsPerformance_tiers_independent (videos : list VideoData)
  (subscriberCount subscriberCount' : option Z) :
  let all := analyzeShortsPerformance videos subscriberCount in
  let alone :=
    analyzeShortsPerformance (filter isShort videos) subscriberCount' in
  map video all = map video alone
  /\ map engagementRate all = map engagementRate alone
  /\ map performance all = map performance alone.
Proof.
  intros all alone.
  assert (F : filter isShort (filter isShort videos) = filter isShort videos)
    by apply filter_idempotent.
  assert (U : forall sc,
             analyzeShortsPerformance videos sc
             = analyzeShortsPerformance (filter isShort videos) sc).
  { intro sc. unfold analyzeShortsPerformance. now rewrite F. }
  unfold all, alone. rewrite (U subscriberCount).
  set (shorts := filter isShort videos) in *.
  split; [|split].
  - now rewrite !analyzeShortsPerformance_videos.
  - unfold analyzeShortsPerformance. rewrite F.
    destruct (List.length shorts =? 0)%nat; [reflexivity|].
    cbv zeta. rewrite !map_map. reflexivity.
  - now rewrite !analyzeShortsPerformance_tiers_of by exact F.
Qed.

(** ** The content discovery *)

Lemma ratio_cmp_key (a b : ContentDiscoveryVideo) :
  0 < subscriberViewRatio b - subscriberViewRatio a
  <-> subscriberViewRatio a < subscriberViewRatio b.
Proof. split; intro; lra. Qed.

Lemma filter_sublist {A : Type} (f : A -> bool) (l : list A) :
  Permutation (filter f l ++ filter (fun x => negb (f x)) l) l.
Proof.
  induction l as [|a l IH]; [constructor|]. simpl.
  destruct (f a); simpl.
  - now apply perm_skip.
  - eapply Permutation_trans;
      [apply Permutation_sym, Permutation_middle|now apply perm_skip].
Qed.

(** X10: the content discovery shows only videos whose ratio of views to
    subscribers is at least [minRatio], greatest ratio first; the ratio of a
    shown video is that of its own counters, a video whose channel has no
    known subscriber count has the ratio 0 and is never shown for a
    positive [minRatio], and the shown videos are videos of the batch, none
    twice as often as the batch has it. *)
Theorem discoveryVideos_spec (channelInfoMap : string -> option Z)
  (minRatio : Q) (videoDetails : list VideoData) :
  let shown := discoveryVideos channelInfoMap minRatio videoDetails in
  Forall
    (fun v =>
       minRatio <= subscriberViewRatio v
       /\ channelSubscriberCount v
          = or_zero (channelInfoMap (or_empty (channelId (discovered v))))
       /\ subscriberViewRatio v
          = calculateSubscriberViewRatio (viewCount (discovered v))
              (channelSubscriberCount v)
       /\ (0 < minRatio -> channelSubscriberCount v <> 0%Z))
    shown
  /\ descending subscriberViewRatio shown
  /\ exists rest, Permutation (map discovered shown ++ rest) videoDetails.
Proof.
  intro shown. unfold shown, discoveryVideos.
  set (cmp := fun a b : ContentDiscoveryVideo =>
                subscriberViewRatio b - subscriberViewRatio a).
  set (extend := fun video : VideoData =>
         let subscriberCount :=
           or_zero (channelInfoMap (or_empty (channelId video))) in
         let ratio :=
           calculateSubscriberViewRatio (viewCount video) subscriberCount in
         {| discovered := video; channelSubscriberCount := subscriberCount;
            subscriberViewRatio := ratio |}).
  set (keep := fun v : ContentDiscoveryVideo =>
                 Qleb minRatio (subscriberViewRatio v)).
  pose proof (js_sort_perm cmp (filter keep (map extend videoDetails))) as P.
  split; [|split].
  - apply (Permutation_Forall (Permutation_sym P)).
    apply Forall_forall. intros v Hv. apply filter_In in Hv.
    destruct Hv as [Hv K]. apply in_map_iff in Hv.
    destruct Hv as [video [<- _]].
    unfold keep, Qleb in K. apply negb_true_iff, Qltb_ge in K.
    cbn [extend subscriberViewRatio channelSubscriberCount discovered] in *.
    split; [exact K|]. split; [reflexivity|]. split; [reflexivity|].
    intros Hpos E. rewrite E in K. unfold calculateSubscriberViewRatio in K.
    simpl in K. lra.
  - apply (js_sort_descending cmp subscriberViewRatio ratio_cmp_key).
  - exists (map discovered
              (filter (fun x => negb (keep x)) (map extend videoDetails))).
    rewrite <- map_app.
    assert (E : map discovered (map extend videoDetails) = videoDetails).
    { rewrite map_map. cbn [extend discovered]. apply map_id. }
    apply Permutation_trans
      with (map discovered (map extend videoDetails));
      [|rewrite E; reflexivity].
    apply Permutation_map.
    eapply Permutation_trans;
      [apply Permutation_app_tail; exact P|apply filter_sublist].
Qed.

(** ** The channel analysis of [handleSearch] *)

Lemma StronglySorted_app_inv {A : Type} (R : A -> A -> Prop)
  (l1 l2 : list A) :
  StronglySorted R (l1 ++ l2) ->
  StronglySorted R l1 /\ StronglySorted R l2
  /\ forall a b, In a l1 -> In b l2 -> R a b.
Proof.
  induction l1 as [|x l1 IH]; simpl; intro S.
  - split; [constructor|]. split; [exact S|]. intros a b [].
  - inversion S as [|? ? S' F]; subst.
    destruct (IH S') as [S1 [S2 C]]. rewrite Forall_forall in F.
    split; [|split; [exact S2|]].
    + constructor; [exact S1|]. apply Forall_forall. intros y Hy.
      apply F. apply in_or_app. now left.
    + intros a b [<-|Ha] Hb; [|now apply C].
      apply F. apply in_or_app. now right.
Qed.

Lemma StronglySorted_app {A : Type} (R : A -> A -> Prop) (l1 l2 : list A) :
  StronglySorted R l1 -> StronglySorted R l2 ->
  (forall a b, In a l1 -> In b l2 -> R a b) ->
  StronglySorted R (l1 ++ l2).
Proof.
  intros S1 S2 C. induction S1 as [|x l1 S1 IH F]; simpl; [exact S2|].
  constructor.
  - apply IH. intros a b Ha Hb. apply C; [now right|exact Hb].
  - rewrite Forall_forall in *. intros y Hy.
    apply in_app_or in Hy. destruct Hy as [Hy|Hy]; [now apply F|].
    apply C; [now left|exact Hy].
Qed.

Lemma StronglySorted_rev {A : Type} (R : A -> A -> Prop) (l : list A) :
  StronglySorted R l -> StronglySorted (fun a b => R b a) (rev l).
Proof.
  induction 1 as [|x l S IH F]; simpl; [constructor|].
  apply StronglySorted_app; [exact IH|repeat constructor|].
  intros a b Ha [<-|[]]. rewrite Forall_forall in F. apply F.
  now apply in_rev.
Qed.

(** X11: the channel analysis shows the 10 best (TOP) or the 10 worst
    (BOTTOM) of the videos the type filter kept, or all of them when they
    are fewer: the shown videos are ordered by score, best first for TOP
    and worst first for BOTTOM, and no video left out scores better (TOP)
    or worse (BOTTOM) than a shown one. *)
Theorem handleSearch_channel_selection (videoTypeFilter : VideoTypeFilter)
  (channelView : ChannelAnalysisView) (videoDetails : list VideoData) :
  let kept :=
    filterByVideoType videoDetails videoTypeFilter
      SHORTS_EXTENDED_MAX_SECONDS in
  let shown := handleSearch_channel videoTypeFilter channelView videoDetails in
  List.length shown = Nat.min 10 (List.length kept)
  /\ exists rest,
       Permutation (shown ++ rest) kept
       /\ match channelView with
          | TOP =>
              StronglySorted
                (fun a b => popularityScore b <= popularityScore a) shown
              /\ forall d r, In d shown -> In r rest ->
                   popularityScore r <= popularityScore d
          | BOTTOM =>
              StronglySorted
                (fun a b => popularityScore a <= popularityScore b) shown
              /\ forall d r, In d shown -> In r rest ->
                   popularityScore d <= popularityScore r
          end.
Proof.
  intros kept shown. unfold shown, handleSearch_channel. cbv zeta.
  fold kept. rewrite handleSearch_displayVideos_ten.
  unfold selectTopOrBottom.
  pose proof (js_sort_perm (fun a b => popularityScore a - popularityScore b)
                kept) as P.
  pose proof (sortedVideos_ascending kept) as S.
  set (sorted := js_sort (fun a b => popularityScore a - popularityScore b)
                   kept) in *.
  assert (L : List.length sorted = List.length kept)
    by now apply Permutation_length.
  destruct channelView.
  - set (k := (List.length sorted - 10)%nat).
    rewrite <- (firstn_skipn k sorted) in S.
    apply StronglySorted_app_inv in S. destruct S as [_ [S2 C]].
    split; [rewrite length_rev, length_skipn; lia|].
    exists (firstn k sorted). split; [|split].
    + eapply Permutation_trans; [|exact P].
      eapply Permutation_trans; [apply Permutation_app_comm|].
      eapply Permutation_trans;
        [apply Permutation_app_head; symmetry; apply Permutation_rev|].
      now rewrite firstn_skipn.
    + now apply StronglySorted_rev in S2.
    + intros d r Hd Hr. apply in_rev in Hd. now apply C.
  - rewrite <- (firstn_skipn 10 sorted) in S.
    apply StronglySorted_app_inv in S. destruct S as [S1 [_ C]].
    split; [rewrite length_firstn; lia|].
    exists (skipn 10 sorted). split; [|split].
    + rewrite firstn_skipn. exact P.
    + exact S1.
    + exact C.
Qed.

(** X12: the filter written in place in the earlier [handleSearch] is
    [filterByVideoType] at the threshold 179; it agrees with the call at
    the threshold 180 of the later [handleSearch] on every batch without a
    video of exactly 180 seconds, and such a video is LONG for the earlier
    version and a Short for the later one. *)
Theorem handleSearch_filter_versions (videoTypeFilter : VideoTypeFilter)
  (videoDetails : list VideoData) :
  handleSearch_filter videoTypeFilter videoDetails
  = filterByVideoType videoDetails videoTypeFilter 179
  /\ (Forall (fun v => duration v <> 180%Z) videoDetails ->
      handleSearch_filter videoTypeFilter videoDetails
      = filterByVideoType videoDetails videoTypeFilter
          SHORTS_EXTENDED_MAX_SECONDS)
  /\ (forall v, duration v = 180%Z ->
        handleSearch_filter SHORTS [v] = []
        /\ handleSearch_filter LONG [v] = [v]
        /\ filterByVideoType [v] SHORTS SHORTS_EXTENDED_MAX_SECONDS = [v]
        /\ filterByVideoType [v] LONG SHORTS_EXTENDED_MAX_SECONDS = []).
Proof.
  split; [apply handleSearch_filter_threshold|]. split.
  - intro F. rewrite handleSearch_filter_threshold.
    unfold filterByVideoType, SHORTS_EXTENDED_MAX_SECONDS.
    rewrite Forall_forall in F.
    destruct videoTypeFilter; [reflexivity| |]; apply filter_ext_in;
      intros v Hv; specialize (F v Hv).
    + f_equal.
      destruct (Z.leb_spec (duration v) 179), (Z.leb_spec (duration v) 180);
        try reflexivity; lia.
    + rewrite !Z.gtb_ltb.
      destruct (Z.ltb_spec 179 (duration v)), (Z.ltb_spec 180 (duration v));
        try reflexivity; lia.
  - intros v E. unfold handleSearch_filter, filterByVideoType,
      SHORTS_EXTENDED_MAX_SECONDS. cbn [filter]. rewrite E.
    repeat split; reflexivity.
Qed.

(** ** [chunkArray] *)

Lemma slice_chunk {A : Type} (l : list A) (i size : Z) :
  (0 <= i)%Z -> (0 <= size)%Z ->
  slice i (Some (i + size)%Z) l
  = firstn (Z.to_nat size) (skipn (Z.to_nat i) l).
Proof.
  intros Hi Hs. unfold slice, rel_index.
  assert (E1 : (i <? 0)%Z = false) by (apply Z.ltb_ge; lia).
  assert (E2 : (i + size <? 0)%Z = false) by (apply Z.ltb_ge; lia).
  rewrite E1, E2.
  destruct (Z.le_gt_cases i (Z.of_nat (List.length l))) as [L|L].
  - replace (Z.min i (Z.of_nat (List.length l))) with i by lia.
    destruct (Z.le_gt_cases (i + size) (Z.of_nat (List.length l))) as [M|M].
    + f_equal. lia.
    + rewrite !firstn_all2; [reflexivity| |]; rewrite length_skipn; lia.
  - rewrite !skipn_all2 by lia. now rewrite !firstn_nil.
Qed.

Section Chunks.

Context {T : Type}.
Variable array : list T.
Variable size : Z.

Lemma chunkArray_loop_spec (fuel : nat) :
  (1 <= size)%Z ->
  forall (i : Z) (acc : list (list T)),
    (0 <= i)%Z ->
    (Z.max 0 (Z.of_nat (List.length array) - i) < Z.of_nat fuel)%Z ->
    exists rest,
      chunkArray_loop fuel array size i acc = Some (acc ++ rest)
      /\ List.concat rest = skipn (Z.to_nat i) array
      /\ Forall (fun c => (0 < Z.of_nat (List.length c) <= size)%Z) rest
      /\ (forall j c, nth_error rest j = Some c ->
            (S j < List.length rest)%nat ->
            Z.of_nat (List.length c) = size)
      /\ (Z.of_nat (List.length rest) * size
          < Z.max 0 (Z.of_nat (List.length array) - i) + size)%Z.
Proof.
  intro Hs. induction fuel as [|fuel IH]; intros i acc Hi Hf; [lia|].
  cbn [chunkArray_loop].
  destruct (Z.ltb_spec i (Z.of_nat (List.length array))) as [L|L].
  - rewrite slice_chunk by lia.
    set (c := firstn (Z.to_nat size) (skipn (Z.to_nat i) array)).
    assert (Lc : Z.of_nat (List.length c)
                 = Z.min size (Z.of_nat (List.length array) - i)).
    { unfold c. rewrite length_firstn, length_skipn. lia. }
    destruct (IH (i + size)%Z (acc ++ [c]) ltac:(lia) ltac:(lia))
      as [rest [E [C [F [A N]]]]].
    exists (c :: rest). split; [|split; [|split; [|split]]].
    + rewrite E, <- app_assoc. reflexivity.
    + cbn [List.concat]. rewrite C. unfold c.
      replace (Z.to_nat (i + size)) with (Z.to_nat size + Z.to_nat i)%nat
        by lia.
      rewrite <- skipn_skipn. apply firstn_skipn.
    + constructor; [lia|exact F].
    + intros [|j] c' Hc Hj; cbn [nth_error List.length] in *.
      * injection Hc as <-. destruct rest as [|r rest']; [simpl in Hj; lia|].
        assert (H0 : (size <= Z.of_nat (List.length (r :: rest')) * size)%Z)
          by (cbn [List.length]; nia).
        lia.
      * apply (A j c' Hc). lia.
    + assert (H0 : (Z.of_nat (List.length (c :: rest)) * size
                    = Z.of_nat (List.length rest) * size + size)%Z)
        by (cbn [List.length]; nia).
      assert (H1 : (Z.of_nat (List.length rest) = 0
                    \/ size <= Z.of_nat (List.length rest) * size)%Z) by nia.
      destruct H1 as [H1|H1]; [rewrite H1 in *|]; lia.
  - exists []. rewrite app_nil_r. split; [reflexivity|].
    split; [rewrite skipn_all2 by lia; reflexivity|].
    split; [constructor|]. split; [intros [|j] c H; discriminate|].
    simpl. lia.
Qed.

Lemma chunkArray_loop_stuck (fuel : nat) :
  (size <= 0)%Z -> array <> [] ->
  forall (i : Z) (acc : list (list T)),
    (i <= 0)%Z -> chunkArray_loop fuel array size i acc = None.
Proof.
  intros Hs Hne. induction fuel as [|fuel IH]; intros i acc Hi;
    [reflexivity|].
  cbn [chunkArray_loop].
  assert (L : (i <? Z.of_nat (List.length array))%Z = true).
  { apply Z.ltb_lt. destruct array; [congruence|]. simpl List.length. lia. }
  rewrite L. apply IH. lia.
Qed.

End Chunks.

(** X13: with a size of at least 1, [chunkArray] returns once the fuel
    exceeds the length of the array; the chunks put end to end are the
    array, no chunk is empty or longer than [size], every chunk but the last
    has exactly [size] elements, and there are [length / size] chunks,
    rounded up. *)
Theorem chunkArray_spec {T : Type} (fuel : nat) (array : list T) (size : Z) :
  (1 <= size)%Z -> (List.length array < fuel)%nat ->
  exists chunks,
    chunkArray fuel array size = Some chunks
    /\ List.concat chunks = array
    /\ Forall (fun c => (0 < Z.of_nat (List.length c) <= size)%Z) chunks
    /\ (forall j c, nth_error chunks j = Some c ->
          (S j < List.length chunks)%nat ->
          Z.of_nat (List.length c) = size)
    /\ (Z.of_nat (List.length array)
        <= Z.of_nat (List.length chunks) * size
        < Z.of_nat (List.length array) + size)%Z.
Proof.
  intros Hs Hf.
  destruct (chunkArray_loop_spec array size fuel Hs 0 [] ltac:(lia)
              ltac:(lia)) as [chunks [E [C [F [A N]]]]].
  exists chunks. simpl in E, C. repeat split; try assumption.
  - rewrite <- C at 1. clear - F. induction F as [|c l Hc F IH].
    + simpl. lia.
    + cbn [List.concat List.length]. rewrite length_app. lia.
  - lia.
Qed.

Lemma chunkArray_spec_witness :
  (1 <= 2)%Z /\ (List.length [1; 2; 3; 4; 5]%Z < 6)%nat
  /\ exists chunks,
       chunkArray 6 [1; 2; 3; 4; 5]%Z 2 = Some chunks
       /\ List.concat chunks = [1; 2; 3; 4; 5]%Z
       /\ Forall (fun c => (0 < Z.of_nat (List.length c) <= 2)%Z) chunks
       /\ (forall j c, nth_error chunks j = Some c ->
             (S j < List.length chunks)%nat ->
             Z.of_nat (List.length c) = 2%Z)
       /\ (Z.of_nat (List.length [1; 2; 3; 4; 5]%Z)
           <= Z.of_nat (List.length chunks) * 2
           < Z.of_nat (List.length [1; 2; 3; 4; 5]%Z) + 2)%Z.
Proof.
  split; [lia|]. split; [simpl; lia|].
  apply (chunkArray_spec 6 [1; 2; 3; 4; 5]%Z 2); simpl; lia.
Defined.

(** X14: with a size of 0 or less, [chunkArray] never returns on an array that
    is not empty: the loop is still running whatever the fuel. *)
Theorem chunkArray_never_returns {T : Type} (fuel : nat) (array : list T)
  (size : Z) :
  (size <= 0)%Z -> array <> [] -> chunkArray fuel array size = None.
Proof.
  intros Hs Hne. unfold chunkArray.
  apply chunkArray_loop_stuck; [assumption|assumption|lia].
Qed.

Lemma chunkArray_never_returns_witness :
  (0 <= 0)%Z /\ [1; 2; 3]%Z <> [] /\ chunkArray 1000 [1; 2; 3]%Z 0 = None.
Proof.
  split; [lia|]. split; [discriminate|].
  apply (chunkArray_never_returns 1000 [1; 2; 3]%Z 0); [lia|discriminate].
Defined.

(** ** [uniqueBy] *)

Section Unique.

Context {T K : Type}.
Variable K_eq_dec : forall a b : K, {a = b} + {a <> b}.
Variable key : T -> K.


Lemma uniqueBy_filter_first (array : list T) :
  forall (seen : list K) (x : T),
    In x (uniqueBy_filter K_eq_dec key seen array)
    <-> ~ In (key x) seen
        /\ find (fun y => if K_eq_dec (key y) (key x) then true else false)
             array = Some x.
Proof.
  induction array as [|item rest IH]; intros seen x.
  - simpl. split; [contradiction|intros [_ H]; discriminate].
  - cbn [uniqueBy_filter find]. cbv beta.
    destruct (in_dec K_eq_dec (key item) seen) as [Hin|Hin];
      destruct (K_eq_dec (key item) (key x)) as [E|E].
    + rewrite IH. split.
      * intros [Hx _]. exfalso. apply Hx. now rewrite <- E.
      * intros [Hx _]. exfalso. apply Hx. now rewrite <- E.
    + apply IH.
    + cbn [In]. rewrite IH. split.
      * intros [->|[Hx _]]; [split; [exact Hin|reflexivity]|].
        exfalso. apply Hx. left. exact E.
      * intros [_ H]. left. congruence.
    + cbn [In]. rewrite IH. split.
      * intros [->|[Hx F]]; [congruence|].
        split; [|exact F]. intro H. apply Hx. now right.
      * intros [Hx F]. right. split; [|exact F].
        intros [H|H]; [congruence|contradiction].
Qed.

Lemma uniqueBy_filter_NoDup (array : list T) :
  forall seen : list K,
    NoDup (map key (uniqueBy_filter K_eq_dec key seen array)).
Proof.
  induction array as [|item rest IH]; intro seen; [constructor|].
  cbn [uniqueBy_filter].
  destruct (in_dec K_eq_dec (key item) seen) as [Hin|Hin]; [apply IH|].
  cbn [map]. constructor; [|apply IH].
  intro H. apply in_map_iff in H. destruct H as [y [Ey Hy]].
  apply uniqueBy_filter_first in Hy. destruct Hy as [Hy _].
  apply Hy. left. now symmetry.
Qed.

Lemma uniqueBy_filter_fixed (array : list T) :
  forall seen : list K,
    NoDup (map key array) ->
    (forall x, In x array -> ~ In (key x) seen) ->
    uniqueBy_filter K_eq_dec key seen array = array.
Proof.
  induction array as [|item rest IH]; intros seen N D; [reflexivity|].
  cbn [uniqueBy_filter]. inversion N as [|? ? Hnot N']; subst.
  destruct (in_dec K_eq_dec (key item) seen) as [Hin|Hin].
  - exfalso. apply (D item); [now left|exact Hin].
  - f_equal. apply IH; [exact N'|].
    intros x Hx [H|H].
    + apply Hnot. rewrite H. now apply in_map.
    + apply (D x); [now right|exact H].
Qed.

Lemma find_same_key (array : list T) (x : T) :
  In x array ->
  exists y, find (fun y => if K_eq_dec (key y) (key x) then true else false)
         array = Some y /\ key y = key x.
Proof.
  induction array as [|item rest IH]; [contradiction|].
  intro H. cbn [find]. cbv beta.
  destruct (K_eq_dec (key item) (key x)) as [E|E].
  - exists item. split; [reflexivity|exact E].
  - destruct H as [->|H]; [congruence|]. now apply IH.
Qed.

Lemma find_same (f g : T -> bool) (l : list T) :
  (forall a, f a = g a) -> find f l = find g l.
Proof.
  intro H. induction l as [|a l IH]; [reflexivity|]. simpl.
  rewrite H, IH. reflexivity.
Qed.

End Unique.

(** X15: [uniqueBy] keeps, for every key, the first item of the array that
    has it: the keys of the result are distinct, an item is in the result
    exactly when it is the first of the array with its key, and every key of
    the array is the key of a kept item. *)
Theorem uniqueBy_first_occurrences {T K : Type}
  (K_eq_dec : forall a b : K, {a = b} + {a <> b})
  (array : list T) (key : T -> K) :
  NoDup (map key (uniqueBy K_eq_dec array key))
  /\ (forall x,
        In x (uniqueBy K_eq_dec array key)
        <-> find (fun y => if K_eq_dec (key y) (key x) then true else false)
              array = Some x)
  /\ (forall x, In x array ->
        In (key x) (map key (uniqueBy K_eq_dec array key))).
Proof.
  split; [apply uniqueBy_filter_NoDup|].
  assert (F : forall x,
             In x (uniqueBy K_eq_dec array key)
             <-> find (fun y => if K_eq_dec (key y) (key x) then true
                                else false) array = Some x).
  { intro x. unfold uniqueBy. rewrite uniqueBy_filter_first.
    split; [tauto|]. intro H. split; [intros []|exact H]. }
  split; [exact F|].
  intros x Hx. destruct (find_same_key K_eq_dec key array x Hx) as [y [E Ky]].
  rewrite <- Ky. apply in_map. apply F.
  rewrite <- E. apply find_same. intro z. now rewrite Ky.
Qed.

(** X16: [uniqueBy] changes nothing in an array whose keys are distinct, so
    applying it twice is applying it once. *)
Theorem uniqueBy_idempotent {T K : Type}
  (K_eq_dec : forall a b : K, {a = b} + {a <> b})
  (array : list T) (key : T -> K) :
  uniqueBy K_eq_dec (uniqueBy K_eq_dec array key) key
  = uniqueBy K_eq_dec array key
  /\ (NoDup (map key array) -> uniqueBy K_eq_dec array key = array).
Proof.
  assert (F : forall l, NoDup (map key l) -> uniqueBy K_eq_dec l key = l).
  { intros l N. unfold uniqueBy. apply uniqueBy_filter_fixed; [exact N|].
    intros x _ []. }
  split; [|apply F]. apply F. apply uniqueBy_filter_NoDup.
Qed.

(** ** [findRisingStarChannels] *)

Lemma chunkArray_loop_acc {T : Type} (fuel : nat) (array : list T)
  (size : Z) :
  forall (i : Z) (acc : list (list T)),
    chunkArray_loop fuel array size i acc
    = option_map (app acc) (chunkArray_loop fuel array size i []).
Proof.
  induction fuel as [|fuel IH]; intros i acc; [reflexivity|].
  cbn [chunkArray_loop].
  destruct (i <? Z.of_nat (List.length array))%Z.
  - rewrite IH. rewrite (IH _ ([] ++ _)).
    destruct (chunkArray_loop fuel array size (i + size) []) as [r|];
      [|reflexivity].
    simpl. now rewrite <- app_assoc.
  - simpl. now rewrite app_nil_r.
Qed.

Section RisingStarLoop.

Import RisingStar.

Variable fetchChannels : list string -> option (list ChannelResource).
Variable channelMap : ChannelMap.
Variable channelIds : list string.

(** The loop of the first version makes the requests of the batches of
    [chunkArray], in their order. *)
Lemma statsLoop_chunks (fuel : nat) :
  forall (i : Z) (channelsInfo : list ChannelInfo),
    statsLoop fuel fetchChannels channelMap channelIds i channelsInfo
    = option_map
        (fun batches =>
           fold_left
             (fun channelsInfo batch =>
                channelsInfo
                ++ processBatch channelMap (fetchChannels batch))
             batches channelsInfo)
        (chunkArray_loop fuel channelIds BATCH_SIZE i []).
Proof.
  induction fuel as [|fuel IH]; intros i infos; [reflexivity|].
  cbn [statsLoop chunkArray_loop].
  destruct (i <? Z.of_nat (List.length channelIds))%Z; [|reflexivity].
  cbv zeta.
  rewrite (chunkArray_loop_acc fuel channelIds BATCH_SIZE _ ([] ++ _)).
  rewrite IH. change (i + BATCH_SIZE)%Z with (i + 50)%Z.
  destruct (chunkArray_loop fuel channelIds BATCH_SIZE (i + 50) [])
    as [r|]; reflexivity.
Qed.

Lemma fold_left_push {B : Type} (f : B -> list ChannelInfo) (l : list B) :
  forall init,
    fold_left (fun acc b => acc ++ f b) l init = init ++ flat_map f l.
Proof.
  induction l as [|b l IH]; intro init; simpl.
  - now rewrite app_nil_r.
  - rewrite IH. now rewrite app_assoc.
Qed.

End RisingStarLoop.

(** X17: the two versions of [findRisingStarChannels] return the same
    channels: the loop over [slice(i, i + 50)] and the loop over
    [chunkArray(channelIds, 50)] make the same requests in the same
    order. *)
Theorem findRisingStarChannels_versions_agree (fuel : nat)
  (fetchChannels : list string -> option (list RisingStar.ChannelResource))
  (items : list RisingStar.SearchItem) :
  RisingStar.findRisingStarChannels fuel fetchChannels items
  = RisingStar.findRisingStarChannels_batched fuel fetchChannels items.
Proof.
  unfold RisingStar.findRisingStarChannels,
    RisingStar.findRisingStarChannels_batched, chunkArray.
  cbv zeta. rewrite statsLoop_chunks.
  destruct (chunkArray_loop fuel _ RisingStar.BATCH_SIZE 0 []);
    reflexivity.
Qed.

Section RisingStarMap.

Import RisingStar.

Lemma Map_get_increment (channelMap : ChannelMap) (c k : string) :
  Map_get (Map_increment channelMap c) k
  = if String.eqb c k
    then option_map
           (fun v => {| data_channelId := data_channelId v;
                        data_videoCount := (data_videoCount v + 1)%Z;
                        data_thumbnail := data_thumbnail v;
                        data_title := data_title v |})
           (Map_get channelMap k)
    else Map_get channelMap k.
Proof.
  induction channelMap as [|[k0 v] rest IH]; cbn [Map_increment Map_get].
  - destruct (String.eqb c k); reflexivity.
  - destruct (String.eqb_spec k0 c) as [E0|E0]; cbn [Map_get].
    + subst k0. destruct (String.eqb c k); reflexivity.
    + rewrite IH. destruct (String.eqb_spec c k) as [E|E].
      * subst k. destruct (String.eqb_spec k0 c); [congruence|reflexivity].
      * reflexivity.
Qed.

Lemma Map_get_app (channelMap : ChannelMap) (c k : string) (d : ChannelData) :
  Map_get (channelMap ++ [(c, d)]) k
  = match Map_get channelMap k with
    | Some x => Some x
    | None => if String.eqb c k then Some d else None
    end.
Proof.
  induction channelMap as [|[k0 v] rest IH]; cbn [app Map_get];
    [reflexivity|].
  destruct (String.eqb k0 k); [reflexivity|exact IH].
Qed.

Lemma Map_increment_length (channelMap : ChannelMap) (c : string) :
  List.length (Map_increment channelMap c) = List.length channelMap.
Proof.
  induction channelMap as [|[k0 v] rest IH]; [reflexivity|].
  cbn [Map_increment]. destruct (String.eqb k0 c); simpl; congruence.
Qed.

Lemma find_app_first {A : Type} (f : A -> bool) (l1 l2 : list A) :
  find f (l1 ++ l2)
  = match find f l1 with Some x => Some x | None => find f l2 end.
Proof.
  induction l1 as [|a l1 IH]; [reflexivity|]. simpl.
  destruct (f a); [reflexivity|exact IH].
Qed.

Lemma collectChannels_step (items : list SearchItem) :
  forall (channelMap : ChannelMap) (processed : list SearchItem),
    collected channelMap processed ->
    collected
      (fold_left
         (fun channelMap item =>
            let channelId := snippet_channelId item in
            match Map_get channelMap channelId with
            | Some _ => Map_increment channelMap channelId
            | None =>
                channelMap
                ++ [(channelId,
                     {| data_channelId := channelId;
                        data_videoCount := 1;
                        data_thumbnail := snippet_thumbnail item;
                        data_title := snippet_channelTitle item |})]
            end)
         items channelMap)
      (processed ++ items).
Proof.
  induction items as [|item items IH]; intros m processed [L I].
  - simpl. rewrite app_nil_r. split; assumption.
  - cbn [fold_left].
    replace (processed ++ item :: items)
      with ((processed ++ [item]) ++ items)
      by (rewrite <- app_assoc; reflexivity).
    apply IH. cbv zeta.
    pose proof (I (snippet_channelId item)) as Ic.
    destruct (Map_get m (snippet_channelId item)) as [d|] eqn:G.
    + split.
      * rewrite Map_increment_length, length_app. simpl. lia.
      * intro k. rewrite Map_get_increment, find_app_first.
        specialize (I k).
        destruct (String.eqb_spec (snippet_channelId item) k) as [E|E].
        -- subst k. rewrite G in *. cbn [option_map].
           destruct Ic as [it [F [Ht Hth]]]. exists it. rewrite F.
           repeat split; assumption.
        -- destruct (Map_get m k) as [d'|].
           ++ destruct I as [it [F [Ht Hth]]]. exists it. rewrite F.
              repeat split; assumption.
           ++ rewrite I. cbn [find].
              destruct (String.eqb_spec (snippet_channelId item) k);
                [contradiction|reflexivity].
    + split.
      * rewrite !length_app. simpl. lia.
      * intro k. rewrite Map_get_app, find_app_first.
        specialize (I k).
        destruct (Map_get m k) as [d'|].
        -- destruct I as [it [F [Ht Hth]]]. exists it. rewrite F.
           repeat split; assumption.
        -- rewrite I. cbn [find].
           destruct (String.eqb (snippet_channelId item) k);
             [|reflexivity].
           exists item. repeat split.
Qed.

Lemma collectChannels_collected (items : list SearchItem) :
  collected (collectChannels items) items.
Proof.
  apply (collectChannels_step items [] []). split; [simpl; lia|].
  intro k. reflexivity.
Qed.

Lemma pushChannel_risingStar (items : list SearchItem)
  (channel : ChannelResource) (c : ChannelInfo) :
  In c (pushChannel (collectChannels items) channel) -> risingStar items c.
Proof.
  unfold pushChannel. intro H.
  destruct (collectChannels_collected items) as [_ I].
  specialize (I (resource_id channel)).
  destruct (Map_get (collectChannels items) (resource_id channel)) as [d|];
    [|contradiction].
  cbv zeta in H.
  destruct (parseCounter channel statistics_subscriberCount) as [s|];
    [|contradiction].
  destruct (parseCounter channel statistics_videoCount) as [v|];
    [|rewrite andb_false_r in H; contradiction].
  cbn [number_ge number_lt] in H.
  unfold MIN_SUBSCRIBERS, MAX_SUBSCRIBERS, MIN_VIDEO_COUNT in H.
  destruct (Z.geb_spec s 1000); [|contradiction].
  destruct (Z.ltb_spec s 100000); [|contradiction].
  destruct (Z.geb_spec v 5); [|contradiction].
  destruct H as [<-|[]]. destruct I as [item [F [Ht Hth]]].
  exists s, v, item. cbn [subscriberCount videoCount id title thumbnail].
  repeat split; try assumption; lia.
Qed.

Lemma risingStar_score (items : list SearchItem) (c : ChannelInfo) :
  risingStar items c -> risingScore c = videosPerSubscriber c.
Proof.
  intros [s [v [item [Hs [Bs [Hv [Bv _]]]]]]].
  unfold risingScore, videosPerSubscriber. rewrite Hs, Hv.
  cbn [number_or].
  destruct (Z.eqb_spec v 0); [lia|]. destruct (Z.eqb_spec s 0); [lia|].
  now replace (Z.max s 1) with s by lia.
Qed.

Lemma compareRising_key (a b : ChannelInfo) :
  0 < compareRising a b <-> risingScore a < risingScore b.
Proof. unfold compareRising. split; intro; lra. Qed.

End RisingStarMap.

Lemma firstn_In {A : Type} (n : nat) (l : list A) (x : A) :
  In x (firstn n l) -> In x l.
Proof.
  revert n. induction l as [|a l IH]; intros [|n] H; simpl in *;
    try contradiction.
  destruct H as [H|H]; [now left|right; now apply (IH n)].
Qed.

Lemma StronglySorted_firstn {A : Type} (R : A -> A -> Prop) (n : nat)
  (l : list A) :
  StronglySorted R l -> StronglySorted R (firstn n l).
Proof.
  intro S. revert n. induction S as [|a l Sl IH Ha]; intros [|n]; simpl;
    try constructor.
  - apply IH.
  - rewrite Forall_forall in *. intros x Hx. apply Ha.
    eapply firstn_In; eassumption.
Qed.

Lemma StronglySorted_weaken_in {A : Type} (R R' : A -> A -> Prop)
  (l : list A) :
  (forall a b, In a l -> In b l -> R a b -> R' a b) ->
  StronglySorted R l -> StronglySorted R' l.
Proof.
  intros W S. induction S as [|a l Sl IH Ha]; constructor.
  - apply IH. intros x y Hx Hy. apply W; now right.
  - rewrite Forall_forall in *. intros x Hx.
    apply W; [now left|now right|now apply Ha].
Qed.

(** X18: given the search items and the responses for the batches,
    [findRisingStarChannels] returns once the fuel exceeds the number of
    items; it returns at most 10 channels, each with 1000 to 99999
    subscribers and at least 5 videos and with the title and thumbnail of
    the first search item of that channel, ordered by videos per
    subscriber, greatest first. *)
Theorem findRisingStarChannels_spec (fuel : nat)
  (fetchChannels : list string -> option (list RisingStar.ChannelResource))
  (items : list RisingStar.SearchItem) :
  (List.length items < fuel)%nat ->
  exists result,
    RisingStar.findRisingStarChannels fuel fetchChannels items = Some result
    /\ (List.length result <= 10)%nat
    /\ Forall (RisingStar.risingStar items) result
    /\ descending RisingStar.videosPerSubscriber result.
Proof.
  intro Hf. unfold RisingStar.findRisingStarChannels. cbv zeta.
  set (m := RisingStar.collectChannels items).
  set (ids := map fst m).
  assert (Hl : (List.length ids <= List.length items)%nat).
  { unfold ids. rewrite length_map.
    apply (proj1 (collectChannels_collected items)). }
  rewrite statsLoop_chunks.
  destruct (chunkArray_loop_spec ids RisingStar.BATCH_SIZE fuel
              ltac:(unfold RisingStar.BATCH_SIZE; lia) 0 []
              ltac:(lia) ltac:(lia)) as [batches [E _]].
  rewrite E. cbn [app option_map]. rewrite fold_left_push. cbn [app].
  set (infos := flat_map
                  (fun batch =>
                     RisingStar.processBatch m (fetchChannels batch))
                  batches).
  assert (Hi : Forall (RisingStar.risingStar items) infos).
  { apply Forall_forall. intros c Hc. unfold infos in Hc.
    apply in_flat_map in Hc. destruct Hc as [batch [_ Hc]].
    unfold RisingStar.processBatch in Hc.
    destruct (fetchChannels batch) as [chs|]; [|contradiction].
    apply in_flat_map in Hc. destruct Hc as [ch [_ Hc]].
    now apply (pushChannel_risingStar items ch). }
  pose proof (js_sort_perm RisingStar.compareRising infos) as P.
  pose proof (js_sort_descending RisingStar.compareRising
                RisingStar.risingScore compareRising_key infos) as D.
  set (sorted := js_sort RisingStar.compareRising infos) in *.
  assert (Hs : Forall (RisingStar.risingStar items) sorted)
    by (apply (Permutation_Forall (Permutation_sym P)); exact Hi).
  eexists. split; [reflexivity|].
  change 10%Z with (Z.of_nat 10). rewrite slice_first.
  split; [rewrite length_firstn; lia|]. split.
  - apply Forall_forall. intros c Hc. rewrite Forall_forall in Hs.
    apply Hs. eapply firstn_In; exact Hc.
  - apply StronglySorted_firstn.
    apply (StronglySorted_weaken_in
             (fun a b => RisingStar.risingScore b
                         <= RisingStar.risingScore a)); [|exact D].
    intros a b Ha Hb H. rewrite Forall_forall in Hs.
    rewrite <- (risingStar_score items a (Hs a Ha)).
    rewrite <- (risingStar_score items b (Hs b Hb)). exact H.
Qed.

Section RisingStarKeys.

Import RisingStar.

Lemma Map_increment_keys (channelMap : ChannelMap) (c : string) :
  map fst (Map_increment channelMap c) = map fst channelMap.
Proof.
  induction channelMap as [|[k0 v] rest IH]; [reflexivity|].
  cbn [Map_increment]. destruct (String.eqb k0 c); simpl; congruence.
Qed.

Lemma Map_get_keys (channelMap : ChannelMap) (k : string) :
  Map_get channelMap k = None <-> ~ In k (map fst channelMap).
Proof.
  induction channelMap as [|[k0 v] rest IH]; cbn [Map_get map fst In].
  - tauto.
  - destruct (String.eqb_spec k0 k) as [E|E].
    + split; [discriminate|]. intro H. exfalso. apply H. now left.
    + rewrite IH. tauto.
Qed.

Lemma collectChannels_keys_step (items : list SearchItem) :
  forall (channelMap : ChannelMap) (processed : list SearchItem),
    NoDup (map fst channelMap) ->
    (forall k, In k (map fst channelMap)
               <-> exists item, In item processed
                                /\ snippet_channelId item = k) ->
    let final :=
      fold_left
        (fun channelMap item =>
           let channelId := snippet_channelId item in
           match Map_get channelMap channelId with
           | Some _ => Map_increment channelMap channelId
           | None =>
               channelMap
               ++ [(channelId,
                    {| data_channelId := channelId;
                       data_videoCount := 1;
                       data_thumbnail := snippet_thumbnail item;
                       data_title := snippet_channelTitle item |})]
           end)
        items channelMap in
    NoDup (map fst final)
    /\ forall k, In k (map fst final)
                 <-> exists item, In item (processed ++ items)
                                  /\ snippet_channelId item = k.
Proof.
  induction items as [|item items IH]; intros m processed N I.
  - simpl. rewrite app_nil_r. split; assumption.
  - cbn [fold_left]. cbv zeta.
    replace (processed ++ item :: items)
      with ((processed ++ [item]) ++ items)
      by (rewrite <- app_assoc; reflexivity).
    apply IH.
    + destruct (Map_get m (snippet_channelId item)) eqn:G.
      * now rewrite Map_increment_keys.
      * rewrite map_app. cbn [map fst].
        apply Map_get_keys in G.
        apply NoDup_app; [exact N|repeat constructor; intros []|].
        intros x Hx [<-|[]]. contradiction.
    + intro k.
      assert (K : In k (map fst m) \/ snippet_channelId item = k
                  <-> exists it, In it (processed ++ [item])
                                 /\ snippet_channelId it = k).
      { rewrite I. split.
        - intros [[it [Hi E]]|E].
          + exists it. split; [apply in_or_app; now left|exact E].
          + exists item. split; [apply in_or_app; right; now left|exact E].
        - intros [it [Hi E]]. apply in_app_or in Hi.
          destruct Hi as [Hi|[<-|[]]]; [left; now exists it|now right]. }
      rewrite <- K.
      destruct (Map_get m (snippet_channelId item)) eqn:G.
      * rewrite Map_increment_keys. split; [now left|].
        intros [H|<-]; [exact H|].
        destruct (in_dec String.string_dec (snippet_channelId item)
                    (map fst m)) as [Y|Y]; [exact Y|].
        apply Map_get_keys in Y. congruence.
      * rewrite map_app, in_app_iff. cbn [map fst In]. tauto.
Qed.

Lemma collectChannels_keys (items : list SearchItem) :
  NoDup (map fst (collectChannels items))
  /\ forall k, In k (map fst (collectChannels items))
               <-> exists item, In item items /\ snippet_channelId item = k.
Proof.
  apply (collectChannels_keys_step items [] []); [constructor|].
  intro k. simpl. split; [contradiction|]. intros [it [[] _]].
Qed.

End RisingStarKeys.

(** X19: the refactored [findRisingStarChannels] asks for the statistics in
    batches of 1 to 50 channel identifiers; each channel of the search
    items is asked for exactly once, and no other identifier is. *)
Theorem findRisingStarChannels_requests (fuel : nat)
  (items : list RisingStar.SearchItem) :
  (List.length items < fuel)%nat ->
  exists batches,
    chunkArray fuel (map fst (RisingStar.collectChannels items))
      RisingStar.BATCH_SIZE = Some batches
    /\ Forall (fun batch => (1 <= List.length batch <= 50)%nat) batches
    /\ NoDup (List.concat batches)
    /\ forall channelId,
         In channelId (List.concat batches)
         <-> exists item,
               In item items
               /\ RisingStar.snippet_channelId item = channelId.
Proof.
  intro Hf.
  destruct (collectChannels_keys items) as [N K].
  pose proof (proj1 (collectChannels_collected items)) as L.
  set (ids := map fst (RisingStar.collectChannels items)) in *.
  assert (Hl : (List.length ids <= List.length items)%nat)
    by (unfold ids; now rewrite length_map).
  destruct (chunkArray_loop_spec ids RisingStar.BATCH_SIZE fuel
              ltac:(unfold RisingStar.BATCH_SIZE; lia) 0 []
              ltac:(lia) ltac:(lia)) as [batches [E [C [F _]]]].
  exists batches. simpl in C. rewrite C.
  split; [exact E|]. split; [|split; assumption].
  eapply Forall_impl; [|exact F]. intros b Hb. cbv beta in Hb.
  unfold RisingStar.BATCH_SIZE in Hb. lia.
Qed.

Lemma findRisingStarChannels_spec_witness :
  (List.length RisingStar.example_items < 4)%nat
  /\ exists result,
       RisingStar.findRisingStarChannels 4 RisingStar.example_response
         RisingStar.example_items = Some result
       /\ (List.length result <= 10)%nat
       /\ Forall (RisingStar.risingStar RisingStar.example_items) result
       /\ descending RisingStar.videosPerSubscriber result.
Proof.
  split; [simpl; lia|].
  apply (findRisingStarChannels_spec 4 RisingStar.example_response
           RisingStar.example_items).
  simpl; lia.
Defined.

Lemma findRisingStarChannels_requests_witness :
  (List.length RisingStar.example_items < 4)%nat
  /\ exists batches,
       chunkArray 4 (map fst (RisingStar.collectChannels
                                RisingStar.example_items))
         RisingStar.BATCH_SIZE = Some batches
       /\ Forall (fun batch => (1 <= List.length batch <= 50)%nat) batches
       /\ NoDup (List.concat batches)
       /\ forall channelId,
            In channelId (List.concat batches)
            <-> exists item,
                  In item RisingStar.example_items
                  /\ RisingStar.snippet_channelId item = channelId.
Proof.
  split; [simpl; lia|].
  apply (findRisingStarChannels_requests 4 RisingStar.example_items).
  simpl; lia.
Defined.

Local Open Scope string_scope.

(** ** [isValidApiKey] *)


(** X20: [isValidApiKey] accepts exactly the strings that start with [AIza];
    the tests for an empty and for a blank string reject nothing more. *)
Theorem isValidApiKey_prefix (apiKey : string) :
  isValidApiKey apiKey = true <-> exists rest, apiKey = "AIza" ++ rest.
Proof.
  unfold isValidApiKey. split.
  - intro H. apply andb_prop in H. destruct H as [_ H].
    destruct apiKey as [|a [|b [|c [|d r]]]]; cbn [prefix] in H;
      repeat match type of H with
             | context [ascii_dec ?x ?y] => destruct (ascii_dec x y)
             end; try discriminate.
    subst. now exists r.
  - intros [rest ->]. destruct rest; reflexivity.
Qed.

(** ** [convertToCSV] *)

Lemma plain_cons (c : ascii) (s : string) :
  plain (String c s) = true
  <-> (Ascii.eqb c comma = false /\ Ascii.eqb c quote = false
       /\ Ascii.eqb c newline = false) /\ plain s = true.
Proof.
  unfold plain. cbn [includes].
  destruct (Ascii.eqb c comma), (Ascii.eqb c quote), (Ascii.eqb c newline),
    (includes comma s), (includes quote s), (includes newline s);
    simpl; intuition congruence.
Qed.

Lemma escapeCsvValue_plain (s : string) :
  plain s = true -> escapeCsvValue s = s.
Proof.
  unfold plain, escapeCsvValue. intro H. apply negb_true_iff in H.
  now rewrite H.
Qed.

Lemma escapeCsvValue_quoted (s : string) :
  plain s = false ->
  escapeCsvValue s
  = String quote (double_quotes s ++ String quote EmptyString).
Proof.
  unfold plain, escapeCsvValue. intro H. apply negb_false_iff in H.
  now rewrite H.
Qed.

Lemma read_after_field (st : csv_state) (field : string) (row : list string)
  (rows : list (list string)) (rest : string) :
  st <> InQuoted -> after_field rest ->
  read_csv_from st field row rows rest
  = read_csv_from InPlain field row rows rest.
Proof.
  intros Hst Hr. destruct rest as [|c r]; [reflexivity|].
  destruct Hr as [->| ->]; destruct st; try congruence; reflexivity.
Qed.

Lemma read_plain (v : string) :
  plain v = true ->
  forall (st : csv_state) (field : string) (row : list string)
    (rows : list (list string)) (rest : string),
    st = AtStart \/ st = InPlain -> after_field rest ->
    read_csv_from st field row rows (v ++ rest)
    = read_csv_from InPlain (field ++ v) row rows rest.
Proof.
  induction v as [|c v IH]; intros P st field row rows rest Hst Hr.
  - cbn [append]. rewrite append_empty_r.
    apply read_after_field; [|exact Hr].
    destruct Hst as [-> | ->]; discriminate.
  - apply plain_cons in P. destruct P as [[C [Q N]] P].
    cbn [append read_csv_from]. rewrite C, N, Q.
    replace (field ++ String c v) with ((field ++ String c EmptyString) ++ v)
      by (rewrite append_assoc; reflexivity).
    destruct Hst as [-> | ->]; apply (IH P); auto.
Qed.

Lemma read_quoted (v : string) :
  forall (field : string) (row : list string) (rows : list (list string))
    (rest : string),
    read_csv_from InQuoted field row rows
      (double_quotes v ++ String quote rest)
    = read_csv_from AfterQuote (field ++ v) row rows rest.
Proof.
  induction v as [|c v IH]; intros field row rows rest.
  - cbn [double_quotes append read_csv_from]. rewrite Ascii.eqb_refl.
    now rewrite append_empty_r.
  - cbn [double_quotes].
    replace (field ++ String c v) with ((field ++ String c EmptyString) ++ v)
      by (rewrite append_assoc; reflexivity).
    destruct (Ascii.eqb_spec c quote) as [->|Hc].
    + cbn [append read_csv_from]. rewrite Ascii.eqb_refl.
      change (Ascii.eqb quote comma) with false.
      change (Ascii.eqb quote newline) with false. cbv iota.
      apply IH.
    + cbn [append read_csv_from].
      destruct (Ascii.eqb_spec c quote); [contradiction|]. apply IH.
Qed.

(** Reading an escaped value gives the value back. *)
Lemma read_field (v : string) (row : list string)
  (rows : list (list string)) (rest : string) :
  after_field rest ->
  read_csv_from AtStart EmptyString row rows (escapeCsvValue v ++ rest)
  = read_csv_from InPlain v row rows rest.
Proof.
  intro Hr. destruct (plain v) eqn:P.
  - rewrite escapeCsvValue_plain by exact P.
    now rewrite (read_plain v P AtStart EmptyString row rows rest)
      by auto.
  - rewrite escapeCsvValue_quoted by exact P.
    cbn [append read_csv_from].
    change (Ascii.eqb quote comma) with false.
    change (Ascii.eqb quote newline) with false.
    rewrite Ascii.eqb_refl. cbv iota.
    rewrite append_assoc. cbn [append]. rewrite read_quoted.
    cbn [append]. apply read_after_field; [discriminate|exact Hr].
Qed.

Lemma concat_cons (sep x y : string) (l : list string) :
  String.concat sep (x :: y :: l) = x ++ sep ++ String.concat sep (y :: l).
Proof. reflexivity. Qed.

Lemma read_line (values : list string) :
  values <> [] ->
  forall (row : list string) (rows : list (list string)) (rest : string),
    after_line rest ->
    read_csv_from AtStart EmptyString row rows (csv_line values ++ rest)
    = match rest with
      | EmptyString => (rows ++ [(row ++ values)%list])%list
      | String _ r =>
          read_csv_from AtStart EmptyString []
            (rows ++ [(row ++ values)%list])%list r
      end.
Proof.
  unfold csv_line.
  induction values as [|v values IH]; [congruence|]. intros _ row rows rest Hr.
  destruct values as [|v' values].
  - cbn [map String.concat]. rewrite read_field.
    + destruct rest as [|c r]; [reflexivity|]. simpl in Hr. subst c.
      reflexivity.
    + destruct rest; simpl in *; auto.
  - change (map escapeCsvValue (v :: v' :: values))
      with (escapeCsvValue v :: escapeCsvValue v'
            :: map escapeCsvValue values).
    rewrite concat_cons, !append_assoc. cbn [append].
    rewrite read_field by (simpl; now left).
    cbn [read_csv_from]. rewrite Ascii.eqb_refl.
    change (escapeCsvValue v' :: map escapeCsvValue values)
      with (map escapeCsvValue (v' :: values)).
    rewrite (IH ltac:(discriminate) (row ++ [v])%list rows rest Hr).
    rewrite <- app_assoc. reflexivity.
Qed.

Lemma read_lines (lines : list (list string)) :
  lines <> [] -> Forall (fun values => values <> []) lines ->
  forall rows : list (list string),
    read_csv_from AtStart EmptyString [] rows
      (String.concat (String newline EmptyString) (map csv_line lines))
    = (rows ++ lines)%list.
Proof.
  induction lines as [|l lines IH]; [congruence|]. intros _ F rows.
  inversion F as [|? ? Hl F']; subst.
  destruct lines as [|l' lines].
  - cbn [map String.concat].
    rewrite <- (append_empty_r (csv_line l)).
    now rewrite (read_line l Hl [] rows EmptyString I).
  - change (map csv_line (l :: l' :: lines))
      with (csv_line l :: csv_line l' :: map csv_line lines).
    rewrite concat_cons. cbn [append].
    rewrite (read_line l Hl [] rows (String newline _) eq_refl). cbn [app].
    change (csv_line l' :: map csv_line lines)
      with (map csv_line (l' :: lines)).
    rewrite (IH ltac:(discriminate) F').
    rewrite <- app_assoc. reflexivity.
Qed.

(** X21: when there is at least one header and no header holds a comma, a
    quote or a line feed, reading the text of [convertToCSV] gives back the
    headers and, row by row, the values under them: commas, quotes and line
    feeds inside a value survive. *)
Theorem convertToCSV_read_back (data : list (string -> option string))
  (headers : list string) :
  headers <> [] -> forallb plain headers = true ->
  read_csv (convertToCSV data headers) = csv_table data headers.
Proof.
  intros Hne Hp. unfold read_csv, convertToCSV, csv_table. cbv zeta.
  assert (Eh : String.concat (String comma EmptyString) headers
               = csv_line headers).
  { unfold csv_line. f_equal. rewrite <- (map_id headers) at 1.
    apply map_ext_in. intros h Hh. symmetry. apply escapeCsvValue_plain.
    rewrite forallb_forall in Hp. now apply Hp. }
  rewrite Eh.
  set (cell := fun (row : string -> option string) (h : string) =>
                 match row h with Some v => v | None => EmptyString end).
  assert (Ed : map (fun row =>
                      String.concat (String comma EmptyString)
                        (map (fun h => escapeCsvValue (cell row h)) headers))
                 data
               = map csv_line (map (fun row => map (cell row) headers) data)).
  { rewrite map_map. apply map_ext. intro row. unfold csv_line.
    now rewrite map_map. }
  unfold cell in Ed at 1. rewrite Ed.
  change (csv_line headers
          :: map csv_line (map (fun row => map (cell row) headers) data))
    with (map csv_line
            (headers :: map (fun row => map (cell row) headers) data)).
  rewrite read_lines; [reflexivity|discriminate|].
  constructor; [exact Hne|]. apply Forall_forall. intros l Hl.
  apply in_map_iff in Hl. destruct Hl as [row [<- _]].
  destruct headers; [congruence|discriminate].
Qed.

Lemma convertToCSV_read_back_witness :
  example_headers <> [] /\ forallb plain example_headers = true
  /\ read_csv (convertToCSV [example_row] example_headers)
     = csv_table [example_row] example_headers.
Proof.
  split; [discriminate|]. split; [reflexivity|].
  apply (convertToCSV_read_back [example_row] example_headers);
    [discriminate|reflexivity].
Defined.

(** ** [formatDuration] *)

Lemma digit_not_colon (c : ascii) :
  is_digit c = true -> Ascii.eqb c ":" = false.
Proof.
  intro H. destruct (Ascii.eqb_spec c ":") as [->|]; [discriminate|].
  reflexivity.
Qed.

Lemma read_clock_digits (ds : string) :
  all_digits ds = true ->
  forall (total field : Z) (rest : string),
    read_clock total field (ds ++ rest)
    = read_clock total (parse_digits field ds) rest.
Proof.
  induction ds as [|c ds IH]; intros D total field rest; [reflexivity|].
  cbn [all_digits] in D. apply andb_prop in D. destruct D as [Dc D].
  cbn [append read_clock parse_digits].
  rewrite (digit_not_colon c Dc), Dc. now apply IH.
Qed.

Lemma parse_digits_decimal (n : N) : parse_digits 0 (decimal n) = Z.of_N n.
Proof.
  rewrite <- (append_empty_r (decimal n)). now rewrite parse_decimal.
Qed.

Lemma padStart_digits (n : N) :
  all_digits (padStart 2 "0" (decimal n)) = true
  /\ parse_digits 0 (padStart 2 "0" (decimal n)) = Z.of_N n.
Proof.
  unfold padStart.
  pose proof (decimal_fuel_digits (S (N.to_nat (N.size n))) n) as D.
  fold (decimal n) in D. pose proof (parse_digits_decimal n) as P.
  destruct (2 - String.length (decimal n))%nat as [|[|k]];
    cbn [repeat_char append all_digits parse_digits].
  - split; assumption.
  - split; [exact D|exact P].
  - assert (Z : forall k s, all_digits s = true ->
                all_digits (repeat_char "0" k ++ s) = true
                /\ parse_digits 0 (repeat_char "0" k ++ s)
                   = parse_digits 0 s).
    { clear. induction k as [|k IH]; intros s H; [now split|].
      cbn [repeat_char append all_digits parse_digits].
      destruct (IH s H) as [A B]. split; [exact A|exact B]. }
    destruct (Z k (decimal n) D) as [A B]. split; [exact A|].
    change (is_digit "0") with true. cbv iota.
    change (0 * 10 + digit_value "0")%Z with 0%Z.
    change (is_digit "0") with true. cbv iota.
    change (0 * 10 + digit_value "0")%Z with 0%Z.
    now rewrite B.
Qed.

Lemma String_of_integer_nonneg (n : Z) :
  (0 <= n)%Z -> String_of_integer n = decimal (Z.to_N n).
Proof.
  intro H. unfold String_of_integer.
  destruct (Z.ltb_spec n 0); [lia|reflexivity].
Qed.

(** X22: for a whole number of seconds that is not negative, the text of
    [formatDuration] read as a clock, each field worth 60 of the next, is
    that number of seconds. *)
Theorem formatDuration_read_back (seconds : Z) :
  (0 <= seconds)%Z -> clock_seconds (formatDuration seconds) = seconds.
Proof.
  intro H. unfold formatDuration, clock_seconds. cbv zeta.
  rewrite !Z.rem_mod_nonneg by lia.
  set (h := (seconds / 3600)%Z). set (m := (seconds mod 3600 / 60)%Z).
  set (s := (seconds mod 60)%Z).
  assert (Hh : (0 <= h)%Z) by (apply Z.div_pos; lia).
  assert (Hm : (0 <= m)%Z)
    by (apply Z.div_pos; [apply Z.mod_pos_bound|]; lia).
  assert (Hs : (0 <= s)%Z) by (apply Z.mod_pos_bound; lia).
  assert (E : (seconds = (h * 60 + m) * 60 + s)%Z).
  { unfold h, m, s. Z.to_euclidean_division_equations. lia. }
  rewrite !String_of_integer_nonneg by assumption.
  destruct (padStart_digits (Z.to_N m)) as [Am Pm].
  destruct (padStart_digits (Z.to_N s)) as [As Ps].
  pose proof (decimal_fuel_digits (S (N.to_nat (N.size (Z.to_N h))))
                (Z.to_N h)) as Dh. fold (decimal (Z.to_N h)) in Dh.
  pose proof (decimal_fuel_digits (S (N.to_nat (N.size (Z.to_N m))))
                (Z.to_N m)) as Dm. fold (decimal (Z.to_N m)) in Dm.
  destruct (Z.gtb_spec h 0) as [G|G].
  - rewrite read_clock_digits by exact Dh.
    cbn [append read_clock]. change (Ascii.eqb ":" ":") with true. cbv iota.
    rewrite read_clock_digits by exact Am.
    cbn [append read_clock]. change (Ascii.eqb ":" ":") with true. cbv iota.
    rewrite <- (append_empty_r (padStart 2 "0" (decimal (Z.to_N s)))).
    rewrite read_clock_digits by exact As.
    cbn [read_clock]. rewrite parse_digits_decimal, Pm, Ps. lia.
  - rewrite read_clock_digits by exact Dm.
    cbn [append read_clock]. change (Ascii.eqb ":" ":") with true. cbv iota.
    rewrite <- (append_empty_r (padStart 2 "0" (decimal (Z.to_N s)))).
    rewrite read_clock_digits by exact As.
    cbn [read_clock]. rewrite parse_digits_decimal, Ps. lia.
Qed.

Lemma formatDuration_read_back_witness :
  (0 <= 5445)%Z /\ clock_seconds (formatDuration 5445) = 5445%Z.
Proof.
  split; [lia|]. apply (formatDuration_read_back 5445). lia.
Defined.

(** ** [parseVideoUrl] *)

Lemma take_id_spec (n : nat) :
  forall s m, take_id n s = Some m ->
    String.length m = n /\ all_id_chars m = true
    /\ exists rest, s = m ++ rest.
Proof.
  induction n as [|n IH]; intros s m H.
  - injection H as <-. repeat split. now exists s.
  - cbn [take_id] in H. destruct s as [|c r]; [discriminate|].
    destruct (is_id_char c) eqn:C; [|discriminate].
    destruct (take_id n r) as [m'|] eqn:E; [|discriminate].
    injection H as <-. destruct (IH r m' E) as [L [A [rest ->]]].
    cbn [String.length all_id_chars]. rewrite C, A, L.
    repeat split. now exists rest.
Qed.

Lemma take_id_complete (m : string) :
  all_id_chars m = true ->
  forall rest, take_id (String.length m) (m ++ rest) = Some m.
Proof.
  induction m as [|c m IH]; intros A rest; [reflexivity|].
  cbn [all_id_chars] in A. apply andb_prop in A. destruct A as [C A].
  cbn [String.length take_id append]. rewrite C, (IH A). reflexivity.
Qed.

Lemma first_match_spec (at_front : string -> option string) (s m : string) :
  first_match at_front s = Some m -> exists t, at_front t = Some m.
Proof.
  induction s as [|c s IH]; cbn [first_match].
  - destruct (at_front EmptyString) eqn:E; [|discriminate].
    intro H. injection H as <-. now exists EmptyString.
  - destruct (at_front (String c s)) eqn:E.
    + intro H. injection H as <-. now exists (String c s).
    + exact IH.
Qed.

Lemma id_after_spec (lit s m : string) :
  id_after lit s = Some m -> video_id m.
Proof.
  unfold id_after. destruct (strip_prefix lit s) as [r|]; [|discriminate].
  intro H. destruct (take_id_spec 11 r m H) as [L [A _]]. now split.
Qed.

(** X23: whatever the text, an identifier returned by [parseVideoUrl] has
    exactly 11 characters, all letters, digits, [_] or [-]. *)
Theorem parseVideoUrl_identifier (url : string) :
  match parseVideoUrl url with
  | Some m => String.length m = 11%nat /\ all_id_chars m = true
  | None => True
  end.
Proof.
  unfold parseVideoUrl.
  destruct (first_match VIDEO_ID url) as [m|] eqn:V.
  - destruct (first_match_spec _ _ _ V) as [t Ht]. unfold VIDEO_ID in Ht.
    destruct (id_after "youtube.com/watch?v=" t) as [m'|] eqn:E.
    + injection Ht as <-. exact (id_after_spec _ _ _ E).
    + exact (id_after_spec _ _ _ Ht).
  - destruct (first_match SHORTS_ID url) as [m|] eqn:S; [|exact I].
    destruct (first_match_spec _ _ _ S) as [t Ht].
    exact (id_after_spec _ _ _ Ht).
Qed.

Lemma strip_prefix_id_chars (lit : string) :
  forall s r, strip_prefix lit s = Some r -> all_id_chars s = true ->
    all_id_chars lit = true.
Proof.
  induction lit as [|a lit IH]; intros s r H A; [reflexivity|].
  cbn [strip_prefix] in H. destruct s as [|b s]; [discriminate|].
  destruct (Ascii.eqb_spec a b) as [->|]; [|discriminate].
  cbn [all_id_chars] in *. apply andb_prop in A. destruct A as [C A].
  rewrite C. exact (IH s r H A).
Qed.

Lemma VIDEO_ID_id_chars (s : string) :
  all_id_chars s = true -> first_match VIDEO_ID s = None.
Proof.
  induction s as [|c s IH]; intro A.
  - reflexivity.
  - assert (N : VIDEO_ID (String c s) = None).
    { unfold VIDEO_ID, id_after.
      destruct (strip_prefix "youtube.com/watch?v=" (String c s)) eqn:E1.
      { apply strip_prefix_id_chars in E1; [discriminate E1|exact A]. }
      destruct (strip_prefix "youtu.be/" (String c s)) eqn:E2.
      { apply strip_prefix_id_chars in E2; [discriminate E2|exact A]. }
      reflexivity. }
    cbn [first_match]. rewrite N. apply IH.
    cbn [all_id_chars] in A. apply andb_prop in A. tauto.
Qed.

Lemma first_match_skip (at_front : string -> option string) (c : ascii)
  (s : string) :
  at_front (String c s) = None ->
  first_match at_front (String c s) = first_match at_front s.
Proof. intro H. cbn [first_match]. now rewrite H. Qed.

Lemma first_match_hit (at_front : string -> option string) (s m : string) :
  at_front s = Some m -> first_match at_front s = Some m.
Proof. intro H. destruct s; cbn [first_match]; now rewrite H. Qed.

(** X24: [parseVideoUrl] finds the identifier of a watch address and of a
    short address, whatever follows the 11 characters, and of a Shorts
    address that ends with the identifier. *)
Theorem parseVideoUrl_addresses (m rest : string) :
  video_id m ->
  parseVideoUrl ("https://youtube.com/watch?v=" ++ m ++ rest) = Some m
  /\ parseVideoUrl ("https://youtu.be/" ++ m ++ rest) = Some m
  /\ parseVideoUrl ("https://youtube.com/shorts/" ++ m) = Some m.
Proof.
  intros [L A].
  assert (T : forall r, take_id 11 (m ++ r) = Some m)
    by (intro r; rewrite <- L; now apply take_id_complete).
  unfold parseVideoUrl. split; [|split].
  - cbn [append].
    do 8 (rewrite first_match_skip by reflexivity).
    rewrite (first_match_hit VIDEO_ID _ m); [reflexivity|].
    unfold VIDEO_ID, id_after. cbn [strip_prefix Ascii.eqb Bool.eqb].
    now rewrite T.
  - cbn [append].
    do 8 (rewrite first_match_skip by reflexivity).
    rewrite (first_match_hit VIDEO_ID _ m); [reflexivity|].
    unfold VIDEO_ID, id_after. cbn [strip_prefix Ascii.eqb Bool.eqb].
    now rewrite T.
  - cbn [append].
    do 27 (rewrite (first_match_skip VIDEO_ID) by reflexivity).
    rewrite (VIDEO_ID_id_chars m A).
    do 19 (rewrite (first_match_skip SHORTS_ID) by reflexivity).
    rewrite (first_match_hit SHORTS_ID _ m); [reflexivity|].
    unfold SHORTS_ID, id_after. cbn [strip_prefix Ascii.eqb Bool.eqb].
    rewrite <- (append_empty_r m) at 1. apply T.
Qed.

Lemma parseVideoUrl_addresses_witness :
  video_id "dQw4w9WgXcQ"
  /\ parseVideoUrl ("https://youtube.com/watch?v=" ++ "dQw4w9WgXcQ" ++ "&t=1s")
     = Some "dQw4w9WgXcQ"
  /\ parseVideoUrl ("https://youtu.be/" ++ "dQw4w9WgXcQ" ++ "&t=1s")
     = Some "dQw4w9WgXcQ"
  /\ parseVideoUrl ("https://youtube.com/shorts/" ++ "dQw4w9WgXcQ")
     = Some "dQw4w9WgXcQ".
Proof.
  assert (V : video_id "dQw4w9WgXcQ") by (split; reflexivity).
  split; [exact V|].
  exact (parseVideoUrl_addresses "dQw4w9WgXcQ" "&t=1s" V).
Defined.

(** ** [parseDuration] is never negative *)


Lemma parse_digits_nonneg (s : string) :
  forall acc, (0 <= acc)%Z -> (0 <= parse_digits acc s)%Z.
Proof.
  induction s as [|c s IH]; intros acc H; cbn [parse_digits]; [exact H|].
  destruct (is_digit c); [|exact H]. apply IH. unfold digit_value. lia.
Qed.

Lemma group_nonneg (marker : ascii) (s r : string)
  (g : option (string * string)) :
  group marker s = (g, r) ->
  (0 <= or_zero (parseInt_opt (option_map fst g)))%Z.
Proof.
  intro G. unfold group in G.
  pose proof (span_digits_all s) as A.
  destruct (span_digits s) as [ds rest]. cbn [fst] in A.
  destruct ds as [|d ds]; [injection G as <- _; simpl; lia|].
  destruct rest as [|c rest]; [injection G as <- _; simpl; lia|].
  destruct (Ascii.eqb c marker); [|injection G as <- _; simpl; lia].
  injection G as <- _.
  cbn [option_map fst parseInt_opt append]. unfold parseInt.
  cbn [all_digits] in A. apply andb_prop in A. destruct A as [D _].
  rewrite D. unfold or_zero.
  pose proof (parse_digits_nonneg
                (String d (ds ++ String c EmptyString)) 0 ltac:(lia)) as N.
  destruct (Z.eqb_spec
              (parse_digits 0 (String d (ds ++ String c EmptyString))) 0);
    lia.
Qed.

(** X25: whatever the text, [parseDuration] returns a number of seconds that
    is not negative, in both versions; a sign in front of the digits is
    never read. *)
Theorem parseDuration_nonnegative (text : string)
  (duration : option string) :
  (0 <= parseDuration text)%Z /\ (0 <= utils_parseDuration duration)%Z.
Proof.
  assert (P : forall s, (0 <= parseDuration s)%Z).
  { intro s. unfold parseDuration, match_duration.
    destruct (after_PT s) as [r|]; [|lia].
    destruct (group "H" r) as [h r1] eqn:G1.
    destruct (group "M" r1) as [m r2] eqn:G2.
    destruct (group "S" r2) as [sec r3] eqn:G3.
    cbn [hoursGroup minutesGroup secondsGroup].
    pose proof (group_nonneg _ _ _ _ G1).
    pose proof (group_nonneg _ _ _ _ G2).
    pose proof (group_nonneg _ _ _ _ G3). lia. }
  split; [apply P|].
  destruct duration as [s|]; [|simpl; lia].
  rewrite utils_parseDuration_agrees. apply P.
Qed.
